(** * pyFDT: the flattened device tree object of [fdt/__init__.py]

    A shallow embedding of the [FDT] class and of the module functions
    [parse_dts], [parse_dtb] and [diff].  Python objects that are mutated in
    place (nodes of a tree) are modelled by explicit state passing: a node
    reference is the position of the node below the root, and a method that
    mutates the tree returns the new tree.  Python exceptions are values of
    [exn], carried by the [result] type. *)

From Stdlib Require Import ZArith Ascii String Lia.
From Stdlib.Strings Require Import Byte.
From stdpp Require Import list strings.

(** ** Exceptions and results *)

(** The exception classes the module raises or lets through. *)
Inductive exn : Type :=
| ValueError            (* raise ValueError(...), int() on a bad literal *)
| NotImplementedError   (* the DTS value kinds that are rejected *)
| AttributeError        (* a method called on None, or on a list *)
| TypeError
| IndexError
| StructError           (* struct.error of pack and unpack_from *)
| UnicodeEncodeError
| BaseError             (* raise Exception(...) *)
| BadMagic              (* the spec's names for the two failures of *)
| UnsupportedVersion    (* [Header.parse] in [fdt/head.py] *)
| OutOfFuel.            (* not a Python exception: a loop of the model used
                           up its fuel; the loops are given enough *)

Inductive result (A : Type) : Type :=
| Ok (a : A)
| Raise (e : exn).
Arguments Ok {A} a.
Arguments Raise {A} e.

Global Instance result_ret : MRet result := fun A a => Ok a.

Global Instance result_bind : MBind result := fun A B k r =>
  match r with
  | Ok a => k a
  | Raise e => Raise e
  end.

Global Instance result_fmap : FMap result := fun A B f r =>
  match r with
  | Ok a => Ok (f a)
  | Raise e => Raise e
  end.

Definition is_ok {A} (r : result A) : bool :=
  match r with Ok _ => true | Raise _ => false end.

(** ** Python strings

    A [str] is the list of its characters. *)

Abbreviation pystr := (list ascii).

Definition str (s : string) : pystr := list_ascii_of_string s.

Definition ascii_eqb (a b : ascii) : bool := Ascii.eqb a b.

(** [c in chars] *)
Definition char_in (c : ascii) (chars : pystr) : bool :=
  existsb (ascii_eqb c) chars.

(** [s.lstrip(chars)] *)
Fixpoint lstrip (chars : pystr) (s : pystr) : pystr :=
  match s with
  | [] => []
  | c :: s' => if char_in c chars then lstrip chars s' else s
  end.

(** [s.rstrip(chars)] *)
Definition rstrip (chars : pystr) (s : pystr) : pystr :=
  rev (lstrip chars (rev s)).

(** [s.strip(chars)] *)
Definition strip (chars : pystr) (s : pystr) : pystr :=
  rstrip chars (lstrip chars s).

(** The characters below 256 that [str.split()], [str.strip()] and
    [int()] treat as blanks: tab to carriage return, the four separators
    0x1c to 0x1f, space, next line and no-break space. *)
Definition whitespace : pystr :=
  map ascii_of_nat [9; 10; 11; 12; 13; 28; 29; 30; 31; 32; 133; 160].

(** [s.startswith(p)] *)
Fixpoint startswith (p s : pystr) : bool :=
  match p, s with
  | [], _ => true
  | _ :: _, [] => false
  | a :: p', b :: s' => ascii_eqb a b && startswith p' s'
  end.

(** [s.endswith(p)] *)
Definition endswith (p s : pystr) : bool := startswith (rev p) (rev s).

(** [s.split(sep)] for a non-empty separator.  [skip] counts the characters
    of a separator found at an earlier position that are still to be
    passed; [cur] is the piece read so far, last character first. *)
Fixpoint split_from (sep : pystr) (skip : nat) (cur : pystr) (s : pystr)
  : list pystr :=
  match s with
  | [] => [rev cur]
  | c :: s' =>
      match skip with
      | S k => split_from sep k cur s'
      | O =>
          if startswith sep s
          then rev cur :: split_from sep (length sep - 1) [] s'
          else split_from sep O (c :: cur) s'
      end
  end.

Definition split (sep : pystr) (s : pystr) : list pystr :=
  split_from sep O [] s.

(** [s.find(sep) == -1] when the result is [None]; else the two parts
    [s.split(sep, maxsplit=1)] gives for a one-character separator. *)
Fixpoint partition_from (sep : ascii) (cur : pystr) (s : pystr)
  : option (pystr * pystr) :=
  match s with
  | [] => None
  | c :: s' =>
      if ascii_eqb c sep then Some (rev cur, s')
      else partition_from sep (c :: cur) s'
  end.

Definition partition (sep : ascii) (s : pystr) : option (pystr * pystr) :=
  partition_from sep [] s.

(** [s.split()]: the maximal runs of non-blank characters. *)
Fixpoint split_ws_from (cur : pystr) (s : pystr) : list pystr :=
  match s with
  | [] => match cur with [] => [] | _ => [rev cur] end
  | c :: s' =>
      if char_in c whitespace
      then match cur with
           | [] => split_ws_from [] s'
           | _ => rev cur :: split_ws_from [] s'
           end
      else split_ws_from (c :: cur) s'
  end.

Definition split_ws (s : pystr) : list pystr := split_ws_from [] s.

(** [s.replace(old, new)] for a non-empty [old]: the occurrences are found
    from the left and do not overlap. *)
Fixpoint replace_from (old new : pystr) (skip : nat) (s : pystr) : pystr :=
  match s with
  | [] => []
  | c :: s' =>
      match skip with
      | S k => replace_from old new k s'
      | O =>
          if startswith old s
          then new ++ replace_from old new (length old - 1) s'
          else c :: replace_from old new O s'
      end
  end.

Definition replace (old new : pystr) (s : pystr) : pystr :=
  replace_from old new O s.

(** [sep.join(parts)] *)
Fixpoint join (sep : pystr) (parts : list pystr) : pystr :=
  match parts with
  | [] => []
  | [p] => p
  | p :: ps => p ++ sep ++ join sep ps
  end.

(** ** Bytes and [struct] *)

Definition Z_of_byte (b : byte) : Z := Z.of_N (Byte.to_N b).

Definition byte_of_Z (z : Z) : byte :=
  default x00 (Byte.of_N (Z.to_N (z mod 256))).

(** The big-endian bytes of [x], [n] of them. *)
Fixpoint be_bytes (n : nat) (x : Z) : list byte :=
  match n with
  | O => []
  | S n' => byte_of_Z (x / 256 ^ Z.of_nat n') :: be_bytes n' x
  end.

(** The number a big-endian byte string stands for. *)
Definition be_value (bs : list byte) : Z :=
  foldl (fun acc b => (acc * 256 + Z_of_byte b)%Z) 0%Z bs.

(** [pack('>I', x)] for [n = 4] and [pack('>Q', x)] for [n = 8]:
    [struct.error] when [x] is out of range. *)
Definition pack_be (n : nat) (x : Z) : result (list byte) :=
  if ((0 <=? x) && (x <? 256 ^ Z.of_nat n))%Z
  then Ok (be_bytes n x)
  else Raise StructError.

(** [len(data)] *)
Definition len {A} (l : list A) : Z := Z.of_nat (length l).

(** Where [unpack_from(fmt, data, offset)] reads [size] bytes: a negative
    offset counts from the end; [struct.error] when the bytes are not all
    inside [data]. *)
Definition unpack_start {A} (data : list A) (size offset : Z) : result Z :=
  if (offset <? 0)%Z
  then
    if ((0 <? offset + size) || (offset + len data <? 0))%Z
    then Raise StructError
    else Ok (offset + len data)%Z
  else
    if (len data - offset <? size)%Z then Raise StructError else Ok offset.

(** [unpack_from('>I', data, offset)[0]] for [n = 4], one [Q] for [n = 8]. *)
Definition unpack_be (n : nat) (data : list byte) (offset : Z) : result Z :=
  start ← unpack_start data (Z.of_nat n) offset;
  Ok (be_value (take n (drop (Z.to_nat start) data))).

(** [data[a:b]]: negative indices count from the end, and both are
    clamped to the length. *)
Definition slice_index {A} (data : list A) (i : Z) : nat :=
  let i := if (i <? 0)%Z then (i + len data)%Z else i in
  Z.to_nat (Z.min (Z.max 0 i) (len data)).

Definition slice {A} (data : list A) (a b : Z) : list A :=
  let a := slice_index data a in
  let b := slice_index data b in
  take (b - a) (drop a data).

(** [s.encode('ascii')]: [UnicodeEncodeError] on a character above 127. *)
Definition encode_ascii (s : pystr) : result (list byte) :=
  if forallb (fun c => (nat_of_ascii c <? 128)%nat) s
  then Ok (map byte_of_ascii s)
  else Raise UnicodeEncodeError.
(** ** The data model: properties, nodes, header, tree

    The classes [Property], [PropWords], [PropBytes], [PropStrings],
    [PropIncBin] and [Node] live in [fdt/item.py] and [Header] in
    [fdt/head.py]; [fdt/__init__.py] imports them. *)

(** Modelled from the spec: the property classes of [fdt/item.py] (data
    model, "Property": a discriminated value carrying a name; equality
    compares name and payload structurally). *)
Inductive Property : Type :=
| PropEmpty (pname : pystr)
| PropWords (pname : pystr) (words : list Z)
| PropBytes (pname : pystr) (data : list Z)
| PropStrings (pname : pystr) (strings : list pystr)
| PropIncBin (pname : pystr) (data : list Z) (file_name : pystr).

Definition prop_name (p : Property) : pystr :=
  match p with
  | PropEmpty n | PropWords n _ | PropBytes n _ | PropStrings n _
  | PropIncBin n _ _ => n
  end.

Global Instance Property_eq_dec : EqDecision Property.
Proof. solve_decision. Defined.

(** Modelled from the spec: [Property.copy] of [fdt/item.py] (cloning is
    deep: the clone has the same name and payload). *)
Definition Property_copy (p : Property) : Property := p.

(** Modelled from the spec: the class [Node] of [fdt/item.py] (data model,
    "Node": a name, an ordered list of properties and an ordered list of
    child nodes).  The parent back-link is not a field here: a node is
    reached from the root by its position, which gives its ancestors. *)
#[local] Unset Elimination Schemes.
Inductive Node : Type :=
  mkNode { name : pystr; props : list Property; nodes : list Node }.
#[local] Set Elimination Schemes.

(** [Node(name)] *)
Definition Node_new (nm : pystr) : Node := mkNode nm [] [].

(** A node reference: the child indices that lead from the root to it. *)
Abbreviation position := (list nat).

Fixpoint node_at (n : Node) (pos : position) : option Node :=
  match pos with
  | [] => Some n
  | i :: pos' =>
      match nodes n !! i with
      | Some c => node_at c pos'
      | None => None
      end
  end.

(** The node [n] with its [i]-th child replaced. *)
Definition set_child (n : Node) (i : nat) (c : Node) : Node :=
  mkNode (name n) (props n) (<[i:=c]> (nodes n)).

(** The tree [n] after the node at [pos] was changed by [f]. *)
Fixpoint update_at (f : Node -> Node) (n : Node) (pos : position) : Node :=
  match pos with
  | [] => f n
  | i :: pos' =>
      match nodes n !! i with
      | Some c => set_child n i (update_at f c pos')
      | None => n
      end
  end.

(** Modelled from the spec: [Node.get_subnode] of [fdt/item.py] (the first
    child with a matching name, or absent), here with the index of the
    child. *)
Definition Node_get_subnode (n : Node) (nm : pystr) : option (nat * Node) :=
  list_find (fun c => name c = nm) (nodes n).

(** Modelled from the spec: [Node.get_property] of [fdt/item.py] (the first
    property with a matching name, or absent). *)
Definition Node_get_property (n : Node) (nm : pystr) : option Property :=
  snd <$> list_find (fun p => prop_name p = nm) (props n).

(** Modelled from the spec: [Node.append] of [fdt/item.py] for a node
    (add a child node at the end; child names need not be unique within
    a parent). *)
Definition Node_append_node (n : Node) (c : Node) : Node :=
  mkNode (name n) (props n) (nodes n ++ [c]).

(** The node [n] with the property [p] at the end of its properties. *)
Definition Node_with_prop (n : Node) (p : Property) : Node :=
  mkNode (name n) (props n ++ [p]) (nodes n).

(** Modelled from the spec: [Node.append] of [fdt/item.py] for a property
    (add a property at the end; within a parent, property names are
    unique): a property whose name the node has already is refused. *)
Definition Node_append_prop (n : Node) (p : Property) : result Node :=
  match Node_get_property n (prop_name p) with
  | Some _ => Raise BaseError
  | None => Ok (Node_with_prop n p)
  end.

(** What [Node.append] is given: a node or a property. *)
Inductive Item : Type :=
| ItemNode (n : Node)
| ItemProp (p : Property).

(** Modelled from the spec: [Node.append] of [fdt/item.py], by the kind
    of the item. *)
Definition Node_append (n : Node) (item : Item) : result Node :=
  match item with
  | ItemNode c => Ok (Node_append_node n c)
  | ItemProp p => Node_append_prop n p
  end.

(** The node [n] with [item] at the end of the list of its kind: what an
    append that is not refused makes of it. *)
Definition Node_with (n : Node) (item : Item) : Node :=
  match item with
  | ItemNode c => Node_append_node n c
  | ItemProp p => Node_with_prop n p
  end.

(** The tree [n] after a method that may raise was called on the node at
    [pos]. *)
Fixpoint update_at_M (f : Node -> result Node) (n : Node) (pos : position)
  : result Node :=
  match pos with
  | [] => f n
  | i :: pos' =>
      match nodes n !! i with
      | Some c => c' ← update_at_M f c pos'; Ok (set_child n i c')
      | None => Ok n
      end
  end.

(** Modelled from the spec: an entry of the memory reservation list, the
    dictionary with the keys [address] and [size]. *)
Record Entry : Type := mkEntry { address : Z; size : Z }.

Global Instance Entry_eq_dec : EqDecision Entry.
Proof. solve_decision. Defined.

(** Modelled from the spec: the class [Header] of [fdt/head.py] (data
    model, "header": these fields; the version may be absent). *)
Record Header : Type := mkHeader {
  total_size : Z;
  off_dt_struct : Z;
  off_dt_strings : Z;
  off_mem_rsvmap : Z;
  version : option Z;
  last_comp_version : Z;
  boot_cpuid_phys : Z;
  size_dt_strings : Z;
  size_dt_struct : Z
}.

(** The header [h] with the version field [v]. *)
Definition with_version (h : Header) (v : option Z) : Header :=
  mkHeader (total_size h) (off_dt_struct h) (off_dt_strings h)
    (off_mem_rsvmap h) v (last_comp_version h) (boot_cpuid_phys h)
    (size_dt_strings h) (size_dt_struct h).

(** [fdt/head.py]: the assignment [header.version = v].  [version] is a
    property of [Header], and its setter is not under [src/]: it is a
    parameter here.  It gives the header the assignment leaves and, when
    the assignment raises, the exception.  What the setter refuses and
    what else it writes in the header is left open; an assignment that
    returns has stored the version. *)
Class HeadVersionPy : Type := {
  Header_set_version : Header -> Z -> Header * option exn;
  Header_set_version_stores :
    forall h v h', Header_set_version h v = (h', None) -> version h' = Some v
}.

(** [Header()]: no version yet. *)
Definition Header_new : Header := mkHeader 0%Z 0%Z 0%Z 0%Z None 0%Z 0%Z 0%Z 0%Z.

(** The class [FDT]: [header], [entries], [root_node].  [root_node] is
    [None] after a parse that met no node. *)
Record FDT : Type := mkFDT {
  header : Header;
  entries : list Entry;
  root_node : option Node
}.

(** [FDT(header)] *)
Definition FDT_new (h : option Header) : FDT :=
  mkFDT (default Header_new h) [] (Some (Node_new (str "/"))).

Definition set_root (fdt : FDT) (root : option Node) : FDT :=
  mkFDT (header fdt) (entries fdt) root.

Definition set_entries (fdt : FDT) (es : list Entry) : FDT :=
  mkFDT (header fdt) es (root_node fdt).

Definition set_header (fdt : FDT) (h : Header) : FDT :=
  mkFDT h (entries fdt) (root_node fdt).

(** ** [FDT.get_node] *)

(** The loop [for name in names] of [get_node], started at the node [n]:
    each round moves to the like-named child, which is created first when
    it is missing and [create] is set.  The result is [n] as the loop
    leaves it (with the created nodes) and the position, below [n], of the
    node the loop ends at. *)
Fixpoint get_node_from (create : bool) (names : list pystr) (n : Node)
  : result (Node * position) :=
  match names with
  | [] => Ok (n, [])
  | nm :: names' =>
      match Node_get_subnode n nm with
      | Some (i, item) =>
          '(item', pos) ← get_node_from create names' item;
          Ok (set_child n i item', i :: pos)
      | None =>
          if create
          then
            '(item', pos) ← get_node_from create names' (Node_new nm);
            Ok (Node_append_node n item', length (nodes n) :: pos)
          else Raise ValueError
      end
  end.

(** The names a path is cut into: [path.lstrip('/')], then [split('/')]
    unless nothing is left. *)
Definition path_names (path : pystr) : list pystr :=
  match lstrip (str "/") path with
  | [] => []
  | p => split (str "/") p
  end.

(** [get_node(path, create)].  The result is the tree after the call and
    the node returned: [None] is Python's None, which is what comes back
    for the empty path when the tree has no root node. *)
Definition get_node (fdt : FDT) (path : pystr) (create : bool)
  : result (FDT * option position) :=
  match root_node fdt with
  | Some root =>
      '(root', pos) ← get_node_from create (path_names path) root;
      Ok (set_root fdt (Some root'), Some pos)
  | None =>
      match path_names path with
      | [] => Ok (fdt, None)
      | _ :: _ => Raise AttributeError
      end
  end.

(** A list of names resolves below [n] when some chain of like-named
    children of [n] follows it. *)
Inductive names_resolve : Node -> list pystr -> Prop :=
| resolve_here n : names_resolve n []
| resolve_child n c nm names :
    c ∈ nodes n -> name c = nm -> names_resolve c names ->
    names_resolve n (nm :: names).


(** ** [FDT.walk] *)

(** The names of the ancestors of the node at [pos], root first. *)
Fixpoint ancestor_names (n : Node) (pos : position) : list pystr :=
  match pos with
  | [] => []
  | i :: pos' =>
      name n :: match nodes n !! i with
                | Some c => ancestor_names c pos'
                | None => []
                end
  end.

(** Modelled from the spec: the property [Node.path] of [fdt/item.py] (a
    node's path is the /-joined names of its ancestors from the root). *)
Definition Node_path (root : Node) (pos : position) : pystr :=
  join (str "/") (ancestor_names root pos).

(** [node.nodes], as references. *)
Definition children_refs (root : Node) (pos : position) : list position :=
  match node_at root pos with
  | Some n => map (fun i => pos ++ [i]) (seq 0 (length (nodes n)))
  | None => []
  end.

(** [nodes.pop()]: the last element and the list without it. *)
Definition pop {A} (l : list A) : option (list A * A) :=
  match rev l with
  | [] => None
  | x :: r => Some (rev r, x)
  end.

(** The loop of [walk]: [node] is the node about to be yielded, [nodes] the
    stack.  The result lists the nodes in the order they are yielded;
    [None] when [fuel] rounds were not enough to empty the stack. *)
Fixpoint walk_loop (fuel : nat) (root : Node) (node : position)
    (nodes : list position) : option (list position) :=
  match fuel with
  | O => None
  | S fuel' =>
      let nodes := nodes ++ children_refs root node in
      match pop nodes with
      | None => Some [node]
      | Some (nodes', next) => cons node <$> walk_loop fuel' root next nodes'
      end
  end.

(** The number of nodes of a tree. *)
Fixpoint node_count (n : Node) : nat :=
  S (list_sum (map node_count (nodes n))).

(** ["{}/{}".format(node.path, node.name).replace('///', '/').replace('//', '/')] *)
Definition current_path (root : Node) (pos : position) (nm : pystr) : pystr :=
  replace (str "//") (str "/")
    (replace (str "///") (str "/") (Node_path root pos ++ str "/" ++ nm)).

(** What [walk] yields. *)
Definition walk_triple : Type := pystr * list Node * list Property.

(** The triple yielded for the node at [pos]. *)
Definition walk_yield (root : Node) (path : pystr) (relative : bool)
    (pos : position) : option walk_triple :=
  n ← node_at root pos;
  let cp := current_path root pos (name n) in
  let cp :=
    if negb (bool_decide (path = [])) && relative
    then lstrip (str "/") (replace path [] cp)
    else cp in
  Some (cp, nodes n, props n).

(** The nodes [walk(path)] visits, in order.  The generator raises before
    its first yield when [get_node] raises or returns None; after that
    nothing raises.  The fuel is the size of the tree, which is enough
    ([walk_loop_enough]). *)
Definition walk_refs (fdt : FDT) (path : pystr) : result (list position) :=
  '(_, start) ← get_node fdt path false;
  match root_node fdt, start with
  | Some root, Some pos =>
      match walk_loop (node_count root) root pos [] with
      | Some visited => Ok visited
      | None => Raise OutOfFuel
      end
  | _, _ => Raise AttributeError
  end.

(** [walk(path, relative)]: the triples in the order they are yielded. *)
Definition walk (fdt : FDT) (path : pystr) (relative : bool)
  : result (list walk_triple) :=
  match walk_refs fdt path, root_node fdt with
  | Ok visited, Some root =>
      Ok (omap (walk_yield root path relative) visited)
  | Ok _, None => Raise AttributeError
  | Raise e, _ => Raise e
  end.

(** *** Depth-first orders, to state what [walk] does *)

(** The nodes below [n], each before its descendants, the subtree of a
    later child before the subtree of an earlier one. *)
Fixpoint preorder_children (f : Node -> list position) (i : nat)
    (cs : list Node) : list position :=
  match cs with
  | [] => []
  | c :: cs' => preorder_children f (S i) cs' ++ map (cons i) (f c)
  end.

Fixpoint preorder_rev (n : Node) : list position :=
  [] :: preorder_children preorder_rev 0 (nodes n).

(** A depth-first pre-order of the tree below [n]: [n] first, then the
    whole subtree of one child after the other, the children taken in
    some order, each subtree again in depth-first pre-order. *)
#[local] Unset Elimination Schemes.
#[local] Set Elimination Schemes.

(** The nodes of the subtree at [p], as [walk] visits them. *)
Definition sub_walk (root : Node) (p : position) : list position :=
  match node_at root p with
  | Some n => map (app p) (preorder_rev n)
  | None => []
  end.

(** What is left to visit when the loop of [walk] is at [node] with the
    stack [nodes]. *)
Definition todo (root : Node) (node : position) (nodes : list position)
  : list position :=
  sub_walk root node ++ concat (map (sub_walk root) (rev nodes)).

(** ** [FDT.merge] *)

(** Modelled from the spec: [Node.merge] of [fdt/item.py] (for each
    property of [other], overwrite on a name collision when [replace] is
    set, else keep the existing one, and append the new ones; for each
    child, merge into the like-named child, or append a clone when there
    is none). *)
Definition merge_prop (replace : bool) (ps : list Property) (p : Property)
  : list Property :=
  match list_find (fun q => prop_name q = prop_name p) ps with
  | Some (i, _) => if replace then <[i:=Property_copy p]> ps else ps
  | None => ps ++ [Property_copy p]
  end.

Fixpoint Node_merge (self other : Node) (replace : bool) : Node :=
  let ps := foldl (merge_prop replace) (props self) (props other) in
  let cs :=
    foldl (fun cs c =>
             match list_find (fun d => name d = name c) cs with
             | Some (i, mine) => <[i:=Node_merge mine c replace]> cs
             | None => cs ++ [c]
             end)
          (nodes self) (nodes other) in
  mkNode (name self) ps cs.

(** The header part of [merge]: the header [self] is left with, and the
    exception when the assignment of the version raises. *)
Definition merge_header `{HeadVersionPy} (self other : Header)
  : Header * option exn :=
  match version self with
  | None => (other, None)
  | Some v =>
      match version other with
      | Some w => if (v <? w)%Z then Header_set_version self w else (self, None)
      | None => (self, None)
      end
  end.

(** One round of [for in_entry in fdt_obj.entries]: the inner loop stops
    at the first entry of [self.entries] with the address of [in_entry]
    and assigns [in_entry['size']] to the [address] key of that entry; when
    there is none, [in_entry] is appended. *)
Definition merge_entry (self_entries : list Entry) (in_entry : Entry)
  : list Entry :=
  match list_find (fun e => address e = address in_entry) self_entries with
  | Some (index, e) =>
      <[index := mkEntry (size in_entry) (size e)]> self_entries
  | None => self_entries ++ [in_entry]
  end.

Definition merge_entries (self_entries in_entries : list Entry) : list Entry :=
  foldl merge_entry self_entries in_entries.

(** [self.merge(fdt_obj, replace)].  The entries of the two trees are
    taken to be distinct objects. *)
Definition merge `{HeadVersionPy} (self fdt_obj : FDT) (replace : bool)
  : result FDT :=
  match merge_header (header self) (header fdt_obj) with
  | (_, Some e) => Raise e
  | (h, None) =>
      let es := merge_entries (entries self) (entries fdt_obj) in
      match root_node self, root_node fdt_obj with
      | Some mine, Some other =>
          Ok (mkFDT h es (Some (Node_merge mine other replace)))
      | _, _ => Raise AttributeError
      end
  end.

(** ** The code this module imports

    [fdt/__init__.py] calls into [fdt/head.py], [fdt/item.py] and
    [fdt/misc.py].  What it calls there and the data model above does not
    cover is collected in three interfaces; the functions of this module
    are defined, and their properties proved, for any implementation of
    them.  Implementations modelled from the spec follow further down and
    serve to run the functions on concrete inputs. *)

(** [fdt/head.py]: [header.size] (for a header of a given version),
    [header.export()] and [Header.parse(data)]. *)
Class HeadPy : Type := {
  Header_size : Z -> Z;
  Header_export : Header -> result (list byte);
  Header_parse : list byte -> result Header
}.

(** [fdt/item.py]: [node.to_dtb(strings, pos, version)], which returns the
    structure bytes of the subtree, the string block and the position
    after the subtree; and [new_property(name, raw_value)]. *)
Class ItemPy : Type := {
  Node_to_dtb : Node -> pystr -> Z -> Z -> result (list byte * pystr * Z);
  new_property : pystr -> list byte -> result Property
}.

(** Modelled from the spec: the tags of the structure block, constants of
    [fdt/head.py] (DTB parser, "Tag handling"). *)
Definition DTB_BEGIN_NODE : Z := 1.
Definition DTB_END_NODE : Z := 2.
Definition DTB_PROP : Z := 3.
Definition DTB_NOP : Z := 4.
Definition DTB_END : Z := 9.

(** ** [FDT.to_dtb] *)

Definition set_last_comp_version (h : Header) (v : Z) : Header :=
  mkHeader (total_size h) (off_dt_struct h) (off_dt_strings h)
    (off_mem_rsvmap h) (version h) v (boot_cpuid_phys h)
    (size_dt_strings h) (size_dt_struct h).

Definition set_boot_cpuid_phys (h : Header) (v : Z) : Header :=
  mkHeader (total_size h) (off_dt_struct h) (off_dt_strings h)
    (off_mem_rsvmap h) (version h) (last_comp_version h) v
    (size_dt_strings h) (size_dt_struct h).

(** The six assignments of [to_dtb] to the offsets and sizes. *)
Definition set_layout (h : Header) (header_size blob_data_start : Z)
    (len_data len_strings : Z) : Header :=
  mkHeader (blob_data_start + len_data + len_strings)
    blob_data_start
    (blob_data_start + len_data)
    header_size
    (version h) (last_comp_version h) (boot_cpuid_phys h)
    len_strings
    len_data.

(** [pack('>QQ', address, size)] *)
Definition pack_QQ (a s : Z) : result (list byte) :=
  x ← pack_be 8 a; y ← pack_be 8 s; Ok (x ++ y).

(** The loop over [self.entries] that builds [blob_entries]. *)
Fixpoint pack_entries (es : list Entry) : result (list byte) :=
  match es with
  | [] => Ok []
  | e :: es' =>
      x ← pack_QQ (address e) (size e);
      rest ← pack_entries es';
      Ok (x ++ rest)
  end.

(** [header.version], for where an argument is named [version]. *)
Definition version_of (h : Header) : option Z := version h.

(** The two plain assignments [header.last_comp_version = ...] and
    [header.boot_cpuid_phys = ...], each made when its value is there. *)
Definition store_args (h : Header) (last_comp_version boot_cpuid_phys : option Z)
  : Header :=
  let h := match last_comp_version with
           | Some v => set_last_comp_version h v
           | None => h
           end in
  match boot_cpuid_phys with
  | Some v => set_boot_cpuid_phys h v
  | None => h
  end.

(** The three optional assignments at the start of [to_dtb]: the version
    through its setter, then the other two.  The result is the header
    they leave and, when the setter raises, the exception; nothing is
    assigned after that. *)
Definition to_dtb_header `{HeadVersionPy} (h : Header)
    (version last_comp_version boot_cpuid_phys : option Z)
  : Header * option exn :=
  match match version with
        | Some v => Header_set_version h v
        | None => (h, None)
        end with
  | (h, Some e) => (h, Some e)
  | (h, None) => (store_args h last_comp_version boot_cpuid_phys, None)
  end.

(** [self.to_dtb(version, last_comp_version, boot_cpuid_phys)].  The
    result is the tree after the call, whose header the call assigns to,
    and what the call returns or raises; [Ok None] is the return of None
    for a tree without a root node. *)
Definition to_dtb `{HeadVersionPy} `{HeadPy} `{ItemPy} (self : FDT)
    (version last_comp_version boot_cpuid_phys : option Z)
  : FDT * result (option (list byte)) :=
  match root_node self with
  | None => (self, Ok None)
  | Some root =>
      match to_dtb_header (header self)
              version last_comp_version boot_cpuid_phys with
      | (h, Some e) => (set_header self h, Raise e)
      | (h, None) =>
      match version_of h with
      | None => (set_header self h, Raise BaseError)
      | Some v =>
          match (es ← pack_entries (entries self);
                 z ← pack_QQ 0 0;
                 Ok (es ++ z)) with
          | Raise e => (set_header self h, Raise e)
          | Ok blob_entries =>
              let blob_data_start := (Header_size v + len blob_entries)%Z in
              match Node_to_dtb root [] blob_data_start v with
              | Raise e => (set_header self h, Raise e)
              | Ok (blob_data, blob_strings, data_pos) =>
                  match pack_be 4 DTB_END with
                  | Raise e => (set_header self h, Raise e)
                  | Ok end_tag =>
                      let blob_data := blob_data ++ end_tag in
                      let h := set_layout h (Header_size v) blob_data_start
                                 (len blob_data) (len blob_strings) in
                      match (blob_header ← Header_export h;
                             s ← encode_ascii blob_strings;
                             Ok (blob_header ++ blob_entries ++ blob_data ++ s))
                      with
                      | Raise e => (set_header self h, Raise e)
                      | Ok blob => (set_header self h, Ok (Some blob))
                      end
                  end
              end
          end
      end
      end
  end.

(** ** [fdt/head.py] and [fdt/item.py], modelled from the spec *)

Definition DTB_MAGIC : Z := 0xd00dfeed.

(** Modelled from the spec: [header.size] of [fdt/head.py] (Header codec:
    40 bytes for version 1, 48 from version 2, 52 from version 3, 56 from
    version 17). *)
Definition Header_size_spec (v : Z) : Z :=
  if (17 <=? v)%Z then 56
  else if (3 <=? v)%Z then 52
  else if (2 <=? v)%Z then 48
  else 40.

(** The words of a header, in the order of the layout; the last three are
    there from version 2, 3 and 17 on. *)
Definition header_words (h : Header) (v : Z) : list Z :=
  [DTB_MAGIC; total_size h; off_dt_struct h; off_dt_strings h;
   off_mem_rsvmap h; v; last_comp_version h]
  ++ (if (2 <=? v)%Z then [boot_cpuid_phys h] else [])
  ++ (if (3 <=? v)%Z then [size_dt_strings h] else [])
  ++ (if (17 <=? v)%Z then [size_dt_struct h] else []).

Fixpoint pack_words (ws : list Z) : result (list byte) :=
  match ws with
  | [] => Ok []
  | w :: ws' => x ← pack_be 4 w; rest ← pack_words ws'; Ok (x ++ rest)
  end.

(** Modelled from the spec: [header.export()] of [fdt/head.py] (Header
    codec: the fields big-endian in the order of the layout, in a header of
    the length the version asks for). *)
Definition Header_export_spec (h : Header) : result (list byte) :=
  match version h with
  | None => Raise BaseError
  | Some v =>
      ws ← pack_words (header_words h v);
      Ok (ws ++ replicate (Z.to_nat (Header_size_spec v) - length ws) x00)
  end.

(** Modelled from the spec: [Header.parse(data)] of [fdt/head.py] (Header
    codec: fails with BadMagic if the magic does not match, and with
    UnsupportedVersion if the version is below 2 or above 17). *)
Definition Header_parse_spec (data : list byte) : result Header :=
  magic ← unpack_be 4 data 0;
  if negb (magic =? DTB_MAGIC)%Z then Raise BadMagic else
  total ← unpack_be 4 data 4;
  off_struct ← unpack_be 4 data 8;
  off_strings ← unpack_be 4 data 12;
  off_rsvmap ← unpack_be 4 data 16;
  v ← unpack_be 4 data 20;
  last_comp ← unpack_be 4 data 24;
  if ((v <? 2) || (17 <? v))%Z then Raise UnsupportedVersion else
  boot ← unpack_be 4 data 28;
  size_strings ← (if (3 <=? v)%Z then unpack_be 4 data 32 else Ok 0%Z);
  size_struct ← (if (17 <=? v)%Z then unpack_be 4 data 36 else Ok 0%Z);
  Ok (mkHeader total off_struct off_strings off_rsvmap (Some v) last_comp
        boot size_strings size_struct).

(** Modelled from the spec: the setter of [version] in [fdt/head.py]
    (data model, the header: a field [version], absent in a tree built
    from scratch and set before an emit).  It stands for the setter where
    a sample is evaluated, with the versions 15, 16 and 17; the theorems
    are proved for every setter. *)
Global Instance HeadVersionPy_spec : HeadVersionPy.
Proof.
  refine {| Header_set_version h v := (with_version h (Some v), None) |}.
  intros h v h' [= <-]. reflexivity.
Defined.

Global Instance HeadPy_spec : HeadPy := {|
  Header_size := Header_size_spec;
  Header_export := Header_export_spec;
  Header_parse := Header_parse_spec
|}.

(** Zero bytes up to the next multiple of four. *)
Definition pad4 (bs : list byte) : list byte :=
  bs ++ replicate ((4 - length bs mod 4) mod 4) x00.

Definition NUL : ascii := ascii_of_nat 0.

(** Modelled from the spec: the raw encoding of a property (data model,
    "Property": words big-endian, bytes raw, each string followed by a NUL
    byte, included binaries raw). *)
Definition Property_raw (p : Property) : result (list byte) :=
  match p with
  | PropEmpty _ => Ok []
  | PropWords _ ws => pack_words ws
  | PropBytes _ bs | PropIncBin _ bs _ =>
      if forallb (fun b => (0 <=? b) && (b <? 256))%Z bs
      then Ok (map byte_of_Z bs)
      else Raise ValueError
  | PropStrings _ ss => encode_ascii (concat (map (fun s => s ++ [NUL]) ss))
  end.

(** The entries of a string pool: each ends with a NUL. *)
Fixpoint pool_entries (cur : pystr) (s : pystr) : list pystr :=
  match s with
  | [] => []
  | c :: s' =>
      if ascii_eqb c NUL
      then rev cur :: pool_entries [] s'
      else pool_entries (c :: cur) s'
  end.

Fixpoint entry_offset (nm : pystr) (es : list pystr) (off : Z) : option Z :=
  match es with
  | [] => None
  | e :: es' =>
      if bool_decide (e = nm) then Some off
      else entry_offset nm es' (off + len e + 1)%Z
  end.

(** Modelled from the spec: the string pool (exact dedup: a name that was
    interned has its first offset, a new one is appended with its NUL). *)
Definition intern (strings : pystr) (nm : pystr) : pystr * Z :=
  match entry_offset nm (pool_entries [] strings) 0 with
  | Some off => (strings, off)
  | None => (strings ++ nm ++ [NUL], len strings)
  end.

(** The properties of a node in the structure block. *)
Fixpoint props_to_dtb (ps : list Property) (strings : pystr)
  : result (list byte * pystr) :=
  match ps with
  | [] => Ok ([], strings)
  | p :: ps' =>
      raw ← Property_raw p;
      let '(strings, nameoff) := intern strings (prop_name p) in
      tag ← pack_be 4 DTB_PROP;
      l ← pack_be 4 (len raw);
      off ← pack_be 4 nameoff;
      '(rest, strings) ← props_to_dtb ps' strings;
      Ok (tag ++ l ++ off ++ pad4 raw ++ rest, strings)
  end.

(** Modelled from the spec: [node.to_dtb(strings, pos, version)] of
    [fdt/item.py] (DTB emitter: for each node FDT_BEGIN_NODE, the name with
    its NUL and padding, the properties, the children, FDT_END_NODE; the
    root goes out with the empty name). *)
Fixpoint Node_to_dtb_spec (n : Node) (strings : pystr) (pos version : Z)
  : result (list byte * pystr * Z) :=
  tag ← pack_be 4 DTB_BEGIN_NODE;
  nm ← encode_ascii (if bool_decide (name n = str "/") then [] else name n);
  '(pdata, strings) ← props_to_dtb (props n) strings;
  let fix children (cs : list Node) (strings : pystr) (pos : Z)
    : result (list byte * pystr * Z) :=
    match cs with
    | [] => Ok ([], strings, pos)
    | c :: cs' =>
        '(d, strings, pos) ← Node_to_dtb_spec c strings pos version;
        '(ds, strings, pos) ← children cs' strings pos;
        Ok (d ++ ds, strings, pos)
    end in
  let head := tag ++ pad4 (nm ++ [x00]) ++ pdata in
  '(cdata, strings, pos) ← children (nodes n) strings (pos + len head)%Z;
  end_tag ← pack_be 4 DTB_END_NODE;
  Ok (head ++ cdata ++ end_tag, strings, (pos + 4)%Z).

Definition printable (b : byte) : bool :=
  ((32 <=? Z_of_byte b) && (Z_of_byte b <=? 126))%Z.

(** The strings of a payload in which every string ends with a NUL. *)
Fixpoint c_strings (cur : pystr) (bs : list byte) : list pystr :=
  match bs with
  | [] => []
  | b :: bs' =>
      if (Z_of_byte b =? 0)%Z
      then rev cur :: c_strings [] bs'
      else c_strings (ascii_of_byte b :: cur) bs'
  end.

Fixpoint words_of (fuel : nat) (bs : list byte) : list Z :=
  match fuel, bs with
  | S fuel', _ :: _ => be_value (take 4 bs) :: words_of fuel' (drop 4 bs)
  | _, _ => []
  end.

(** Modelled from the spec: [new_property(name, raw_value)] of
    [fdt/item.py] (Property kinds, the heuristic on the payload: no bytes,
    an empty property; a multiple of four bytes with a byte that is neither
    printable nor NUL, words; printable characters and NULs, ending with a
    NUL, strings; anything else, bytes). *)
Definition new_property_spec (nm : pystr) (raw : list byte) : result Property :=
  if (length raw =? 0)%nat then Ok (PropEmpty nm)
  else if ((length raw mod 4 =? 0)%nat
           && existsb (fun b => negb (printable b) && negb (Z_of_byte b =? 0)%Z) raw)
  then Ok (PropWords nm (words_of (length raw) raw))
  else if (forallb (fun b => printable b || (Z_of_byte b =? 0)%Z) raw
           && match last raw with
              | Some b => (Z_of_byte b =? 0)%Z
              | None => false
              end)
  then Ok (PropStrings nm (c_strings [] raw))
  else Ok (PropBytes nm (map Z_of_byte raw)).

Global Instance ItemPy_spec : ItemPy := {|
  Node_to_dtb := Node_to_dtb_spec;
  new_property := new_property_spec
|}.

(** ** Sample inputs *)

(** A tree of version 17 with one reservation, a root with a word
    property, and a node [cpu] with a string property and an empty one. *)
Definition sample_root : Node :=
  mkNode (str "/") [PropWords (str "bar") [1; 2; 3]%Z]
    [mkNode (str "cpu")
       [PropStrings (str "compatible") [str "arm"]; PropEmpty (str "bar")]
       []].

Definition sample_fdt : FDT :=
  mkFDT (with_version Header_new (Some 17%Z))
    [mkEntry 0x10000000 0x200000] (Some sample_root).

(** The blob [to_dtb] makes of it, with the modelled [head.py] and
    [item.py]. *)
Definition sample_blob : list byte :=
  Eval vm_compute in
    match (to_dtb sample_fdt None None None).2 with
    | Ok (Some blob) => blob
    | _ => []
    end.

(** A tree as [parse_dts] returns it for a text without a node: version
    17, no root node. *)
Definition rootless_fdt : FDT :=
  mkFDT (with_version Header_new (Some 17%Z)) [] None.

(** A root with an empty property and a property of two words, whose
    payload is at 100 in the blob, which is not a multiple of 8. *)
Definition quirk_fdt (v : Z) : FDT :=
  mkFDT (with_version Header_new (Some v)) []
    (Some (mkNode (str "/")
             [PropEmpty (str "e"); PropWords (str "w") [1; 2]%Z] [])).

(** Its blob, with 15 or 16 in the version word and otherwise the same. *)
Definition quirk_blob (v : Z) : list byte :=
  match (to_dtb (quirk_fdt v) None None None).2 with
  | Ok (Some blob) => blob
  | _ => []
  end.

Definition quirk_blob_15 : list byte := Eval vm_compute in quirk_blob 15.
Definition quirk_blob_16 : list byte := Eval vm_compute in quirk_blob 16.

(** Trees on which [diff] of a tree with itself is looked at: two
    children of one name, the second with a child; a root that is not
    named [/]; a child whose name holds a slash; a child with an empty
    name. *)
Definition twins_fdt : FDT :=
  mkFDT Header_new []
    (Some (mkNode (str "/") []
             [Node_new (str "a"); mkNode (str "a") [] [Node_new (str "b")]])).

Definition named_root_fdt : FDT :=
  mkFDT Header_new [] (Some (mkNode (str "soc") [PropEmpty (str "x")] [])).

Definition slash_name_fdt : FDT :=
  mkFDT Header_new []
    (Some (mkNode (str "/") [] [mkNode (str "a/b") [PropEmpty (str "x")] []])).

Definition empty_name_fdt : FDT :=
  mkFDT Header_new []
    (Some (mkNode (str "/") [] [mkNode [] [PropEmpty (str "x")] []])).


(** [fdt/misc.py]: [extract_string(data, pos)], [get_version_info(text)],
    [strip_comments(text)] and [split_to_lines(text)]. *)
Record VersionInfo : Type := mkVersionInfo {
  vi_version : option Z;
  vi_last_comp_version : option Z;
  vi_boot_cpuid_phys : option Z
}.

Class MiscPy : Type := {
  extract_string : list byte -> Z -> result pystr;
  get_version_info : pystr -> VersionInfo;
  strip_comments : pystr -> pystr;
  split_to_lines : pystr -> list pystr
}.

(** ** The tree under construction in [parse_dtb] and [parse_dts]

    Both parsers keep [fdt_obj.root_node] and a current node, and go up
    with [current_node.parent].  The current node is None, or a node of the
    tree below [root_node], or a node of a tree that was started when
    [root_node] was already closed: such a tree is attached to nothing, and
    is kept here with the cursor for as long as the cursor is in it. *)
Inductive cursor : Type :=
| AtNone
| InRoot (pos : position)
| Detached (tree : Node) (pos : position).

Record builder : Type := mkBuilder {
  b_root : option Node;
  b_cur : cursor
}.

Definition builder_init : builder := mkBuilder None AtNone.

(** The position of the child that [append] is about to add to the node
    at [pos]. *)
Definition next_child (tree : Node) (pos : position) : position :=
  pos ++ [match node_at tree pos with
          | Some n => length (nodes n)
          | None => O
          end].

(** [new_node = Node(name)]; [root_node = new_node] if it was None;
    [current_node.append(new_node)] if there is a current node;
    [current_node = new_node]. *)
Definition builder_begin (b : builder) (nm : pystr) : builder :=
  let new_node := Node_new nm in
  match b_root b with
  | None => mkBuilder (Some new_node) (InRoot [])
  | Some root =>
      match b_cur b with
      | AtNone => mkBuilder (Some root) (Detached new_node [])
      | InRoot pos =>
          mkBuilder
            (Some (update_at (fun n => Node_append_node n new_node) root pos))
            (InRoot (next_child root pos))
      | Detached tree pos =>
          mkBuilder (Some root)
            (Detached (update_at (fun n => Node_append_node n new_node) tree pos)
               (next_child tree pos))
      end
  end.

(** [current_node = current_node.parent] if there is a current node. *)
Definition builder_end (b : builder) : builder :=
  match b_cur b with
  | AtNone => b
  | InRoot [] | Detached _ [] => mkBuilder (b_root b) AtNone
  | InRoot pos => mkBuilder (b_root b) (InRoot (removelast pos))
  | Detached tree pos => mkBuilder (b_root b) (Detached tree (removelast pos))
  end.

(** [current_node.append(prop_obj)], for a current node that is not
    None; the append may be refused. *)
Definition builder_prop (b : builder) (p : Property) : result builder :=
  match b_cur b with
  | AtNone => Ok b
  | InRoot pos =>
      match b_root b with
      | Some root =>
          root' ← update_at_M (fun n => Node_append_prop n p) root pos;
          Ok (mkBuilder (Some root') (InRoot pos))
      | None => Ok b
      end
  | Detached tree pos =>
      tree' ← update_at_M (fun n => Node_append_prop n p) tree pos;
      Ok (mkBuilder (b_root b) (Detached tree' pos))
  end.

Definition has_current (b : builder) : bool :=
  match b_cur b with AtNone => false | _ => true end.

(** ** [parse_dtb] *)

(** [unpack_from('>QQ', data, pos)] and [unpack_from('>II', data, pos)] *)
Definition unpack_pair (n : nat) (data : list byte) (pos : Z) : result (Z * Z) :=
  start ← unpack_start data (2 * Z.of_nat n) pos;
  let bytes := drop (Z.to_nat start) data in
  Ok (be_value (take n bytes), be_value (take n (drop n bytes))).

(** The first loop of [parse_dtb]: the reservation entries up to the pair
    of zeros. *)
Fixpoint parse_entries_loop (fuel : nat) (data : list byte) (offset index : Z)
    (acc : list Entry) : result (list Entry) :=
  match fuel with
  | O => Raise OutOfFuel
  | S fuel' =>
      '(a, s) ← unpack_pair 8 data (offset + index);
      let index := (index + 16)%Z in
      if ((a =? 0) && (s =? 0))%Z then Ok acc
      else parse_entries_loop fuel' data offset index (acc ++ [mkEntry a s])
  end.

(** Where the payload of a property starts.  [index] is the position of
    the length word, after the tag:
    [prop_start = index + 8], and
    [prop_start = ((prop_start + 7) & ~0x7)] when the version is below 16
    and the length is at least 8. *)
Definition prop_payload_start (v index prop_size : Z) : Z :=
  let prop_start := (index + 8)%Z in
  if ((v <? 16) && (8 <=? prop_size))%Z
  then Z.land (prop_start + 7) (Z.lnot 7)
  else prop_start.

(** What one round of the second loop does. *)
Inductive step_result : Type :=
| Continue (index : Z) (b : builder)
| Stop.

(** One round of the second loop of [parse_dtb], with the tag at
    [offset + index]. *)
Definition parse_nodes_step `{ItemPy} `{MiscPy} (data : list byte) (offset : Z)
    (hdr : Header) (index : Z) (b : builder) : result step_result :=
  if (len data <? offset + index + 4)%Z then Raise BaseError else
  tag ← unpack_be 4 data (offset + index);
  let index := (index + 4)%Z in
  if (tag =? DTB_BEGIN_NODE)%Z then
    node_name ← extract_string data (offset + index);
    let index := Z.land (index + len node_name + 4) (Z.lnot 3) in
    let node_name := match node_name with [] => str "/" | _ => node_name end in
    Ok (Continue index (builder_begin b node_name))
  else if (tag =? DTB_END_NODE)%Z then
    Ok (Continue index (builder_end b))
  else if (tag =? DTB_PROP)%Z then
    '(prop_size, prop_string_pos) ← unpack_pair 4 data (offset + index);
    match version hdr with
    | None => Raise TypeError
    | Some v =>
        let prop_start := prop_payload_start v index prop_size in
        prop_name ← extract_string data (off_dt_strings hdr + prop_string_pos);
        let prop_raw_value :=
          slice data (offset + prop_start) (offset + prop_start + prop_size) in
        let index := (prop_start + prop_size)%Z in
        let index := Z.land (index + 3) (Z.lnot 3) in
        if has_current b
        then p ← new_property prop_name prop_raw_value;
             b' ← builder_prop b p;
             Ok (Continue index b')
        else Ok (Continue index b)
    end
  else if (tag =? DTB_END)%Z then Ok Stop
  else Raise BaseError.

(** The second loop of [parse_dtb]. *)
Fixpoint parse_nodes_loop `{ItemPy} `{MiscPy} (fuel : nat) (data : list byte)
    (offset : Z) (hdr : Header) (index : Z) (b : builder) : result builder :=
  match fuel with
  | O => Raise OutOfFuel
  | S fuel' =>
      r ← parse_nodes_step data offset hdr index b;
      match r with
      | Continue index' b' => parse_nodes_loop fuel' data offset hdr index' b'
      | Stop => Ok b
      end
  end.

(** [parse_dtb(data, offset)].  Each round of either loop reads further
    into [data], so a round for each byte is enough fuel
    ([parse_dtb_fuel_enough]). *)
Definition parse_dtb `{HeadPy} `{ItemPy} `{MiscPy} (data : list byte)
    (offset : Z) : result FDT :=
  hdr ← Header_parse data;
  es ← parse_entries_loop (S (length data)) data offset (off_mem_rsvmap hdr) [];
  b ← parse_nodes_loop (S (length data)) data offset hdr (off_dt_struct hdr)
        builder_init;
  Ok (mkFDT hdr es (b_root b)).

(** ** Python's [int(s, base)] *)

Definition digit_value (c : ascii) : option Z :=
  let n := nat_of_ascii c in
  if ((48 <=? n) && (n <=? 57))%nat then Some (Z.of_nat (n - 48))
  else if ((97 <=? n) && (n <=? 122))%nat then Some (Z.of_nat (n - 87))
  else if ((65 <=? n) && (n <=? 90))%nat then Some (Z.of_nat (n - 55))
  else None.

(** Where a run of digits stands: nothing read yet, just after a base
    prefix, after a digit, after an underscore. *)
Inductive digit_state : Type := DStart | DPrefix | DDigit | DUnderscore.

(** The value of a run of digits in [base]; one underscore may stand
    between two digits, or between a base prefix and a digit. *)
Fixpoint digits_value (base : Z) (acc : Z) (st : digit_state) (s : pystr)
  : option Z :=
  match s with
  | [] => match st with DDigit => Some acc | _ => None end
  | c :: s' =>
      if ascii_eqb c (ascii_of_nat 95)
      then match st with
           | DDigit | DPrefix => digits_value base acc DUnderscore s'
           | _ => None
           end
      else match digit_value c with
           | Some d =>
               if (d <? base)%Z
               then digits_value base (acc * base + d)%Z DDigit s'
               else None
           | None => None
           end
  end.

(** The base prefix [0x], [0o] or [0b], in either case, that [s] starts
    with. *)
Definition base_prefix (s : pystr) : option (Z * pystr) :=
  match s with
  | z :: c :: rest =>
      if ascii_eqb z (ascii_of_nat 48) then
        let n := nat_of_ascii c in
        if ((n =? 120) || (n =? 88))%nat then Some (16%Z, rest)
        else if ((n =? 111) || (n =? 79))%nat then Some (8%Z, rest)
        else if ((n =? 98) || (n =? 66))%nat then Some (2%Z, rest)
        else None
      else None
  | _ => None
  end.

(** [int(s, base)] for base 0 and the bases 2 to 36: blanks around the
    literal, a sign, the prefix of the base, digits.  In base 0 the prefix
    chooses the base, and a literal without prefix that starts with 0 must
    be zero. *)
Definition py_int (base : Z) (s : pystr) : result Z :=
  let s := strip whitespace s in
  let '(sign, s) :=
    match s with
    | c :: s' =>
        if ascii_eqb c (ascii_of_nat 45) then ((-1)%Z, s')
        else if ascii_eqb c (ascii_of_nat 43) then (1%Z, s')
        else (1%Z, s)
    | [] => (1%Z, s)
    end in
  let value :=
    match base_prefix s with
    | Some (b, rest) =>
        if ((base =? 0) || (base =? b))%Z then digits_value b 0 DPrefix rest
        else digits_value base 0 DStart s
    | None =>
        if (base =? 0)%Z
        then match digits_value 10 0 DStart s with
             | Some v =>
                 if startswith (str "0") s && negb (v =? 0)%Z
                 then None else Some v
             | None => None
             end
        else digits_value base 0 DStart s
    end in
  match value with
  | Some v => Ok (sign * v)%Z
  | None => Raise ValueError
  end.

(** ** [fdt/misc.py], modelled from the spec *)

Definition LF : ascii := ascii_of_nat 10.
Definition DQUOTE : ascii := ascii_of_nat 34.

(** Modelled from the spec: [extract_string(data, pos)] of [fdt/misc.py]
    (DTB parser: read the NUL-terminated name at the position). *)
Fixpoint c_string (bs : list byte) : pystr :=
  match bs with
  | [] => []
  | b :: bs' =>
      if (Z_of_byte b =? 0)%Z then [] else ascii_of_byte b :: c_string bs'
  end.

Definition extract_string_spec (data : list byte) (pos : Z) : result pystr :=
  if ((pos <? 0) || (len data <? pos))%Z then Raise BaseError
  else Ok (c_string (drop (Z.to_nat pos) data)).

(** Where the scanner of comments is. *)
Inductive scan_mode : Type := InCode | InString | InLineComment | InBlockComment.

(** Modelled from the spec: [strip_comments(text)] of [fdt/misc.py] (DTS
    parser: strip the comments from two slashes to the end of the line and
    the comments between slash-star and star-slash, but not inside string
    literals).  [skip] is set when the second character of a two-character
    mark is still to be passed. *)
Fixpoint strip_comments_from (mode : scan_mode) (skip : bool) (s : pystr)
  : pystr :=
  match s with
  | [] => []
  | c :: s' =>
      if skip then strip_comments_from mode false s' else
      match mode with
      | InCode =>
          if startswith (str "//") s then strip_comments_from InLineComment true s'
          else if startswith (str "/*") s then strip_comments_from InBlockComment true s'
          else if ascii_eqb c DQUOTE then c :: strip_comments_from InString false s'
          else c :: strip_comments_from InCode false s'
      | InString =>
          c :: strip_comments_from (if ascii_eqb c DQUOTE then InCode else InString) false s'
      | InLineComment =>
          if ascii_eqb c LF then c :: strip_comments_from InCode false s'
          else strip_comments_from InLineComment false s'
      | InBlockComment =>
          if startswith (str "*/") s then strip_comments_from InCode true s'
          else strip_comments_from InBlockComment false s'
      end
  end.

Definition strip_comments_spec (text : pystr) : pystr :=
  strip_comments_from InCode false text.

(** The value of the hint [// key: N] when a line of the text is one. *)
Definition hint (key : pystr) (lines : list pystr) : option Z :=
  let mark := str "// " ++ key ++ str ":" in
  match filter (fun l => startswith mark l = true) (map (strip whitespace) lines) with
  | l :: _ =>
      match py_int 0 (drop (length mark) l) with
      | Ok v => Some v
      | Raise _ => None
      end
  | [] => None
  end.

(** Modelled from the spec: [get_version_info(text)] of [fdt/misc.py] (DTS
    parser: the hints [// version: N], [// last_comp_version: N] and
    [// boot_cpuid_phys: 0xN], written as comments). *)
Definition get_version_info_spec (text : pystr) : VersionInfo :=
  let lines := split [LF] text in
  mkVersionInfo (hint (str "version") lines)
    (hint (str "last_comp_version") lines)
    (hint (str "boot_cpuid_phys") lines).

(** The pieces of a text cut after each opening brace and at each
    semicolon, outside string literals. *)
Fixpoint logical_lines (in_string : bool) (cur : pystr) (s : pystr)
  : list pystr :=
  match s with
  | [] => [rev cur]
  | c :: s' =>
      if ascii_eqb c DQUOTE then logical_lines (negb in_string) (c :: cur) s'
      else if in_string then logical_lines in_string (c :: cur) s'
      else if ascii_eqb c (ascii_of_nat 59) then rev cur :: logical_lines false [] s'
      else if ascii_eqb c (ascii_of_nat 123) then rev (c :: cur) :: logical_lines false [] s'
      else logical_lines in_string (c :: cur) s'
  end.

(** Modelled from the spec: [split_to_lines(text)] of [fdt/misc.py] (DTS
    parser: logical lines, each a node opener ending with the brace, a node
    closer, or a property statement, which ends at its semicolon). *)
Definition split_to_lines_spec (text : pystr) : list pystr :=
  filter (fun l => l <> []) (map (strip whitespace) (logical_lines false [] text)).

Global Instance MiscPy_spec : MiscPy := {|
  extract_string := extract_string_spec;
  get_version_info := get_version_info_spec;
  strip_comments := strip_comments_spec;
  split_to_lines := split_to_lines_spec
|}.

(** ** [parse_dts] *)

(** The files [parse_dts] can read for [/incbin/]: the content of each
    path that exists. *)
Definition FileSystem : Type := pystr -> option (list byte).

(** [os.path.join(a, b)] and [os.path.split(p)[1]], for POSIX paths. *)
Definition os_path_join (a b : pystr) : pystr :=
  if startswith (str "/") b then b
  else if bool_decide (a = []) || endswith (str "/") a then a ++ b
  else a ++ str "/" ++ b.

Definition os_path_basename (p : pystr) : pystr :=
  default [] (last (split (str "/") p)).

(** The [/memreserve/] statement of the first loop of [parse_dts]. *)
Definition memreserve_entry (line : pystr) : result Entry :=
  match split_ws (strip (str ";") line) with
  | [_; a; s] =>
      a' ← py_int 0 a;
      s' ← py_int 0 s;
      Ok (mkEntry a' s')
  | _ => Raise BaseError
  end.

(** The first loop of [parse_dts], up to the first node opener. *)
Fixpoint parse_dts_entries (lines : list pystr) (acc : list Entry)
  : result (list Entry) :=
  match lines with
  | [] => Ok acc
  | line :: rest =>
      if endswith (str "{") line then Ok acc
      else if startswith (str "/memreserve/") line then
        e ← memreserve_entry line;
        parse_dts_entries rest (acc ++ [e])
      else parse_dts_entries rest acc
  end.

(** The cells between angle brackets. *)
Fixpoint parse_words (toks : list pystr) : result (list Z) :=
  match toks with
  | [] => Ok []
  | prop :: rest =>
      v ← (if startswith (str "0x") prop then py_int 16 prop
           else if startswith (str "0b") prop then py_int 2 prop
           else if startswith (str "0") prop then py_int 8 prop
           else py_int 10 prop);
      vs ← parse_words rest;
      Ok (v :: vs)
  end.

(** The bytes between square brackets. *)
Fixpoint parse_bytes (toks : list pystr) : result (list Z) :=
  match toks with
  | [] => Ok []
  | prop :: rest =>
      v ← py_int 16 prop;
      vs ← parse_bytes rest;
      Ok (v :: vs)
  end.

(** The [/incbin/] branch.  With more than the path between the
    parentheses, [prop_value.strip()] is called on the list of the parts
    and raises. *)
Definition parse_incbin (fs : FileSystem) (root_dir prop_name prop_value : pystr)
  : result Property :=
  let prop_value :=
    replace (DQUOTE :: str ")") []
      (replace (str "/incbin/(" ++ [DQUOTE]) [] prop_value) in
  let parts := split (str ",") prop_value in
  let file_path := os_path_join root_dir (strip whitespace (default [] (head parts))) in
  if (1 <? length parts)%nat then Raise AttributeError else
  match fs file_path with
  | None => Raise BaseError
  | Some prop_data =>
      Ok (PropIncBin prop_name (map Z_of_byte prop_data)
            (os_path_basename file_path))
  end.

(** The property statement of the second loop: the [else] branch up to
    [prop_obj]. *)
Definition parse_dts_property (fs : FileSystem) (root_dir line : pystr)
  : result Property :=
  match partition (ascii_of_nat 61) line with
  | None => Ok (PropEmpty line)
  | Some (l0, l1) =>
      let prop_name := rstrip (str " ") l0 in
      let prop_value := lstrip (str " ") l1 in
      if startswith (str "<") prop_value then
        ws ← parse_words
               (split_ws (replace (str ">") [] (replace (str "<") [] prop_value)));
        Ok (PropWords prop_name ws)
      else if startswith (str "[") prop_value then
        bs ← parse_bytes
               (split_ws (replace (str "]") [] (replace (str "[") [] prop_value)));
        Ok (PropBytes prop_name bs)
      else if startswith (str "/incbin/") prop_value then
        parse_incbin fs root_dir prop_name prop_value
      else if startswith (str "/plugin/") prop_value then
        Raise NotImplementedError
      else if startswith (str "/bits/") prop_value then
        Raise NotImplementedError
      else
        Ok (PropStrings prop_name
              (map (fun prop => strip whitespace (replace [DQUOTE] [] prop))
                 (split (DQUOTE :: str ",") prop_value)))
  end.

(** One round of the second loop. *)
Definition parse_dts_line (fs : FileSystem) (root_dir : pystr) (b : builder)
    (line : pystr) : result builder :=
  if endswith (str "{") line then
    match split_ws line with
    | node_name :: _ => Ok (builder_begin b node_name)
    | [] => Raise IndexError
    end
  else if endswith (str "}") line then Ok (builder_end b)
  else
    prop_obj ← parse_dts_property fs root_dir line;
    if has_current b then builder_prop b prop_obj else Ok b.

(** The second loop of [parse_dts]. *)
Fixpoint parse_dts_nodes (fs : FileSystem) (root_dir : pystr)
    (lines : list pystr) (b : builder) : result builder :=
  match lines with
  | [] => Ok b
  | line :: rest =>
      b' ← parse_dts_line fs root_dir b line;
      parse_dts_nodes fs root_dir rest b'
  end.

(** The header of [FDT()] after the three assignments of the hints the
    text has: the version through its setter, then the other two; and the
    exception when the setter raises. *)
Definition hinted_header `{HeadVersionPy} (ver : VersionInfo)
  : Header * option exn :=
  to_dtb_header Header_new (vi_version ver) (vi_last_comp_version ver)
    (vi_boot_cpuid_phys ver).

(** The logical lines [parse_dts] works on. *)
Definition dts_lines `{MiscPy} (text : pystr) : list pystr :=
  split_to_lines (strip_comments text).

(** [parse_dts(text, root_dir)], reading files from [fs]. *)
Definition parse_dts `{HeadVersionPy} `{MiscPy} (fs : FileSystem)
    (text root_dir : pystr) : result FDT :=
  let ver := get_version_info text in
  let lines := dts_lines text in
  match hinted_header ver with
  | (_, Some e) => Raise e
  | (h, None) =>
      es ← parse_dts_entries lines [];
      b ← parse_dts_nodes fs root_dir lines builder_init;
      Ok (mkFDT h es (b_root b))
  end.

(** A line of the second loop that is a property statement whose value
    starts with [/plugin/] or [/bits/]. *)
Definition unsupported_statement (line : pystr) : bool :=
  negb (endswith (str "{") line) && negb (endswith (str "}") line) &&
  match partition (ascii_of_nat 61) line with
  | None => false
  | Some (_, l1) =>
      startswith (str "/plugin/") (lstrip (str " ") l1)
      || startswith (str "/bits/") (lstrip (str " ") l1)
  end.

(** No file exists. *)
Definition no_files : FileSystem := fun _ => None.

(** The [/memreserve/] statements among the lines. *)
Definition memreserve_lines (lines : list pystr) : list pystr :=
  filter (fun l => startswith (str "/memreserve/") l = true) lines.

(** In a text without node opener, the lines the second loop reads as
    property statements. *)
Definition property_lines (lines : list pystr) : list pystr :=
  filter (fun l => endswith (str "}") l = false) lines.

(** ** [FDT.add_item] and [diff] *)

(** [self.add_item(obj, path, create)]:
    [self.get_node(path, create).append(obj)]. *)
Definition add_item (fdt : FDT) (obj : Item) (path : pystr) (create : bool)
  : result FDT :=
  '(fdt', node) ← get_node fdt path create;
  match root_node fdt', node with
  | Some root, Some pos =>
      root' ← update_at_M (fun n => Node_append n obj) root pos;
      Ok (set_root fdt' (Some root'))
  | _, _ => Raise AttributeError
  end.

(** A loop with a state, stopped by the first exception. *)
Fixpoint foldM {A S : Type} (f : S -> A -> result S) (s : S) (l : list A)
  : result S :=
  match l with
  | [] => Ok s
  | x :: l' => s' ← f s x; foldM f s' l'
  end.

(** [try: rnode = fdt.get_node(path)] / [except: rnode = None] *)
Definition try_get_node (fdt : FDT) (path : pystr) : option Node :=
  match get_node fdt path false, root_node fdt with
  | Ok (_, Some pos), Some root => node_at root pos
  | _, _ => None
  end.

(** The two entries are the same pair of address and size. *)
Definition entry_eqb (a b : Entry) : bool :=
  ((address a =? address b) && (size a =? size b))%Z.

(** The entries of [fdt_same]: those of [fdt1] that occur in [fdt2], when
    neither list is empty. *)
Definition diff_same_entries (es1 es2 : list Entry) : list Entry :=
  match es1, es2 with
  | _ :: _, _ :: _ => filter (fun a => existsb (entry_eqb a) es2 = true) es1
  | _, _ => []
  end.

(** The entries of [fdt_a] and of [fdt_b]: those that are not in
    [fdt_same]. *)
Definition diff_only_entries (es same : list Entry) : list Entry :=
  filter (fun a => existsb (entry_eqb a) same = false) es.

(** The header of [fdt_same]. *)
Definition diff_same_header (h1 h2 : Header) : Header :=
  match version h1, version h2 with
  | Some v1, Some v2 => if (v2 <? v1)%Z then h1 else h2
  | _, _ => h1
  end.

(** [rnode is None or rnode.get_subnode(name) is None] *)
Definition lacks_subnode (rnode : option Node) (nm : pystr) : bool :=
  match rnode with
  | None => true
  | Some r => bool_decide (Node_get_subnode r nm = None)
  end.

(** [rnode is not None and prop == rnode.get_property(prop.name)] *)
Definition has_equal_property (rnode : option Node) (p : Property) : bool :=
  match rnode with
  | None => false
  | Some r => bool_decide (Node_get_property r (prop_name p) = Some p)
  end.

(** One round of the loop over [fdt1.walk()]; the state is
    [(fdt_same, fdt_a)]. *)
Definition diff_step_a (fdt2 : FDT) (st : FDT * FDT) (t : walk_triple)
  : result (FDT * FDT) :=
  let '(path, nodes, props) := t in
  let rnode := try_get_node fdt2 path in
  st ← foldM (fun '(fdt_same, fdt_a) node_b =>
                let item := ItemNode (Node_new (name node_b)) in
                if lacks_subnode rnode (name node_b)
                then fdt_a' ← add_item fdt_a item path true; Ok (fdt_same, fdt_a')
                else fdt_same' ← add_item fdt_same item path true; Ok (fdt_same', fdt_a))
             st nodes;
  foldM (fun '(fdt_same, fdt_a) prop_a =>
           let item := ItemProp (Property_copy prop_a) in
           if has_equal_property rnode prop_a
           then fdt_same' ← add_item fdt_same item path true; Ok (fdt_same', fdt_a)
           else fdt_a' ← add_item fdt_a item path true; Ok (fdt_same, fdt_a'))
        st props.

(** One round of the loop over [fdt2.walk()]; the state is [fdt_b]. *)
Definition diff_step_b (fdt_same : FDT) (fdt_b : FDT) (t : walk_triple)
  : result FDT :=
  let '(path, nodes, props) := t in
  let rnode := try_get_node fdt_same path in
  fdt_b ← foldM (fun fdt_b node_b =>
                   if lacks_subnode rnode (name node_b)
                   then add_item fdt_b (ItemNode (Node_new (name node_b))) path true
                   else Ok fdt_b)
                fdt_b nodes;
  foldM (fun fdt_b prop_b =>
           if has_equal_property rnode prop_b
           then Ok fdt_b
           else add_item fdt_b (ItemProp (Property_copy prop_b)) path true)
        fdt_b props.

(** [diff(fdt1, fdt2)]: [(fdt_same, fdt_a, fdt_b)]. *)
Definition diff (fdt1 fdt2 : FDT) : result (FDT * FDT * FDT) :=
  let fdt_a := FDT_new (Some (header fdt1)) in
  let fdt_b := FDT_new (Some (header fdt2)) in
  let fdt_same := FDT_new (Some (diff_same_header (header fdt1) (header fdt2))) in
  let fdt_same :=
    set_entries fdt_same (diff_same_entries (entries fdt1) (entries fdt2)) in
  let fdt_a :=
    set_entries fdt_a (diff_only_entries (entries fdt1) (entries fdt_same)) in
  let fdt_b :=
    set_entries fdt_b (diff_only_entries (entries fdt2) (entries fdt_same)) in
  triples ← walk fdt1 [] false;
  '(fdt_same, fdt_a) ← foldM (diff_step_a fdt2) (fdt_same, fdt_a) triples;
  triples ← walk fdt2 [] false;
  fdt_b ← foldM (diff_step_b fdt_same) fdt_b triples;
  Ok (fdt_same, fdt_a, fdt_b).

(** The tree [FDT(header)]: a root and nothing else. *)
Definition empty_fdt (h : Header) : FDT := FDT_new (Some h).

(** *** Well-formed trees, to state what [diff] does on a tree and itself *)

Definition SLASH : ascii := ascii_of_nat 47.

(** A name that can be a component of a path: not empty, no slash. *)
Definition valid_name (s : pystr) : bool :=
  negb (bool_decide (s = [])) && negb (char_in SLASH s).

(** Below [n], at every node: the names of the children are valid and
    pairwise distinct, and the names of the properties are pairwise
    distinct. *)
Fixpoint wf_node (n : Node) : bool :=
  bool_decide (NoDup (map name (nodes n)))
  && bool_decide (NoDup (map prop_name (props n)))
  && forallb (fun c => valid_name (name c) && wf_node c) (nodes n).


(** Below [n], at every node: the names of the properties are pairwise
    distinct. *)
Fixpoint props_distinct (n : Node) : bool :=
  bool_decide (NoDup (map prop_name (props n)))
  && forallb props_distinct (nodes n).

(** The names on the way from [n] down to the node at [pos], without the
    name of [n]. *)
Fixpoint names_to (n : Node) (pos : position) : list pystr :=
  match pos with
  | [] => []
  | i :: pos' =>
      match nodes n !! i with
      | Some c => name c :: names_to c pos'
      | None => []
      end
  end.

(** The string has no two slashes in a row; with [prev] set it does not
    start with a slash either. *)
Fixpoint no_slash_pair (prev : bool) (s : pystr) : bool :=
  match s with
  | [] => true
  | c :: s' =>
      if ascii_eqb c SLASH then negb prev && no_slash_pair true s'
      else no_slash_pair false s'
  end.

(** The nodes of the tree below [n] in the order of [walk], each with the
    names that lead to it from [n]. *)
Fixpoint visits_children (f : Node -> list (list pystr * Node))
    (cs : list Node) : list (list pystr * Node) :=
  match cs with
  | [] => []
  | c :: cs' =>
      visits_children f cs' ++ map (fun v => (name c :: v.1, v.2)) (f c)
  end.

Fixpoint visits (n : Node) : list (list pystr * Node) :=
  ([], n) :: visits_children visits (nodes n).

(** What [get_node(path, create=True)] followed by a change [f] of the
    node it returns makes of the tree below [s], for the names of
    [path]. *)
Definition at_names (ns : list pystr) (f : Node -> Node) (s : Node) : Node :=
  match get_node_from true ns s with
  | Ok (s', pos) => update_at f s' pos
  | Raise _ => s
  end.

(** What [diff] adds for a node [m] that is the same in both trees: a new
    node for each child, then the properties. *)
Definition same_items (m : Node) : list Item :=
  map (fun c => ItemNode (Node_new (name c))) (nodes m)
  ++ map (fun p => ItemProp (Property_copy p)) (props m).

(** The round of the first loop of [diff] for the node [v.2] reached by
    the names [v.1], as a change of the root of [fdt_same]. *)
Definition same_step (s : Node) (v : list pystr * Node) : Node :=
  foldl (fun s item => at_names v.1 (fun x => Node_with x item) s)
    s (same_items v.2).

(** The triple [t] that [walk] yields belongs to the visit [v]: its path
    reads as the names of [v], which lead [get_node] to the node of [v],
    and it holds the children and the properties of that node. *)
Definition triple_of (root : Node) (t : walk_triple) (v : list pystr * Node)
  : Prop :=
  path_names t.1.1 = v.1 /\ t.1.2 = nodes v.2 /\ t.2 = props v.2 /\
  exists pos, get_node_from false v.1 root = Ok (root, pos) /\
              node_at root pos = Some v.2.


(** ** The lookups of [FDT]: [exist_node], [get_property], [exist_property] *)

(** [self.exist_node(path)]: whether [get_node(path)] returns; whatever it
    raises is caught. *)
Definition exist_node (fdt : FDT) (path : pystr) : bool :=
  is_ok (get_node fdt path false).

(** The node a reference stands for; a method called on None raises
    [AttributeError]. *)
Definition deref (fdt : FDT) (node : option position) : result Node :=
  match root_node fdt, node with
  | Some root, Some pos =>
      match node_at root pos with
      | Some n => Ok n
      | None => Raise AttributeError
      end
  | _, _ => Raise AttributeError
  end.

(** [self.get_property(name, path)]:
    [self.get_node(path).get_property(name)]; [Ok None] is the return of
    None for a node without such a property. *)
Definition get_property (fdt : FDT) (nm path : pystr) : result (option Property) :=
  '(fdt', node) ← get_node fdt path false;
  n ← deref fdt' node;
  Ok (Node_get_property n nm).

(** [self.exist_property(name, path)]:
    [self.get_node(path).exist_property(name) if self.exist_node(path) else False].
    [Node.exist_property] lives in [fdt/item.py] and is a parameter
    here. *)
Definition exist_property (Node_exist_property : Node -> pystr -> bool)
    (fdt : FDT) (nm path : pystr) : result bool :=
  if exist_node fdt path
  then '(fdt', node) ← get_node fdt path false;
       n ← deref fdt' node;
       Ok (Node_exist_property n nm)
  else Ok false.

(** ** [FDT.search] *)

(** The class [ItemType]. *)
Definition ItemType_NODE : Z := 0.
Definition ItemType_PROP : Z := 1.
Definition ItemType_BOTH : Z := 3.

(** What [search] collects: a node, by its reference, or a property of the
    node at a reference. *)
Inductive found : Type :=
| FoundNode (pos : position)
| FoundProp (pos : position) (p : Property).

(** One round of the loop of [search], up to the test of the stack: the
    items the node at [pos] adds. *)
Definition search_node (root : Node) (nm : pystr) (itype : Z) (pos : position)
  : list found :=
  match node_at root pos with
  | None => []
  | Some n =>
      (if ((itype =? ItemType_NODE) || (itype =? ItemType_BOTH))%Z
       then if bool_decide (name n = nm) then [FoundNode pos] else []
       else [])
      ++
      (if ((itype =? ItemType_PROP) || (itype =? ItemType_BOTH))%Z
       then map (FoundProp pos) (filter (fun p => prop_name p = nm) (props n))
       else [])
  end.

(** The loop of [search]: [node] is the node looked at, [nodes] the stack,
    [items] what was collected so far; [None] when [fuel] rounds were not
    enough to empty the stack. *)
Fixpoint search_loop (fuel : nat) (root : Node) (nm : pystr) (itype : Z)
    (node : position) (nodes : list position) (items : list found)
  : option (list found) :=
  match fuel with
  | O => None
  | S fuel' =>
      let nodes := nodes ++ children_refs root node in
      let items := items ++ search_node root nm itype node in
      match pop nodes with
      | None => Some items
      | Some (nodes', next) => search_loop fuel' root nm itype next nodes' items
      end
  end.

(** [self.search(name, itype, path)].  The fuel is the size of the tree,
    which is enough ([search_loop_enough]). *)
Definition search (fdt : FDT) (nm : pystr) (itype : Z) (path : pystr)
  : result (list found) :=
  '(_, start) ← get_node fdt path false;
  match root_node fdt, start with
  | Some root, Some pos =>
      match search_loop (node_count root) root nm itype pos [] [] with
      | Some items => Ok items
      | None => Raise OutOfFuel
      end
  | _, _ => Raise AttributeError
  end.

(** The nodes of the subtree at [pos] named [nm], and the properties
    named [nm] of its nodes, in the order [search] meets them. *)
Definition search_result (root : Node) (nm : pystr) (itype : Z) (pos : position)
  : list found :=
  concat (map (search_node root nm itype) (sub_walk root pos)).

(** Each step of the way to [pos] takes the first child of its name. *)
Fixpoint first_named (n : Node) (pos : position) : Prop :=
  match pos with
  | [] => True
  | i :: pos' =>
      match nodes n !! i with
      | Some c =>
          (forall j d, nodes n !! j = Some d -> (j < i)%nat -> name d <> name c)
          /\ first_named c pos'
      | None => False
      end
  end.

(** An entry that [pack('>QQ', address, size)] takes. *)
Definition entry_fits (e : Entry) : Prop :=
  (0 <= address e < 2 ^ 64)%Z /\ (0 <= size e < 2 ^ 64)%Z.

(** The root node [r] of the tree under construction is closed: the
    current node is None or a node of a tree that is attached to
    nothing. *)
Definition root_closed (b : builder) (r : Node) : Prop :=
  b_root b = Some r /\
  match b_cur b with
  | InRoot _ => False
  | AtNone | Detached _ _ => True
  end.

(** A structure block with two top-level nodes, [/] and [x], both
    empty. *)
Definition two_nodes_struct : list byte :=
  Eval vm_compute in
    match Node_to_dtb_spec (Node_new (str "/")) [] 0 17,
          Node_to_dtb_spec (Node_new (str "x")) [] 0 17,
          pack_be 4 DTB_END with
    | Ok (first, _, _), Ok (second, _, _), Ok end_tag => first ++ second ++ end_tag
    | _, _, _ => []
    end.

(** The tree under construction has a root node, named [nm]. *)
Definition root_named (b : builder) (nm : pystr) : Prop :=
  exists r, b_root b = Some r /\ name r = nm.

Definition COMMA : ascii := ascii_of_nat 44.

(** A line of the second loop of [parse_dts] that is a property statement
    whose value starts with [/incbin/] and has a comma: a file with an
    offset, or with an offset and a size. *)
Definition incbin_with_offset (line : pystr) : bool :=
  negb (endswith (str "{") line) && negb (endswith (str "}") line) &&
  match partition (ascii_of_nat 61) line with
  | None => false
  | Some (_, l1) =>
      startswith (str "/incbin/") (lstrip (str " ") l1)
      && char_in COMMA (lstrip (str " ") l1)
  end.

(** ** [FDT.to_dts] *)

(** The digit [d] as a character, in lower or upper case. *)
Definition digit_char (upper : bool) (d : Z) : ascii :=
  ascii_of_nat
    (Z.to_nat (if (d <? 10)%Z then 48 + d
               else if upper then 55 + d else 87 + d)).

(** The digits of [n] in [base], before [acc]; [fuel] bounds their
    number. *)
Fixpoint digits_from (fuel : nat) (base : Z) (upper : bool) (n : Z)
    (acc : pystr) : pystr :=
  match fuel with
  | O => acc
  | S fuel' =>
      let acc := digit_char upper (n mod base) :: acc in
      if (n <? base)%Z then acc
      else digits_from fuel' base upper (n / base) acc
  end.

(** The digits of a number that is not negative: it has at most
    [log2 n + 1] of them. *)
Definition digits (base : Z) (upper : bool) (n : Z) : pystr :=
  digits_from (S (Z.to_nat (Z.log2 n))) base upper n [].

(** The sign that the format specifications used here write. *)
Definition sign_of (n : Z) : pystr := if (n <? 0)%Z then str "-" else [].

(** ["{}".format(n)], ["{:#x}".format(n)] and ["{:X}".format(n)] for an
    integer. *)
Definition format_d (n : Z) : pystr := sign_of n ++ digits 10 false (Z.abs n).

Definition format_hash_x (n : Z) : pystr :=
  sign_of n ++ str "0x" ++ digits 16 false (Z.abs n).

Definition format_X (n : Z) : pystr := sign_of n ++ digits 16 true (Z.abs n).

(** One round of the loop over [self.entries]: the [/memreserve/] line of
    an entry, where a zero is written as a plain 0. *)
Definition to_dts_entry (e : Entry) : pystr :=
  str "/memreserve/ "
  ++ (if (address e =? 0)%Z then str "0 " else format_hash_x (address e) ++ str " ")
  ++ (if (size e =? 0)%Z then str "0" else format_hash_x (size e))
  ++ str ";" ++ [LF].

(** The lines before the reservation entries: the tag of the format and,
    when the header has a version, the hints. *)
Definition to_dts_head (h : Header) : pystr :=
  str "/dts-v1/;" ++ [LF]
  ++ match version h with
     | None => []
     | Some v =>
         str "// version: " ++ format_d v ++ [LF]
         ++ str "// last_comp_version: " ++ format_d (last_comp_version h) ++ [LF]
         ++ (if (2 <=? v)%Z
             then str "// boot_cpuid_phys: 0x" ++ format_X (boot_cpuid_phys h) ++ [LF]
             else [])
     end
  ++ [LF].

(** [fdt/item.py]: [node.to_dts(tabsize)]. *)
Class ItemDtsPy : Type := {
  Node_to_dts : Node -> Z -> result pystr
}.

(** [self.to_dts(tabsize)] *)
Definition to_dts `{ItemDtsPy} (self : FDT) (tabsize : Z) : result pystr :=
  let result := to_dts_head (header self)
                ++ concat (map to_dts_entry (entries self)) in
  match root_node self with
  | Some root => s ← Node_to_dts root tabsize; Ok (result ++ s)
  | None => Ok result
  end.

(** The statement a line of text holds: the line without the blanks
    around it. *)
Definition statement_of (line : pystr) : pystr := strip whitespace line.

(** The digits of a number, as numbers, the last one first. *)
Definition is_digit (base d : Z) : Prop := (0 <= d < base)%Z.

(** A word of a statement: not empty, without blank and semicolon. *)
Definition is_word (s : pystr) : Prop :=
  s <> [] /\
  Forall (fun c => char_in c whitespace = false /\ char_in c (str ";") = false) s.
(** * Theorems *)

(** ** Python strings *)

Example split_path_example :
  split (str "/") (str "cpus/cpu@0//x") =
  [str "cpus"; str "cpu@0"; str ""; str "x"].
Proof. reflexivity. Qed.

Example split_two_char_example :
  split (str ",;") (str "a,;b,c,;") = [str "a"; str "b,c"; str ""].
Proof. reflexivity. Qed.

Example replace_example :
  replace (str "//") (str "/") (str "///a//b/") = str "//a/b/".
Proof. reflexivity. Qed.

Example split_ws_example :
  split_ws (str "  /memreserve/   0x10 32 ") =
  [str "/memreserve/"; str "0x10"; str "32"].
Proof. reflexivity. Qed.

(** Induction over a node and all its descendants. *)
Lemma Node_ind' (P : Node -> Prop) :
  (forall nm ps cs, Forall P cs -> P (mkNode nm ps cs)) ->
  forall n, P n.
Proof.
  intros step.
  fix IH 1.
  intros [nm ps cs]. apply step.
  induction cs as [|c cs IHcs]; constructor; [apply IH | exact IHcs].
Qed.

(** *** Properties of [get_node] *)

Lemma node_at_set_child n i c pos :
  i < length (nodes n) ->
  node_at (set_child n i c) (i :: pos) = node_at c pos.
Proof.
  intros Hi. simpl. rewrite list_lookup_insert_eq by lia. reflexivity.
Qed.

Lemma node_at_append n c pos :
  node_at (Node_append_node n c) (length (nodes n) :: pos) = node_at c pos.
Proof.
  simpl. rewrite lookup_app_r by lia.
  replace (length (nodes n) - length (nodes n))%nat with 0%nat by lia.
  reflexivity.
Qed.

Lemma get_subnode_Some n nm i c :
  Node_get_subnode n nm = Some (i, c) ->
  nodes n !! i = Some c /\ name c = nm /\
  forall j d, nodes n !! j = Some d -> j < i -> name d <> nm.
Proof. unfold Node_get_subnode. intros H. apply list_find_Some in H. exact H. Qed.

Lemma get_subnode_None n nm :
  Node_get_subnode n nm = None -> Forall (fun c => name c <> nm) (nodes n).
Proof. unfold Node_get_subnode. intros H. apply list_find_None in H. exact H. Qed.

(** With [create] set the loop never raises. *)
Lemma get_node_from_create_ok names n :
  exists n' pos, get_node_from true names n = Ok (n', pos).
Proof.
  revert n. induction names as [|nm names IH]; intros n; simpl.
  - eauto.
  - destruct (Node_get_subnode n nm) as [[i item]|].
    + destruct (IH item) as (c' & pos & ->). simpl. eauto.
    + destruct (IH (Node_new nm)) as (c' & pos & ->). simpl. eauto.
Qed.

(** The loop keeps the name and the properties of the node it starts at. *)
Lemma get_node_from_name create names n n' pos :
  get_node_from create names n = Ok (n', pos) ->
  name n' = name n /\ props n' = props n /\
  length (nodes n) <= length (nodes n').
Proof.
  destruct names as [|nm names]; simpl.
  - intros [= <- <-]. auto.
  - destruct (Node_get_subnode n nm) as [[i item]|].
    + destruct (get_node_from create names item) as [[c' q]|]; simpl; [|discriminate].
      intros [= <- <-]. simpl. rewrite length_insert. auto.
    + destruct create; [|discriminate].
      destruct (get_node_from true names (Node_new nm)) as [[c' q]|]; simpl; [|discriminate].
      intros [= <- <-]. simpl. rewrite length_app. simpl. split; [|split]; auto; lia.
Qed.

(** Without [create] the loop changes nothing, and it ends at a node that
    the names resolve to. *)
Lemma get_node_from_lookup names n n' pos :
  get_node_from false names n = Ok (n', pos) ->
  n' = n /\ is_Some (node_at n pos) /\ names_resolve n names.
Proof.
  revert n n' pos. induction names as [|nm names IH]; intros n n' pos; simpl.
  - intros [= <- <-]. split; [|split]; eauto using resolve_here.
  - destruct (Node_get_subnode n nm) as [[i item]|] eqn:Hsub; [|discriminate].
    destruct (get_node_from false names item) as [[c' q]|] eqn:Hrec; simpl; [|discriminate].
    intros [= <- <-].
    apply get_subnode_Some in Hsub as (Hi & Hnm & _).
    apply IH in Hrec as (-> & Hat & Hres).
    split; [|split].
    + unfold set_child. rewrite list_insert_id by exact Hi. destruct n; reflexivity.
    + simpl. rewrite Hi. exact Hat.
    + eapply resolve_child; eauto. eapply list_elem_of_lookup_2; eauto.
Qed.

(** The only exception of the loop is the [ValueError] of a missing name. *)
Lemma get_node_from_exn create names n e :
  get_node_from create names n = Raise e -> e = ValueError.
Proof.
  revert n. induction names as [|nm names IH]; intros n; simpl; [discriminate|].
  destruct (Node_get_subnode n nm) as [[i item]|].
  - destruct (get_node_from create names item) as [[c' q]|] eqn:Hrec; simpl; [discriminate|].
    intros [= <-]. eauto.
  - destruct create; [|congruence].
    destruct (get_node_from true names (Node_new nm)) as [[c' q]|] eqn:Hrec; simpl; [discriminate|].
    intros [= <-]. eauto.
Qed.

Lemma get_node_from_missing names n :
  ~ names_resolve n names -> get_node_from false names n = Raise ValueError.
Proof.
  intros Hno. destruct (get_node_from false names n) as [[n' pos]|e] eqn:H.
  - apply get_node_from_lookup in H as (_ & _ & Hres). contradiction.
  - apply get_node_from_exn in H. congruence.
Qed.

(** After a run with [create], the same names are found without it, and
    lead to the node that run returned. *)
Lemma get_node_from_created names n n' pos :
  get_node_from true names n = Ok (n', pos) ->
  get_node_from false names n' = Ok (n', pos).
Proof.
  revert n n' pos. induction names as [|nm names IH]; intros n n' pos; simpl.
  - intros [= <- <-]. reflexivity.
  - destruct (Node_get_subnode n nm) as [[i item]|] eqn:Hsub.
    + destruct (get_node_from true names item) as [[c' q]|] eqn:Hrec; simpl; [|discriminate].
      intros [= <- <-].
      pose proof (get_node_from_name _ _ _ _ _ Hrec) as (Hname & _ & _).
      apply get_subnode_Some in Hsub as (Hi & Hnm & Hfirst).
      assert (Hlt : i < length (nodes n)) by (eapply lookup_lt_Some; eauto).
      assert (Hfind : Node_get_subnode (set_child n i c') nm = Some (i, c')).
      { unfold Node_get_subnode. apply list_find_Some. simpl.
        split; [|split].
        - apply list_lookup_insert_eq. exact Hlt.
        - congruence.
        - intros j d Hj Hji. rewrite list_lookup_insert_ne in Hj by lia. eauto. }
      rewrite Hfind. rewrite (IH _ _ _ Hrec). simpl.
      unfold set_child. simpl. rewrite list_insert_insert_eq. reflexivity.
    + destruct (get_node_from true names (Node_new nm)) as [[c' q]|] eqn:Hrec; simpl; [|discriminate].
      intros [= <- <-].
      pose proof (get_node_from_name _ _ _ _ _ Hrec) as (Hname & _ & _).
      apply get_subnode_None in Hsub.
      assert (Hfind : Node_get_subnode (Node_append_node n c') nm
                      = Some (length (nodes n), c')).
      { unfold Node_get_subnode. apply list_find_Some. simpl.
        split; [|split].
        - rewrite lookup_app_r by lia.
          replace (length (nodes n) - length (nodes n))%nat with 0%nat by lia.
          reflexivity.
        - exact Hname.
        - intros j d Hj Hji. rewrite lookup_app_l in Hj by lia.
          eapply Forall_lookup_1 in Hsub; eauto. }
      rewrite Hfind. rewrite (IH _ _ _ Hrec). simpl.
      unfold set_child, Node_append_node. simpl.
      rewrite insert_app_r_alt by lia.
      replace (length (nodes n) - length (nodes n))%nat with 0%nat by lia.
      reflexivity.
Qed.

(** Started at a new node, the loop with [create] builds a chain of new
    nodes and ends at the last of them. *)
Lemma get_node_from_fresh names nm n' pos :
  get_node_from true names (Node_new nm) = Ok (n', pos) ->
  node_at n' pos = Some (Node_new (default nm (last names))).
Proof.
  revert nm n' pos. induction names as [|x names IH]; intros nm n' pos; simpl.
  - intros [= <- <-]. reflexivity.
  - destruct (get_node_from true names (Node_new x)) as [[c' q]|] eqn:Hrec;
      simpl; [|discriminate].
    intros [= <- <-]. apply IH in Hrec. simpl node_at. rewrite Hrec.
    rewrite last_cons. destruct (last names); reflexivity.
Qed.

(** When the names do not resolve, the node the loop with [create] ends at
    is new, without properties or children, and has the last name. *)
Lemma get_node_from_final names n n' pos :
  ~ names_resolve n names ->
  get_node_from true names n = Ok (n', pos) ->
  node_at n' pos = Node_new <$> last names.
Proof.
  revert n n' pos. induction names as [|x names IH]; intros n n' pos Hno; simpl.
  - destruct Hno. constructor.
  - destruct (Node_get_subnode n x) as [[i item]|] eqn:Hsub.
    + destruct (get_node_from true names item) as [[c' q]|] eqn:Hrec;
        simpl; [|discriminate].
      intros [= <- <-].
      apply get_subnode_Some in Hsub as (Hi & Hnm & _).
      rewrite node_at_set_child by (eapply lookup_lt_Some; eauto).
      rewrite (IH item c' q); [|idtac|exact Hrec].
      * rewrite last_cons. destruct (last names) eqn:Hl; [reflexivity|].
        apply last_None in Hl as ->.
        destruct Hno. eapply resolve_child; eauto using resolve_here.
        eapply list_elem_of_lookup_2; eauto.
      * intros Hres. apply Hno. eapply resolve_child; eauto.
        eapply list_elem_of_lookup_2; eauto.
    + destruct (get_node_from true names (Node_new x)) as [[c' q]|] eqn:Hrec;
        simpl; [|discriminate].
      intros [= <- <-]. rewrite node_at_append.
      rewrite (get_node_from_fresh _ _ _ _ Hrec).
      rewrite last_cons. destruct (last names); reflexivity.
Qed.

Lemma names_resolve_take n names k :
  names_resolve n names -> names_resolve n (take k names).
Proof.
  intros H. revert k. induction H as [n|n c nm names Hc Hnm _ IH]; intros k.
  - rewrite take_nil. constructor.
  - destruct k as [|k]; simpl; [constructor|].
    eapply resolve_child; eauto.
Qed.

(** The loop keeps every node that was there: same position, same name,
    same properties, and no child is lost. *)
Lemma get_node_from_frame create names n n' pos :
  get_node_from create names n = Ok (n', pos) ->
  forall q m, node_at n q = Some m ->
    exists m', node_at n' q = Some m' /\ name m' = name m /\
               props m' = props m /\ length (nodes m) <= length (nodes m').
Proof.
  revert n n' pos. induction names as [|x names IH]; intros n n' pos Hrun q m Hq.
  - simpl in Hrun. injection Hrun as <- <-. eauto.
  - destruct q as [|j q].
    + simpl in Hq. injection Hq as <-.
      apply get_node_from_name in Hrun as (? & ? & ?). simpl. eauto.
    + simpl in Hrun, Hq.
      destruct (nodes n !! j) as [d|] eqn:Hj; [|discriminate].
      destruct (Node_get_subnode n x) as [[i item]|] eqn:Hsub.
      * destruct (get_node_from create names item) as [[c' p]|] eqn:Hrec;
          simpl in Hrun; [|discriminate].
        injection Hrun as <- <-.
        apply get_subnode_Some in Hsub as (Hi & _ & _).
        destruct (decide (i = j)) as [->|Hne].
        -- assert (d = item) as -> by congruence.
           destruct (IH _ _ _ Hrec q m Hq) as (m' & Hm' & ?).
           exists m'. split; [|assumption].
           simpl. rewrite list_lookup_insert_eq by (eapply lookup_lt_Some; eauto).
           exact Hm'.
        -- exists m. simpl. rewrite list_lookup_insert_ne by exact Hne.
           rewrite Hj. auto.
      * destruct create; [|discriminate].
        destruct (get_node_from true names (Node_new x)) as [[c' p]|] eqn:Hrec;
          simpl in Hrun; [|discriminate].
        injection Hrun as <- <-.
        exists m. simpl.
        rewrite lookup_app_l by (eapply lookup_lt_Some; eauto).
        rewrite Hj. auto.
Qed.

(** C5 as stated fails on a tree without a root node, which [parse_dts]
    returns for a text without a node: the loop calls [get_subnode] on
    None, and both calls raise [AttributeError]. *)
Lemma get_node_rootless_raises :
  root_node rootless_fdt = None /\
  get_node rootless_fdt (str "x") false = Raise AttributeError /\
  get_node rootless_fdt (str "x") true = Raise AttributeError.
Proof. repeat split. Qed.

(** C5, amended. On a tree with a root node, for a path that names no node of the
    tree: [get_node(path, create=False)] raises the [ValueError] that
    reports the missing path, and [get_node(path, create=True)] returns a
    node.  After that call the same path is found without [create] and
    names the returned node, every prefix of the path names a node (the
    intermediate nodes were created), the returned node is a new node named
    by the last component, and every node that existed is still at its
    position with its name and properties. *)
Theorem get_node_missing_path (fdt : FDT) (root : Node) (path : pystr) :
  root_node fdt = Some root ->
  ~ names_resolve root (path_names path) ->
  get_node fdt path false = Raise ValueError /\
  exists root' pos,
    get_node fdt path true = Ok (set_root fdt (Some root'), Some pos) /\
    get_node (set_root fdt (Some root')) path false
      = Ok (set_root fdt (Some root'), Some pos) /\
    (forall k, names_resolve root' (take k (path_names path))) /\
    node_at root' pos = Node_new <$> last (path_names path) /\
    (forall q m, node_at root q = Some m ->
       exists m', node_at root' q = Some m' /\ name m' = name m /\
                  props m' = props m /\ length (nodes m) <= length (nodes m')).
Proof.
  intros Hroot Hno. unfold get_node. rewrite Hroot. simpl.
  rewrite (get_node_from_missing _ _ Hno). split; [reflexivity|].
  destruct (get_node_from_create_ok (path_names path) root) as (root' & pos & Hrun).
  exists root', pos. rewrite Hrun. simpl.
  pose proof (get_node_from_created _ _ _ _ Hrun) as Hfound.
  rewrite Hfound. simpl.
  split; [reflexivity|]. split; [reflexivity|].
  split; [|split].
  - intros k. apply names_resolve_take.
    apply get_node_from_lookup in Hfound as (_ & _ & Hres). exact Hres.
  - eapply get_node_from_final; eauto.
  - eapply get_node_from_frame; eauto.
Qed.

(** The empty tree and the path [cpus/cpu@0]. *)
Lemma get_node_missing_path_witness :
  get_node (FDT_new None) (str "cpus/cpu@0") false = Raise ValueError /\
  exists root' pos,
    get_node (FDT_new None) (str "cpus/cpu@0") true
      = Ok (set_root (FDT_new None) (Some root'), Some pos) /\
    node_at root' pos = Some (Node_new (str "cpu@0")).
Proof.
  destruct (get_node_missing_path (FDT_new None) (Node_new (str "/"))
              (str "cpus/cpu@0") eq_refl) as (H1 & root' & pos & H2 & _ & _ & H4 & _).
  - intros H. inversion H as [|n c nm names Hc]. inversion Hc.
  - split; [exact H1|]. exists root', pos. split; [exact H2|exact H4].
Defined.

Example get_node_create_example :
  get_node (FDT_new None) (str "/cpus/cpu@0") true
  = Ok (mkFDT Header_new []
          (Some (mkNode (str "/") []
                   [mkNode (str "cpus") [] [Node_new (str "cpu@0")]])),
        Some [0; 0]%nat).
Proof. reflexivity. Qed.

(** ** [walk] *)

Lemma pop_snoc {A} (l : list A) x : pop (l ++ [x]) = Some (l, x).
Proof. unfold pop. rewrite rev_app_distr. simpl. rewrite rev_involutive. reflexivity. Qed.

Lemma pop_None {A} (l : list A) : pop l = None -> l = [].
Proof.
  destruct l as [|x l] using rev_ind; [reflexivity|].
  rewrite pop_snoc. discriminate.
Qed.

Lemma pop_Some {A} (l l' : list A) x : pop l = Some (l', x) -> l = l' ++ [x].
Proof.
  destruct l as [|y l _] using rev_ind; [discriminate|].
  rewrite pop_snoc. intros [= <- <-]. reflexivity.
Qed.

Lemma node_at_app root p q :
  node_at root (p ++ q) = node_at root p ≫= fun n => node_at n q.
Proof.
  revert root. induction p as [|i p IH]; intros root; simpl; [reflexivity|].
  destruct (nodes root !! i); [apply IH|reflexivity].
Qed.

Lemma node_at_snoc root p i n :
  node_at root p = Some n -> node_at root (p ++ [i]) = nodes n !! i.
Proof.
  intros H. rewrite node_at_app, H. simpl. destruct (nodes n !! i); reflexivity.
Qed.

Lemma preorder_rev_unfold n :
  preorder_rev n = [] :: preorder_children preorder_rev 0 (nodes n).
Proof. destruct n; reflexivity. Qed.

Lemma preorder_children_sub_walk root p cs i :
  (forall j c, cs !! j = Some c -> node_at root (p ++ [i + j]%nat) = Some c) ->
  map (app p) (preorder_children preorder_rev i cs)
  = concat (map (sub_walk root)
              (rev (map (fun j => p ++ [j]) (seq i (length cs))))).
Proof.
  revert i. induction cs as [|c cs IH]; intros i Hcs; simpl; [reflexivity|].
  rewrite map_app, map_app, concat_app. simpl. rewrite app_nil_r.
  rewrite (IH (S i)).
  - f_equal. unfold sub_walk.
    specialize (Hcs 0%nat c eq_refl). rewrite Nat.add_0_r in Hcs. rewrite Hcs.
    rewrite map_map. apply map_ext. intros q. rewrite <- app_assoc. reflexivity.
  - intros j d Hj. specialize (Hcs (S j) d Hj).
    replace (S i + j)%nat with (i + S j)%nat by lia. exact Hcs.
Qed.

(** The subtree at [p] is [p] followed by the subtrees of its children,
    the last child first. *)
Lemma sub_walk_unfold root p n :
  node_at root p = Some n ->
  sub_walk root p
  = p :: concat (map (sub_walk root) (rev (children_refs root p))).
Proof.
  intros Hp. unfold sub_walk at 1, children_refs. rewrite Hp.
  rewrite preorder_rev_unfold. simpl.
  rewrite app_nil_r. f_equal.
  apply preorder_children_sub_walk.
  intros j c Hj. rewrite (node_at_snoc _ _ _ _ Hp). exact Hj.
Qed.

Lemma children_refs_valid root p :
  Forall (fun q => is_Some (node_at root q)) (children_refs root p).
Proof.
  unfold children_refs. destruct (node_at root p) as [n|] eqn:Hp; [|constructor].
  apply Forall_map, Forall_forall. intros i Hi.
  apply elem_of_seq in Hi. simpl.
  rewrite (node_at_snoc _ _ _ _ Hp). apply lookup_lt_is_Some. lia.
Qed.

(** The loop of [walk] yields the subtree of the current node and then the
    subtrees of the nodes on the stack, top first; it needs one round of
    fuel per node. *)
Lemma walk_loop_todo root fuel node stack :
  is_Some (node_at root node) ->
  Forall (fun q => is_Some (node_at root q)) stack ->
  length (todo root node stack) <= fuel ->
  walk_loop fuel root node stack = Some (todo root node stack).
Proof.
  revert node stack. induction fuel as [|fuel IH]; intros node stack [n Hn] Hst Hlen.
  - unfold todo in Hlen. rewrite (sub_walk_unfold _ _ _ Hn) in Hlen.
    simpl in Hlen. lia.
  - assert (Hstep : todo root node stack
                    = node :: concat (map (sub_walk root)
                                        (rev (stack ++ children_refs root node)))).
    { unfold todo. rewrite (sub_walk_unfold _ _ _ Hn). simpl.
      rewrite rev_app_distr, map_app, concat_app. reflexivity. }
    simpl. destruct (pop (stack ++ children_refs root node)) as [[stack' next]|] eqn:Hpop.
    + apply pop_Some in Hpop.
      assert (Hvalid : Forall (fun q => is_Some (node_at root q)) (stack' ++ [next])).
      { rewrite <- Hpop. apply Forall_app. split; [exact Hst|apply children_refs_valid]. }
      apply Forall_app in Hvalid as [Hst' Hnext].
      rewrite Forall_singleton in Hnext.
      assert (Hnext_todo : todo root node stack = node :: todo root next stack').
      { rewrite Hstep, Hpop. unfold todo.
        rewrite rev_app_distr. simpl. reflexivity. }
      rewrite Hnext_todo in Hlen |- *. simpl in Hlen.
      rewrite IH; [reflexivity|exact Hnext|exact Hst'|lia].
    + apply pop_None in Hpop. rewrite Hstep, Hpop. reflexivity.
Qed.

Lemma preorder_children_length i cs :
  length (preorder_children preorder_rev i cs)
  = list_sum (map (fun c => length (preorder_rev c)) cs).
Proof.
  revert i. induction cs as [|c cs IH]; intros i; simpl; [reflexivity|].
  rewrite length_app, length_map, IH. lia.
Qed.

Lemma preorder_rev_length n : length (preorder_rev n) = node_count n.
Proof.
  induction n as [nm ps cs IH] using Node_ind'. simpl.
  rewrite preorder_children_length. f_equal. f_equal.
  induction IH as [|c cs Hc _ IHcs]; simpl; [reflexivity|].
  rewrite Hc, IHcs. reflexivity.
Qed.

Lemma node_count_child n i c :
  nodes n !! i = Some c -> (node_count c < node_count n)%nat.
Proof.
  destruct n as [nm ps cs]. simpl. revert i.
  induction cs as [|d cs IH]; intros i Hi; [discriminate|].
  destruct i as [|i]; simpl in *.
  - injection Hi as ->. lia.
  - specialize (IH i Hi). lia.
Qed.

Lemma node_count_at root p n :
  node_at root p = Some n -> (node_count n <= node_count root)%nat.
Proof.
  revert root. induction p as [|i p IH]; intros root; simpl.
  - intros [= ->]. lia.
  - destruct (nodes root !! i) as [c|] eqn:Hi; [|discriminate].
    intros H. apply IH in H. apply node_count_child in Hi. lia.
Qed.

(** The fuel [walk_refs] gives the loop is enough, wherever it starts. *)
Lemma walk_loop_enough root p n :
  node_at root p = Some n ->
  walk_loop (node_count root) root p [] = Some (map (app p) (preorder_rev n)).
Proof.
  intros Hp. rewrite walk_loop_todo.
  - unfold todo, sub_walk. rewrite Hp. simpl. rewrite app_nil_r. reflexivity.
  - eauto.
  - constructor.
  - unfold todo, sub_walk. rewrite Hp. simpl. rewrite app_nil_r.
    rewrite length_map, preorder_rev_length. eapply node_count_at; eauto.
Qed.

(** *** The order of the visits *)

Lemma preorder_children_head f i cs pos :
  pos ∈ preorder_children f i cs ->
  exists k q, pos = k :: q /\ (i <= k)%nat.
Proof.
  revert i. induction cs as [|c cs IH]; intros i; simpl.
  - intros H. inversion H.
  - rewrite elem_of_app. intros [H|H].
    + apply IH in H as (k & q & -> & Hk). exists k, q. split; [reflexivity|lia].
    + apply list_elem_of_fmap in H as (q & -> & _). exists i, q. split; [reflexivity|lia].
Qed.

Lemma preorder_children_elem i cs pos :
  Forall (fun c => forall q, q ∈ preorder_rev c <-> is_Some (node_at c q)) cs ->
  pos ∈ preorder_children preorder_rev i cs <->
  exists k q c, pos = k :: q /\ (i <= k)%nat /\
                cs !! (k - i)%nat = Some c /\ is_Some (node_at c q).
Proof.
  intros Hcs. revert i.
  induction Hcs as [|c cs Hc _ IH]; intros i; simpl.
  - split; [intros H; inversion H|].
    intros (k & q & c & _ & _ & H & _). discriminate.
  - rewrite elem_of_app, IH, list_elem_of_fmap. split.
    + intros [(k & q & d & -> & Hk & Hd & Hq)|(q & -> & Hq)].
      * exists k, q, d. split; [reflexivity|]. split; [lia|]. split; [|exact Hq].
        replace (k - i)%nat with (S (k - S i)) by lia. exact Hd.
      * exists i, q, c. split; [reflexivity|]. split; [lia|].
        rewrite Nat.sub_diag. split; [reflexivity|]. apply Hc, Hq.
    + intros (k & q & d & -> & Hk & Hd & Hq).
      destruct (decide (k = i)) as [->|Hne].
      * right. exists q. split; [reflexivity|].
        rewrite Nat.sub_diag in Hd. injection Hd as <-. apply Hc, Hq.
      * left. exists k, q, d. split; [reflexivity|]. split; [lia|]. split; [|exact Hq].
        replace (k - i)%nat with (S (k - S i)) in Hd by lia. exact Hd.
Qed.

(** [walk] visits the positions of the tree, and nothing else. *)
Lemma preorder_rev_elem n pos :
  pos ∈ preorder_rev n <-> is_Some (node_at n pos).
Proof.
  revert pos. induction n as [nm ps cs IH] using Node_ind'. intros pos.
  rewrite preorder_rev_unfold. simpl nodes.
  destruct pos as [|k q].
  - simpl. split; [eauto|]. intros _. left.
  - rewrite elem_of_cons, (preorder_children_elem 0 cs (k :: q) IH). simpl.
    split.
    + intros [H|(k' & q' & c & [= -> ->] & _ & Hc & Hq)]; [discriminate|].
      rewrite Nat.sub_0_r in Hc. rewrite Hc. exact Hq.
    + intros H. right. destruct (cs !! k) as [c|] eqn:Hc.
      * exists k, q, c. rewrite Nat.sub_0_r. split; [reflexivity|].
        split; [lia|]. split; [exact Hc|exact H].
      * destruct H as [? H]. discriminate.
Qed.

Lemma preorder_children_NoDup i cs :
  Forall (fun c => NoDup (preorder_rev c)) cs ->
  NoDup (preorder_children preorder_rev i cs).
Proof.
  intros Hcs. revert i. induction Hcs as [|c cs Hc _ IH]; intros i; simpl.
  - constructor.
  - apply NoDup_app. split; [apply IH|]. split.
    + intros pos Hpos Hin.
      apply preorder_children_head in Hpos as (k & q & -> & Hk).
      apply list_elem_of_fmap in Hin as (q' & [= -> _] & _). lia.
    + apply NoDup_fmap_2; [|exact Hc]. intros q q' [= ->]. reflexivity.
Qed.

(** No position is visited twice. *)
Lemma preorder_rev_NoDup n : NoDup (preorder_rev n).
Proof.
  induction n as [nm ps cs IH] using Node_ind'.
  rewrite preorder_rev_unfold. simpl nodes. constructor.
  - intros H. apply preorder_children_head in H as (k & q & H & _). discriminate.
  - apply preorder_children_NoDup, IH.
Qed.



Lemma omap_Forall2 {A B} (f : A -> option B) (l : list A) :
  Forall (fun x => is_Some (f x)) l ->
  Forall2 (fun x y => f x = Some y) l (omap f l).
Proof.
  induction 1 as [|x l [y Hy] _ IH]; simpl; [constructor|].
  rewrite Hy. constructor; assumption.
Qed.

Lemma walk_refs_root fdt root :
  root_node fdt = Some root -> walk_refs fdt [] = Ok (preorder_rev root).
Proof.
  intros Hroot. unfold walk_refs, get_node. rewrite Hroot. simpl.
  rewrite (walk_loop_enough root [] root eq_refl).
  f_equal. rewrite <- (map_id (preorder_rev root)) at 2.
  apply map_ext. reflexivity.
Qed.

Lemma walk_root fdt root :
  root_node fdt = Some root ->
  walk fdt [] false = Ok (omap (walk_yield root [] false) (preorder_rev root)).
Proof.
  intros Hroot. unfold walk. rewrite (walk_refs_root fdt root Hroot), Hroot.
  reflexivity.
Qed.

(** ** [merge] and the reservation entries *)

(** An entry whose address does not occur is appended. *)
Lemma merge_entry_new self_entries in_entry :
  Forall (fun e => address e <> address in_entry) self_entries ->
  merge_entry self_entries in_entry = self_entries ++ [in_entry].
Proof.
  intros H. unfold merge_entry.
  destruct (list_find _ self_entries) as [[i e]|] eqn:Hfind; [|reflexivity].
  apply list_find_Some in Hfind as (Hi & He & _).
  eapply Forall_lookup_1 in H; eauto. contradiction.
Qed.

(** An entry whose address occurs changes the first entry of [self] with
    that address: its address becomes the size of the incoming entry. *)
Lemma merge_entry_known self_entries in_entry i e :
  self_entries !! i = Some e ->
  address e = address in_entry ->
  (forall j d, self_entries !! j = Some d -> (j < i)%nat ->
               address d <> address in_entry) ->
  merge_entry self_entries in_entry
  = <[i := mkEntry (size in_entry) (size e)]> self_entries.
Proof.
  intros Hi He Hfirst. unfold merge_entry.
  assert (Hfind : list_find (fun e => address e = address in_entry) self_entries
                  = Some (i, e)).
  { apply list_find_Some. auto. }
  rewrite Hfind. reflexivity.
Qed.

(** C1 at a failing input.  Both trees hold the one reservation
    (address 0x1000, size 0x10).  Merging the second into the first does
    not leave the entry of the first unchanged: its address is now 0x10. *)
Theorem merge_duplicate_entry_changes_address :
  let a := mkFDT Header_new [mkEntry 0x1000 0x10] (Some (Node_new (str "/"))) in
  let b := mkFDT Header_new [mkEntry 0x1000 0x10] (Some (Node_new (str "/"))) in
  exists a', merge a b true = Ok a' /\
             entries a' = [mkEntry 0x10 0x10] /\
             entries a' <> entries a.
Proof.
  simpl. eexists. split; [reflexivity|]. simpl. split; [reflexivity|discriminate].
Qed.

(** ** [to_dtb] and the header *)


Lemma encode_ascii_length s bs : encode_ascii s = Ok bs -> len bs = len s.
Proof.
  unfold encode_ascii. destruct (forallb _ s); [|discriminate].
  intros [= <-]. unfold len. rewrite length_map. reflexivity.
Qed.

(** What a call of [to_dtb] that returns a blob went through. *)
Lemma to_dtb_returns_blob `{HeadVersionPy} `{HeadPy} `{ItemPy}
    fdt ver lcv bcp fdt' blob :
  to_dtb fdt ver lcv bcp = (fdt', Ok (Some blob)) ->
  exists root h0 v blob_entries data strings data_pos end_tag blob_header sbytes,
    let start := (Header_size v + len blob_entries)%Z in
    let blob_data := data ++ end_tag in
    let h := set_layout h0 (Header_size v) start (len blob_data) (len strings) in
    root_node fdt = Some root /\
    to_dtb_header (header fdt) ver lcv bcp = (h0, None) /\
    version h0 = Some v /\
    (bs ← pack_entries (entries fdt); z ← pack_QQ 0 0; Ok (bs ++ z))
    = Ok blob_entries /\
    Node_to_dtb root [] start v = Ok (data, strings, data_pos) /\
    pack_be 4 DTB_END = Ok end_tag /\
    fdt' = set_header fdt h /\
    Header_export h = Ok blob_header /\
    encode_ascii strings = Ok sbytes /\
    blob = blob_header ++ blob_entries ++ blob_data ++ sbytes.
Proof.
  unfold to_dtb, version_of.
  destruct (root_node fdt) as [root|] eqn:Hroot; [|discriminate].
  destruct (to_dtb_header (header fdt) ver lcv bcp) as [h0 [e|]] eqn:Hh0;
    [discriminate|].
  destruct (version h0) as [v|] eqn:Hv; [|discriminate].
  destruct (bs ← pack_entries (entries fdt); z ← pack_QQ 0 0; Ok (bs ++ z))
    as [blob_entries|] eqn:Hes; [|discriminate].
  destruct (Node_to_dtb root [] _ v) as [[[data strings] data_pos]|] eqn:Hnode;
    [|discriminate].
  destruct (pack_be 4 DTB_END) as [end_tag|] eqn:Hend; [|discriminate].
  unfold mbind at 1, result_bind at 1.
  destruct (Header_export _) as [blob_header|] eqn:Hexp; [|discriminate].
  unfold mbind, result_bind.
  destruct (encode_ascii strings) as [sbytes|] eqn:Henc; [|discriminate].
  intros [= <- <-].
  exists root, h0, v, blob_entries, data, strings, data_pos, end_tag, blob_header,
    sbytes.
  cbn zeta. auto 12.
Qed.


Lemma store_args_version h lcv bcp : version (store_args h lcv bcp) = version h.
Proof. unfold store_args. destruct lcv, bcp; reflexivity. Qed.

Lemma store_args_last_comp h lcv bcp :
  last_comp_version (store_args h lcv bcp) = default (last_comp_version h) lcv.
Proof. unfold store_args. destruct lcv, bcp; reflexivity. Qed.

Lemma store_args_boot h lcv bcp :
  boot_cpuid_phys (store_args h lcv bcp) = default (boot_cpuid_phys h) bcp.
Proof. unfold store_args. destruct lcv, bcp; reflexivity. Qed.

(** The three assignments, when none raises: the header holds each
    argument that was given. *)
Lemma to_dtb_header_args `{HeadVersionPy} h ver lcv bcp h0 :
  to_dtb_header h ver lcv bcp = (h0, None) ->
  (forall x, ver = Some x -> version h0 = Some x) /\
  (ver = None -> version h0 = version h) /\
  (forall x, lcv = Some x -> last_comp_version h0 = x) /\
  (forall x, bcp = Some x -> boot_cpuid_phys h0 = x).
Proof.
  unfold to_dtb_header.
  destruct ver as [v|].
  - destruct (Header_set_version h v) as [h1 [e|]] eqn:Hset; [discriminate|].
    intros [= <-]. rewrite store_args_version, store_args_last_comp, store_args_boot.
    split; [intros x [= <-]; exact (Header_set_version_stores _ _ _ Hset)|].
    split; [discriminate|]. split; intros x ->; reflexivity.
  - intros [= <-]. rewrite store_args_version, store_args_last_comp, store_args_boot.
    split; [discriminate|]. split; [reflexivity|]. split; intros x ->; reflexivity.
Qed.

(** C2. For a tree with a root node, and whatever [head.py] and [item.py]
    compute: after [to_dtb] has returned, the header of the tree satisfies
    [off_dt_struct + size_dt_struct = off_dt_strings],
    [off_dt_strings + size_dt_strings = total_size] and
    [off_mem_rsvmap = header.size]. *)
Theorem to_dtb_header_invariants `{HeadVersionPy} `{HeadPy} `{ItemPy}
    (fdt fdt' : FDT) (root : Node) (ver lcv bcp : option Z)
    (r : option (list byte)) :
  root_node fdt = Some root ->
  to_dtb fdt ver lcv bcp = (fdt', Ok r) ->
  let h := header fdt' in
  (off_dt_struct h + size_dt_struct h = off_dt_strings h)%Z /\
  (off_dt_strings h + size_dt_strings h = total_size h)%Z /\
  exists v, version h = Some v /\ off_mem_rsvmap h = Header_size v.
Proof.
  intros Hroot Hrun.
  assert (exists blob, r = Some blob) as [blob ->].
  { destruct r as [blob|]; [eauto|]. exfalso. revert Hrun.
    unfold to_dtb, mbind, result_bind. rewrite Hroot.
    repeat match goal with
           | |- context [match ?x with _ => _ end] => destruct x
           end; discriminate. }
  apply to_dtb_returns_blob in Hrun
    as (root' & h0 & v & bes & data & strs & dpos & etag & bhdr & sb
        & _ & _ & Hv & _ & _ & _ & -> & _).
  simpl. split; [reflexivity|]. split; [reflexivity|]. eauto.
Qed.

(** The sample tree: 183 bytes, the structure block at 88, the strings
    at 168. *)
Lemma to_dtb_header_invariants_witness :
  let h := header (to_dtb sample_fdt None None None).1 in
  (off_dt_struct h + size_dt_struct h = off_dt_strings h)%Z /\
  (off_dt_strings h + size_dt_strings h = total_size h)%Z /\
  exists v, version h = Some v /\ off_mem_rsvmap h = Header_size v.
Proof.
  apply (to_dtb_header_invariants sample_fdt _ sample_root None None None
           (Some sample_blob)).
  - reflexivity.
  - vm_compute. reflexivity.
Defined.

Example to_dtb_sample_header :
  header (to_dtb sample_fdt None None None).1
  = mkHeader 183 88 168 56 (Some 17%Z) 0 0 15 80.
Proof. vm_compute. reflexivity. Qed.




(** ** [parse_dtb] *)

(** [x & ~7] is the multiple of 8 at or below [x], and [x & ~3] that of 4. *)
Lemma land_lnot_ones (x : Z) (n : Z) :
  (0 <= n)%Z -> Z.land x (Z.lnot (Z.ones n)) = (2 ^ n * (x / 2 ^ n))%Z.
Proof.
  intros Hn. rewrite <- Z.ldiff_land, Z.ldiff_ones_r by exact Hn.
  rewrite Z.shiftl_mul_pow2, Z.shiftr_div_pow2 by exact Hn. lia.
Qed.

Lemma land_lnot_7 (x : Z) : Z.land x (Z.lnot 7) = (8 * (x / 8))%Z.
Proof. exact (land_lnot_ones x 3 ltac:(lia)). Qed.

Lemma land_lnot_3 (x : Z) : Z.land x (Z.lnot 3) = (4 * (x / 4))%Z.
Proof. exact (land_lnot_ones x 2 ltac:(lia)). Qed.





(** The same bytes with 15 and with 16 in the version word: read as
    version 16 the property has the words 1 and 2; read as version 15 its
    payload is taken four bytes further on. *)
Example parse_dtb_quirk_versions :
  drop 24 quirk_blob_15 = drop 24 quirk_blob_16 /\
  (root_node <$> parse_dtb quirk_blob_16 0)
  = Ok (Some (mkNode (str "/")
                [PropEmpty (str "e"); PropWords (str "w") [1; 2]%Z] [])) /\
  (root_node <$> parse_dtb quirk_blob_15 0)
  = Ok (Some (mkNode (str "/")
                [PropEmpty (str "e"); PropWords (str "w") [2; 2]%Z] [])).
Proof. vm_compute. auto. Qed.

(** *** The offset *)

(** Whatever [Header.parse] is, [parse_dtb] gives it [data] alone: the
    header of the result does not depend on [offset]. *)
Lemma parse_dtb_header `{HeadPy} `{ItemPy} `{MiscPy} data offset fdt :
  parse_dtb data offset = Ok fdt -> Header_parse data = Ok (header fdt).
Proof.
  unfold parse_dtb, mbind, result_bind.
  destruct (Header_parse data) as [hdr|]; [|discriminate].
  destruct (parse_entries_loop _ _ _ _ _); [|discriminate].
  destruct (parse_nodes_loop _ _ _ _ _ _); [|discriminate].
  intros [= <-]. reflexivity.
Qed.

(** C7 at a failing input.  The blob of the sample tree parses at offset
    0.  Behind eight zero bytes, with [offset = 8], the header is still
    read at the start of [data], where there is no magic number. *)
Theorem parse_dtb_embedded_blob_fails :
  parse_dtb sample_blob 0
  = Ok (mkFDT (mkHeader 183 88 168 56 (Some 17%Z) 0 0 15 80)
          (entries sample_fdt) (Some sample_root)) /\
  parse_dtb (replicate 8 x00 ++ sample_blob) 8 = Raise BadMagic.
Proof. vm_compute. auto. Qed.

(** *** The fuel of the two loops

    Each round of either loop of [parse_dtb] moves [index] forward by at
    least four and reads at [offset + index], which must lie in [data] (or,
    for a negative position, count from its end): the loops stop, with a
    result or a Python exception, before a round for every byte is used
    up. *)

Lemma be_value_nonneg (bs : list byte) : (0 <= be_value bs)%Z.
Proof.
  unfold be_value.
  assert (H : forall acc, (0 <= acc)%Z ->
            (0 <= foldl (fun acc b => acc * 256 + Z_of_byte b) acc bs)%Z).
  { induction bs as [|b bs IH]; intros acc Hacc; [exact Hacc|].
    cbn [foldl]. apply IH. unfold Z_of_byte. lia. }
  apply H. lia.
Qed.

Lemma unpack_start_range {A} (data : list A) (size offset start : Z) :
  unpack_start data size offset = Ok start ->
  (0 <= offset + len data /\ offset + size <= len data)%Z.
Proof.
  unfold unpack_start.
  destruct (offset <? 0)%Z eqn:Hneg.
  - destruct (0 <? offset + size)%Z eqn:H1; [discriminate|].
    destruct (offset + len data <? 0)%Z eqn:H2; [discriminate|].
    intros _. unfold len in *. lia.
  - destruct (len data - offset <? size)%Z eqn:H1; [discriminate|].
    intros _. unfold len in *. lia.
Qed.

Lemma parse_entries_loop_fuel (data : list byte) (offset : Z) (fuel : nat)
    (index : Z) (acc : list Entry) :
  (0 < fuel)%nat ->
  (offset + index + len data < 0
   \/ 2 * len data - (offset + index + len data) < 16 * Z.of_nat fuel)%Z ->
  parse_entries_loop fuel data offset index acc <> Raise OutOfFuel.
Proof.
  revert index acc. induction fuel as [|fuel IH]; intros index acc Hpos Hbound; [lia|].
  cbn [parse_entries_loop]. unfold unpack_pair, mbind, result_bind.
  destruct (unpack_start data (2 * Z.of_nat 8) (offset + index)) as [start|e] eqn:Hstart.
  - apply unpack_start_range in Hstart.
    destruct (_ && _); [discriminate|].
    apply IH; lia.
  - unfold unpack_start in Hstart.
    repeat match type of Hstart with
           | (if ?c then _ else _) = _ => destruct c
           end; inversion Hstart; discriminate.
Qed.

(** An append that is refused raises [Exception]. *)
Lemma update_at_M_append_exn p n pos e :
  update_at_M (fun x => Node_append_prop x p) n pos = Raise e -> e = BaseError.
Proof.
  revert n. induction pos as [|i pos IH]; intros n; cbn [update_at_M].
  - unfold Node_append_prop. destruct (Node_get_property n _); [|discriminate].
    intros [= <-]. reflexivity.
  - destruct (nodes n !! i) as [c|]; [|discriminate].
    destruct (update_at_M _ c pos) as [c'|e'] eqn:Hc; cbn [mbind result_bind];
      [discriminate|].
    intros [= <-]. eapply IH, Hc.
Qed.

Lemma builder_prop_exn b p e : builder_prop b p = Raise e -> e = BaseError.
Proof.
  unfold builder_prop. destruct (b_cur b) as [|pos|tree pos]; [discriminate| |].
  - destruct (b_root b) as [root|]; [|discriminate].
    destruct (update_at_M _ root pos) as [r|e'] eqn:Hr; cbn [mbind result_bind];
      [discriminate|].
    intros [= <-]. eapply update_at_M_append_exn, Hr.
  - destruct (update_at_M _ tree pos) as [r|e'] eqn:Hr; cbn [mbind result_bind];
      [discriminate|].
    intros [= <-]. eapply update_at_M_append_exn, Hr.
Qed.

Section ParseDtbFuel.
Context `{HeadPy} `{ItemPy} `{MiscPy}.

(** The imported functions raise Python exceptions only. *)
Hypothesis Header_parse_python :
  forall data, Header_parse data <> Raise OutOfFuel.
Hypothesis extract_string_python :
  forall data pos, extract_string data pos <> Raise OutOfFuel.
Hypothesis new_property_python :
  forall nm raw, new_property nm raw <> Raise OutOfFuel.

(** A round that goes on has read its tag inside [data] and has moved
    [index] forward; a round raises Python exceptions only. *)
Lemma parse_nodes_step_progress data offset hdr index b :
  match parse_nodes_step data offset hdr index b with
  | Ok (Continue index' _) =>
      (0 <= offset + index + len data /\ offset + index + 4 <= len data /\
       index + 4 <= index')%Z
  | Ok Stop => True
  | Raise e => e <> OutOfFuel
  end.
Proof.
  unfold parse_nodes_step.
  destruct (len data <? offset + index + 4)%Z eqn:Hlen; [discriminate|].
  apply Z.ltb_ge in Hlen.
  unfold unpack_be, unpack_pair, mbind, result_bind.
  destruct (unpack_start data (Z.of_nat 4) (offset + index)) as [start|e] eqn:Hstart.
  2:{ unfold unpack_start in Hstart.
      repeat match type of Hstart with
             | (if ?c then _ else _) = _ => destruct c
             end; inversion Hstart; discriminate. }
  apply unpack_start_range in Hstart as [Hlow _].
  destruct (_ =? DTB_BEGIN_NODE)%Z.
  { destruct (extract_string data (offset + (index + 4))) as [nm|e] eqn:Hnm.
    - rewrite land_lnot_3.
      pose proof (Z.div_mod (index + 4 + len nm + 4) 4 ltac:(lia)).
      pose proof (Z.mod_pos_bound (index + 4 + len nm + 4) 4 ltac:(lia)).
      unfold len in *. lia.
    - intros [= ->]. exact (extract_string_python _ _ Hnm). }
  destruct (_ =? DTB_END_NODE)%Z; [lia|].
  destruct (_ =? DTB_PROP)%Z.
  { destruct (unpack_start data (2 * Z.of_nat 4) (offset + (index + 4)))
      as [start2|e] eqn:Hstart2.
    2:{ unfold unpack_start in Hstart2.
        repeat match type of Hstart2 with
               | (if ?c then _ else _) = _ => destruct c
               end; inversion Hstart2; discriminate. }
    destruct (version hdr) as [v|]; [|discriminate].
    set (prop_size := be_value (take 4 (drop (Z.to_nat start2) data))).
    assert (Hsize : (0 <= prop_size)%Z) by apply be_value_nonneg.
    assert (Hps : (index + 4 + 8 <= prop_payload_start v (index + 4) prop_size)%Z).
    { unfold prop_payload_start. destruct (_ && _); [|lia].
      rewrite land_lnot_7.
      pose proof (Z.div_mod (index + 4 + 8 + 7) 8 ltac:(lia)).
      pose proof (Z.mod_pos_bound (index + 4 + 8 + 7) 8 ltac:(lia)). lia. }
    assert (Hnext : (index + 4 <=
              Z.land (prop_payload_start v (index + 4) prop_size + prop_size + 3)
                (Z.lnot 3))%Z).
    { rewrite land_lnot_3.
      pose proof (Z.div_mod (prop_payload_start v (index + 4) prop_size + prop_size + 3)
                    4 ltac:(lia)).
      pose proof (Z.mod_pos_bound
                    (prop_payload_start v (index + 4) prop_size + prop_size + 3)
                    4 ltac:(lia)). lia. }
    destruct (extract_string data _) as [nm|e] eqn:Hnm.
    2:{ intros [= ->]. exact (extract_string_python _ _ Hnm). }
    destruct (has_current b); [|lia].
    destruct (new_property nm _) as [p|e] eqn:Hp.
    2:{ intros [= ->]. exact (new_property_python _ _ Hp). }
    destruct (builder_prop b p) as [b'|e] eqn:Hb; [lia|].
    apply builder_prop_exn in Hb as ->. discriminate. }
  destruct (_ =? DTB_END)%Z; [exact I|discriminate].
Qed.

Lemma parse_nodes_loop_fuel data offset hdr (fuel : nat) index b :
  (0 < fuel)%nat ->
  (offset + index + len data < 0
   \/ 2 * len data - (offset + index + len data) < 4 * Z.of_nat fuel)%Z ->
  parse_nodes_loop fuel data offset hdr index b <> Raise OutOfFuel.
Proof.
  revert index b. induction fuel as [|fuel IH]; intros index b Hpos Hbound; [lia|].
  cbn [parse_nodes_loop]. unfold mbind, result_bind.
  pose proof (parse_nodes_step_progress data offset hdr index b) as Hstep.
  destruct (parse_nodes_step data offset hdr index b) as [[index' b'|]|e].
  - apply IH; lia.
  - discriminate.
  - congruence.
Qed.

(** [parse_dtb] stops on every input: each round of its two loops moves
    the index forward, by 16 in the first and by 4 at least in the
    second, and reads at the index inside [data], so that a round for
    each byte is never used up.  It returns a tree or raises a Python
    exception, as long as the functions it imports do. *)
Theorem parse_dtb_fuel_enough data offset :
  parse_dtb data offset <> Raise OutOfFuel.
Proof.
  unfold parse_dtb, mbind, result_bind.
  destruct (Header_parse data) as [hdr|e] eqn:Hhdr.
  2:{ intros [= ->]. exact (Header_parse_python _ Hhdr). }
  destruct (parse_entries_loop _ _ _ _ _) as [es|e] eqn:Hes.
  2:{ intros [= ->]. revert Hes. apply parse_entries_loop_fuel; unfold len; lia. }
  destruct (parse_nodes_loop _ _ _ _ _ _) as [b|e] eqn:Hb; [discriminate|].
  intros [= ->]. revert Hb. apply parse_nodes_loop_fuel; unfold len; lia.
Qed.
End ParseDtbFuel.

Lemma unpack_be_python n data offset : unpack_be n data offset <> Raise OutOfFuel.
Proof.
  unfold unpack_be, unpack_start, mbind, result_bind.
  repeat match goal with
         | |- context [if ?c then _ else _] => destruct c
         end; discriminate.
Qed.

Lemma Header_parse_spec_python data : Header_parse_spec data <> Raise OutOfFuel.
Proof.
  unfold Header_parse_spec, mbind, result_bind.
  repeat match goal with
         | |- context [unpack_be 4 data ?p] =>
             let Hp := fresh in
             pose proof (unpack_be_python 4 data p) as Hp;
             destruct (unpack_be 4 data p); [clear Hp|congruence]
         | |- context [if ?c then _ else _] => destruct c
         end; discriminate.
Qed.

(** The sample blob, with the modelled [head.py], [item.py] and
    [misc.py]. *)
Lemma parse_dtb_fuel_enough_witness : parse_dtb sample_blob 0 <> Raise OutOfFuel.
Proof.
  apply parse_dtb_fuel_enough.
  - exact Header_parse_spec_python.
  - intros d pos. cbn [extract_string MiscPy_spec]. unfold extract_string_spec.
    destruct (_ || _); discriminate.
  - intros nm raw. cbn [new_property ItemPy_spec]. unfold new_property_spec.
    repeat match goal with
           | |- context [if ?c then _ else _] => destruct c
           end; discriminate.
Defined.

(** ** [parse_dts] *)

Lemma ascii_eqb_eq a b : ascii_eqb a b = true <-> a = b.
Proof. apply Ascii.eqb_eq. Qed.

Lemma startswith_app p s : startswith p s = true -> s = p ++ drop (length p) s.
Proof.
  revert s. induction p as [|a p IH]; intros s; simpl.
  - intros _. rewrite drop_0. reflexivity.
  - destruct s as [|b s]; [discriminate|].
    intros H. apply andb_prop in H as [Hab Hp].
    apply ascii_eqb_eq in Hab as ->. simpl. f_equal. apply IH, Hp.
Qed.

Lemma parse_dts_nodes_app fs root_dir l1 l2 b :
  parse_dts_nodes fs root_dir (l1 ++ l2) b
  = (b1 ← parse_dts_nodes fs root_dir l1 b; parse_dts_nodes fs root_dir l2 b1).
Proof.
  revert b. induction l1 as [|line l1 IH]; intros b; simpl; [reflexivity|].
  destruct (parse_dts_line fs root_dir b line) as [b'|e]; simpl; [apply IH|reflexivity].
Qed.

(** A property statement whose value starts with [/plugin/] or [/bits/]
    raises [NotImplementedError], whatever the state of the parser. *)
Lemma parse_dts_line_unsupported fs root_dir b line :
  unsupported_statement line = true ->
  parse_dts_line fs root_dir b line = Raise NotImplementedError.
Proof.
  unfold unsupported_statement. intros H.
  apply andb_prop in H as [H Hv]. apply andb_prop in H as [H1 H2].
  apply negb_true_iff in H1, H2.
  unfold parse_dts_line, parse_dts_property. rewrite H1, H2.
  destruct (partition (ascii_of_nat 61) line) as [[l0 l1]|]; [|discriminate].
  apply orb_prop in Hv as [Hv|Hv];
    apply startswith_app in Hv; rewrite Hv; reflexivity.
Qed.

(** C8 as stated fails when an earlier statement is rejected first: here
    the [/memreserve/] statement lacks its size, and [parse_dts] raises the
    plain [Exception] of the first loop, not [NotImplementedError]. *)
Lemma parse_dts_plugin_after_bad_memreserve :
  let text := str "/memreserve/ 1; / { a = /plugin/; };" in
  existsb unsupported_statement (dts_lines text) = true /\
  parse_dts no_files text [] = Raise BaseError.
Proof. vm_compute. auto. Qed.

(** When the first loop raises, it is at a [/memreserve/] statement in
    front of every node opener, after the statements before it were
    taken. *)
Lemma parse_dts_entries_first_raise lines acc e :
  parse_dts_entries lines acc = Raise e ->
  exists l1 l l2 es,
    lines = l1 ++ l :: l2 /\
    parse_dts_entries l1 acc = Ok es /\
    Forall (fun x => endswith (str "{") x = false) (l1 ++ [l]) /\
    startswith (str "/memreserve/") l = true /\
    memreserve_entry l = Raise e.
Proof.
  revert acc. induction lines as [|x lines IH]; intros acc; [discriminate|].
  cbn [parse_dts_entries].
  destruct (endswith (str "{") x) eqn:Hopen; [discriminate|].
  destruct (startswith (str "/memreserve/") x) eqn:Hstart.
  - destruct (memreserve_entry x) as [entry|e'] eqn:Hentry; cbn [mbind result_bind].
    + intros Hrest. apply IH in Hrest as (l1 & l & l2 & es & -> & Hl1 & Hno & Hl & He).
      exists (x :: l1), l, l2, es. split; [reflexivity|].
      split; [cbn [parse_dts_entries]; rewrite Hopen, Hstart, Hentry; exact Hl1|].
      split; [constructor; assumption|auto].
    + intros [= <-]. exists [], x, lines, acc. split; [reflexivity|].
      split; [reflexivity|]. split; [repeat constructor; exact Hopen|auto].
  - intros Hrest. apply IH in Hrest as (l1 & l & l2 & es & -> & Hl1 & Hno & Hl & He).
    exists (x :: l1), l, l2, es. split; [reflexivity|].
    split; [cbn [parse_dts_entries]; rewrite Hopen, Hstart; exact Hl1|].
    split; [constructor; assumption|auto].
Qed.

(** When the second loop raises, it is at a statement after the ones
    before it were taken. *)
Lemma parse_dts_nodes_first_raise fs root_dir lines b e :
  parse_dts_nodes fs root_dir lines b = Raise e ->
  exists l1 l l2 b1,
    lines = l1 ++ l :: l2 /\
    parse_dts_nodes fs root_dir l1 b = Ok b1 /\
    parse_dts_line fs root_dir b1 l = Raise e.
Proof.
  revert b. induction lines as [|x lines IH]; intros b; [discriminate|].
  cbn [parse_dts_nodes].
  destruct (parse_dts_line fs root_dir b x) as [b'|e'] eqn:Hline;
    cbn [mbind result_bind].
  - intros Hrest. apply IH in Hrest as (l1 & l & l2 & b1 & -> & Hl1 & Hl).
    exists (x :: l1), l, l2, b1. split; [reflexivity|].
    split; [cbn [parse_dts_nodes]; rewrite Hline; exact Hl1|exact Hl].
  - intros [= <-]. exists [], x, lines, b. auto.
Qed.

(** C8, amended.  For a text with a property statement whose value starts
    with [/plugin/] or [/bits/], [parse_dts] returns no tree at all: it
    raises.  What it raises is [NotImplementedError] when the version
    hint was taken by the header, the first loop took the [/memreserve/]
    statements before the first node opener, and the second loop took
    the statements before that one.  Otherwise it is the exception of
    what was refused first: of the setter of the version; or of the first
    [/memreserve/] statement (in front of every opener) that is refused;
    or of the first statement of the second loop that is refused. *)
Theorem parse_dts_unsupported `{HeadVersionPy} `{MiscPy} (fs : FileSystem)
    (text root_dir : pystr) (before after : list pystr) (line : pystr) :
  dts_lines text = before ++ line :: after ->
  unsupported_statement line = true ->
  exists e,
    parse_dts fs text root_dir = Raise e /\
    match hinted_header (get_version_info text) with
    | (_, Some e0) => e = e0
    | (_, None) =>
        match parse_dts_entries (dts_lines text) [] with
        | Raise e1 =>
            e = e1 /\
            exists l1 l l2 es,
              dts_lines text = l1 ++ l :: l2 /\
              parse_dts_entries l1 [] = Ok es /\
              Forall (fun x => endswith (str "{") x = false) (l1 ++ [l]) /\
              startswith (str "/memreserve/") l = true /\
              memreserve_entry l = Raise e1
        | Ok _ =>
            match parse_dts_nodes fs root_dir before builder_init with
            | Raise e2 =>
                e = e2 /\
                exists l1 l l2 b1,
                  before = l1 ++ l :: l2 /\
                  parse_dts_nodes fs root_dir l1 builder_init = Ok b1 /\
                  parse_dts_line fs root_dir b1 l = Raise e2
            | Ok _ => e = NotImplementedError
            end
        end
    end.
Proof.
  intros Hlines Hline.
  assert (Hnodes : forall b, parse_dts_nodes fs root_dir (line :: after) b
                             = Raise NotImplementedError).
  { intros b. cbn [parse_dts_nodes].
    rewrite (parse_dts_line_unsupported _ _ _ _ Hline). reflexivity. }
  unfold parse_dts.
  destruct (hinted_header (get_version_info text)) as [h [e0|]]; [eauto|].
  destruct (parse_dts_entries (dts_lines text) []) as [es|e1] eqn:Hes;
    cbn [mbind result_bind].
  - rewrite Hlines, parse_dts_nodes_app.
    destruct (parse_dts_nodes fs root_dir before builder_init) as [b|e2] eqn:Hb;
      cbn [mbind result_bind].
    + rewrite Hnodes. eauto.
    + exists e2. split; [reflexivity|]. split; [reflexivity|].
      apply parse_dts_nodes_first_raise, Hb.
  - exists e1. split; [reflexivity|]. split; [reflexivity|].
    apply parse_dts_entries_first_raise, Hes.
Qed.

(** A root node with a [/plugin/] value and one with a [/bits/] value. *)
Lemma parse_dts_unsupported_witness :
  parse_dts no_files (str "/ { a = /plugin/; };") [] = Raise NotImplementedError /\
  parse_dts no_files (str "/ { b = <1>; a = /bits/ 8 <1>; };") []
  = Raise NotImplementedError.
Proof.
  split.
  - assert (Hlines : dts_lines (str "/ { a = /plugin/; };")
                     = [str "/ {"] ++ str "a = /plugin/" :: [str "}"])
      by reflexivity.
    destruct (parse_dts_unsupported no_files _ [] _ _ _ Hlines eq_refl)
      as (e & Hrun & He).
    vm_compute in He. rewrite <- He. exact Hrun.
  - assert (Hlines : dts_lines (str "/ { b = <1>; a = /bits/ 8 <1>; };")
                     = [str "/ {"; str "b = <1>"] ++ str "a = /bits/ 8 <1>" :: [str "}"])
      by reflexivity.
    destruct (parse_dts_unsupported no_files _ [] _ _ _ Hlines eq_refl)
      as (e & Hrun & He).
    vm_compute in He. rewrite <- He. exact Hrun.
Defined.

(** *** A text without a node *)

Lemma Forall_of_forallb {A} (P : A -> Prop) (f : A -> bool) (l : list A) :
  (forall x, f x = true -> P x) -> forallb f l = true -> Forall P l.
Proof.
  intros HfP Hall. apply Forall_forall. intros x Hx.
  apply HfP. rewrite forallb_forall in Hall. apply Hall.
  apply list_elem_of_In, Hx.
Qed.

(** Without a node opener the first loop reads every line, and keeps one
    entry for each [/memreserve/] statement, in order. *)
Lemma parse_dts_entries_no_opener lines acc :
  Forall (fun l => endswith (str "{") l = false) lines ->
  (forall es, parse_dts_entries lines acc = Ok es ->
     exists es', es = acc ++ es' /\
       Forall2 (fun l e => memreserve_entry l = Ok e) (memreserve_lines lines) es') /\
  (Forall (fun l => is_ok (memreserve_entry l) = true) (memreserve_lines lines) ->
   is_ok (parse_dts_entries lines acc) = true).
Proof.
  intros Hno. revert acc.
  induction Hno as [|line lines Hline _ IH]; intros acc; cbn [parse_dts_entries].
  - split; [|reflexivity]. intros es [= <-]. exists []. rewrite app_nil_r.
    split; [reflexivity|constructor].
  - rewrite Hline. unfold memreserve_lines. rewrite filter_cons.
    destruct (startswith (str "/memreserve/") line) eqn:Hm.
    + rewrite decide_True by reflexivity.
      destruct (memreserve_entry line) as [e|x] eqn:He; cbn [mbind result_bind].
      * destruct (IH (acc ++ [e])) as [IH1 IH2]. split.
        -- intros es Hes. apply IH1 in Hes as (es' & -> & Hall).
           exists (e :: es'). rewrite <- app_assoc. split; [reflexivity|].
           constructor; assumption.
        -- intros Hok. apply IH2. apply Forall_cons in Hok as [_ Hok]. exact Hok.
      * split; [discriminate|]. intros Hok. apply Forall_cons in Hok as [Hok _].
        rewrite He in Hok. discriminate.
    + rewrite decide_False by discriminate. apply IH.
Qed.

(** Without a node opener the second loop never gets a current node: it
    leaves the builder as it is, or raises on a property statement. *)
Lemma parse_dts_nodes_no_opener fs root_dir lines b :
  Forall (fun l => endswith (str "{") l = false) lines ->
  b_cur b = AtNone ->
  (forall b', parse_dts_nodes fs root_dir lines b = Ok b' ->
     b' = b /\
     Forall (fun l => is_ok (parse_dts_property fs root_dir l) = true)
       (property_lines lines)) /\
  (Forall (fun l => is_ok (parse_dts_property fs root_dir l) = true)
     (property_lines lines) ->
   parse_dts_nodes fs root_dir lines b = Ok b).
Proof.
  intros Hno Hcur.
  induction Hno as [|line lines Hline _ IH]; cbn [parse_dts_nodes].
  - split; [intros b' [= <-]; split; [reflexivity|constructor]|reflexivity].
  - unfold parse_dts_line. rewrite Hline.
    unfold property_lines. rewrite filter_cons.
    destruct (endswith (str "}") line) eqn:Hclose.
    + rewrite decide_False by discriminate.
      assert (builder_end b = b) as ->.
      { unfold builder_end. rewrite Hcur. reflexivity. }
      cbn [mbind result_bind]. exact IH.
    + rewrite decide_True by reflexivity.
      assert (has_current b = false) as ->.
      { unfold has_current. rewrite Hcur. reflexivity. }
      destruct (parse_dts_property fs root_dir line) as [p|e] eqn:Hp;
        cbn [mbind result_bind].
      * destruct IH as [IH1 IH2]. split.
        -- intros b' Hb'. destruct (IH1 b' Hb') as [-> Hall].
           split; [reflexivity|]. constructor; [rewrite Hp; reflexivity|exact Hall].
        -- intros Hok. apply IH2. apply Forall_cons in Hok as [_ Hok]. exact Hok.
      * split; [discriminate|]. intros Hok. apply Forall_cons in Hok as [Hok _].
        rewrite Hp in Hok. discriminate.
Qed.

(** C10 as stated fails when a statement is rejected: the text has no node
    opener, and [parse_dts] raises instead of returning a tree. *)
Lemma parse_dts_without_node_raises :
  let text := str "/memreserve/ 1;" in
  forallb (fun l => negb (endswith (str "{") l)) (dts_lines text) = true /\
  parse_dts no_files text [] = Raise BaseError.
Proof. vm_compute. auto. Qed.

(** C10, amended.  For a text without a node opener, [parse_dts] returns
    a tree exactly when the header takes the version hint (the setter of
    the version does not raise) and every [/memreserve/] statement and
    every property statement of the text is accepted; otherwise it
    raises.  A tree that it returns has no root node ([root_node] is
    None, not a node named [/]); its header is the one the assignments
    of the hints leave from a new header, so it holds the version,
    [last_comp_version] and [boot_cpuid_phys] that are hinted; its
    entries are those of the
    [/memreserve/] statements, in order. *)
Theorem parse_dts_without_node `{HeadVersionPy} `{MiscPy} (fs : FileSystem)
    (text root_dir : pystr) :
  Forall (fun l => endswith (str "{") l = false) (dts_lines text) ->
  let ver := get_version_info text in
  let accepted :=
    snd (hinted_header ver) = None /\
    Forall (fun l => is_ok (memreserve_entry l) = true)
      (memreserve_lines (dts_lines text)) /\
    Forall (fun l => is_ok (parse_dts_property fs root_dir l) = true)
      (property_lines (dts_lines text)) in
  (forall fdt, parse_dts fs text root_dir = Ok fdt ->
     accepted /\
     root_node fdt = None /\
     hinted_header ver = (header fdt, None) /\
     (forall v, vi_version ver = Some v -> version (header fdt) = Some v) /\
     (forall v, vi_last_comp_version ver = Some v ->
                last_comp_version (header fdt) = v) /\
     (forall v, vi_boot_cpuid_phys ver = Some v ->
                boot_cpuid_phys (header fdt) = v) /\
     Forall2 (fun l e => memreserve_entry l = Ok e)
       (memreserve_lines (dts_lines text)) (entries fdt)) /\
  (accepted -> exists fdt, parse_dts fs text root_dir = Ok fdt) /\
  (~ accepted -> exists e, parse_dts fs text root_dir = Raise e).
Proof.
  intros Hno ver accepted.
  destruct (parse_dts_entries_no_opener (dts_lines text) [] Hno) as [He1 He2].
  destruct (parse_dts_nodes_no_opener fs root_dir (dts_lines text) builder_init
              Hno eq_refl) as [Hn1 Hn2].
  assert (Hret : forall fdt, parse_dts fs text root_dir = Ok fdt ->
     accepted /\
     root_node fdt = None /\
     hinted_header ver = (header fdt, None) /\
     (forall v, vi_version ver = Some v -> version (header fdt) = Some v) /\
     (forall v, vi_last_comp_version ver = Some v ->
                last_comp_version (header fdt) = v) /\
     (forall v, vi_boot_cpuid_phys ver = Some v ->
                boot_cpuid_phys (header fdt) = v) /\
     Forall2 (fun l e => memreserve_entry l = Ok e)
       (memreserve_lines (dts_lines text)) (entries fdt)).
  { intros fdt. unfold accepted, parse_dts. fold ver.
    destruct (hinted_header ver) as [h [e0|]] eqn:Hh; [discriminate|].
    destruct (parse_dts_entries (dts_lines text) []) as [es|] eqn:Hes;
      cbn [mbind result_bind]; [|discriminate].
    destruct (parse_dts_nodes fs root_dir (dts_lines text) builder_init)
      as [b|] eqn:Hb; cbn [mbind result_bind]; [|discriminate].
    intros [= <-]. cbn [root_node header entries].
    destruct (Hn1 b eq_refl) as [-> Hprops].
    destruct (He1 es eq_refl) as (es' & -> & Hall).
    destruct (to_dtb_header_args _ _ _ _ _ Hh) as (Hv & _ & Hl & Hb0).
    split.
    { split; [reflexivity|]. split; [|exact Hprops].
      clear - Hall. induction Hall as [|l e ls es0 Hle _ IH]; constructor;
        [rewrite Hle; reflexivity|exact IH]. }
    split; [reflexivity|]. split; [reflexivity|].
    split; [exact Hv|]. split; [exact Hl|]. split; [exact Hb0|exact Hall]. }
  assert (Hok : accepted -> exists fdt, parse_dts fs text root_dir = Ok fdt).
  { intros (Hh & Hm & Hp). unfold parse_dts. fold ver.
    destruct (hinted_header ver) as [h [e0|]]; [discriminate|].
    specialize (He2 Hm). rewrite (Hn2 Hp).
    destruct (parse_dts_entries (dts_lines text) []) as [es|]; [|discriminate].
    cbn [mbind result_bind]. eauto. }
  split; [exact Hret|]. split; [exact Hok|].
  intros Hnot. destruct (parse_dts fs text root_dir) as [fdt|e] eqn:Hrun; [|eauto].
  destruct Hnot. exact (proj1 (Hret fdt eq_refl)).
Qed.

(** A text with a version hint, a reservation and a property, and no
    node: the tree has the version and the entry, and no root node. *)
Lemma parse_dts_without_node_witness :
  let text := str "// version: 17
/memreserve/ 0x10 0x20;
foo = <1>;" in
  exists fdt,
    parse_dts no_files text [] = Ok fdt /\
    root_node fdt = None /\
    version (header fdt) = Some 17%Z /\
    entries fdt = [mkEntry 16 32].
Proof.
  intros text.
  destruct (parse_dts_without_node no_files text []) as (Hret & Hok & _).
  - apply (Forall_of_forallb _ (fun l => negb (endswith (str "{") l)));
      [intros x; apply negb_true_iff | vm_compute; reflexivity].
  - destruct Hok as [fdt Hfdt].
    + split; [reflexivity|]. split.
      * apply (Forall_of_forallb _ (fun l => is_ok (memreserve_entry l)));
          [auto | vm_compute; reflexivity].
      * apply (Forall_of_forallb _ (fun l => is_ok (parse_dts_property no_files [] l)));
          [auto | vm_compute; reflexivity].
    + destruct (Hret fdt Hfdt) as (_ & Hroot & _ & Hver & _).
      exists fdt. split; [exact Hfdt|]. split; [exact Hroot|].
      split; [apply Hver; vm_compute; reflexivity|].
      vm_compute in Hfdt. injection Hfdt as <-. reflexivity.
Defined.

(** ** The paths [walk] yields and [get_node] reads *)

Lemma join_cons sep p ps :
  ps <> [] -> join sep (p :: ps) = p ++ sep ++ join sep ps.
Proof. destruct ps; [congruence|reflexivity]. Qed.

Lemma valid_name_nonempty s : valid_name s = true -> s <> [].
Proof.
  unfold valid_name. intros H. apply andb_prop in H as [H _].
  apply negb_true_iff, bool_decide_eq_false in H. exact H.
Qed.

Lemma valid_name_no_slash s :
  valid_name s = true -> Forall (fun c => ascii_eqb c SLASH = false) s.
Proof.
  unfold valid_name, char_in. intros H. apply andb_prop in H as [_ H].
  apply negb_true_iff in H. apply Forall_forall. intros c Hc.
  destruct (ascii_eqb c SLASH) eqn:E; [|reflexivity].
  apply ascii_eqb_eq in E as ->.
  assert (existsb (ascii_eqb SLASH) s = true); [|congruence].
  apply existsb_exists. exists SLASH. split.
  - apply list_elem_of_In, Hc.
  - apply ascii_eqb_eq. reflexivity.
Qed.

Lemma no_slash_pair_weaken s :
  no_slash_pair true s = true -> no_slash_pair false s = true.
Proof.
  destruct s as [|c s]; cbn [no_slash_pair]; [auto|].
  destruct (ascii_eqb c SLASH); [discriminate|auto].
Qed.

(** After a slash-free, non-empty piece the rest is all that matters. *)
Lemma no_slash_pair_app n s b :
  Forall (fun c => ascii_eqb c SLASH = false) n -> n <> [] ->
  no_slash_pair b (n ++ s) = no_slash_pair false s.
Proof.
  intros Hn. revert b. induction Hn as [|c n Hc Hn IH]; intros b Hne; [congruence|].
  cbn [app no_slash_pair]. rewrite Hc. destruct n as [|d n]; [reflexivity|].
  apply IH. discriminate.
Qed.

Lemma no_slash_pair_join ns :
  Forall (fun n => valid_name n = true) ns ->
  no_slash_pair true (join (str "/") ns) = true.
Proof.
  induction 1 as [|n ns Hn Hns IH]; [reflexivity|].
  destruct ns as [|n' ns].
  - cbn [join]. rewrite <- (app_nil_r n).
    rewrite no_slash_pair_app;
      auto using valid_name_no_slash, valid_name_nonempty.
  - rewrite join_cons by discriminate.
    rewrite no_slash_pair_app;
      auto using valid_name_no_slash, valid_name_nonempty.
Qed.

Lemma ascii_eqb_sym a b : ascii_eqb a b = ascii_eqb b a.
Proof.
  destruct (ascii_eqb a b) eqn:E1, (ascii_eqb b a) eqn:E2; try reflexivity.
  - apply ascii_eqb_eq in E1 as ->. rewrite (proj2 (ascii_eqb_eq b b) eq_refl) in E2.
    discriminate.
  - apply ascii_eqb_eq in E2 as ->. rewrite (proj2 (ascii_eqb_eq a a) eq_refl) in E1.
    discriminate.
Qed.

Lemma replace_from_cons old new c s :
  replace_from old new 0 (c :: s)
  = if startswith old (c :: s)
    then new ++ replace_from old new (length old - 1) s
    else c :: replace_from old new 0 s.
Proof. reflexivity. Qed.

Lemma no_slash_pair_tail b c s :
  no_slash_pair b (c :: s) = true -> no_slash_pair false s = true.
Proof.
  cbn [no_slash_pair]. destruct (ascii_eqb c SLASH).
  - intros H. apply andb_prop in H as [_ H]. apply no_slash_pair_weaken, H.
  - auto.
Qed.

(** Where no two slashes stand in a row, none of the marks that [walk]
    replaces starts. *)
Lemma no_slash_pair_startswith b c s (more : pystr) :
  no_slash_pair b (c :: s) = true ->
  startswith (SLASH :: SLASH :: more) (c :: s) = false.
Proof.
  cbn [startswith no_slash_pair]. rewrite (ascii_eqb_sym SLASH c).
  destruct (ascii_eqb c SLASH); [|reflexivity].
  intros H. apply andb_prop in H as [_ H].
  destruct s as [|d s]; [reflexivity|].
  cbn [no_slash_pair] in H. rewrite (ascii_eqb_sym SLASH d).
  destruct (ascii_eqb d SLASH); [discriminate|reflexivity].
Qed.

(** Without two slashes in a row, the two [replace] calls of [walk] change
    nothing. *)
Lemma replace_slashes_id (more : pystr) new s :
  no_slash_pair false s = true ->
  replace_from (SLASH :: SLASH :: more) new 0 s = s.
Proof.
  induction s as [|c s IH]; [reflexivity|].
  intros H. rewrite replace_from_cons.
  rewrite (no_slash_pair_startswith _ _ _ _ H).
  f_equal. apply IH. eapply no_slash_pair_tail, H.
Qed.

(** [lstrip('/')] leaves a string that does not start with a slash. *)
Lemma lstrip_no_slash s :
  no_slash_pair true s = true -> lstrip (str "/") s = s.
Proof.
  destruct s as [|c s]; [reflexivity|].
  cbn [lstrip no_slash_pair].
  change (char_in c (str "/")) with (ascii_eqb c SLASH || false).
  destruct (ascii_eqb c SLASH); [discriminate|reflexivity].
Qed.

Lemma startswith_cons a p b s :
  startswith (a :: p) (b :: s) = ascii_eqb a b && startswith p s.
Proof. reflexivity. Qed.

Lemma no_slash_pair_head s (more : pystr) :
  no_slash_pair true s = true -> startswith (SLASH :: more) s = false.
Proof.
  destruct s as [|c s]; [reflexivity|].
  cbn [startswith no_slash_pair]. rewrite (ascii_eqb_sym SLASH c).
  destruct (ascii_eqb c SLASH); [discriminate|reflexivity].
Qed.

(** The string [walk] formats for the names [ns] of a path, two slashes
    and the names joined by slashes, is normalised to one slash and the
    names. *)
Lemma normalise_path ns :
  Forall (fun n => valid_name n = true) ns ->
  replace (str "//") (str "/")
    (replace (str "///") (str "/") (str "//" ++ join (str "/") ns))
  = str "/" ++ join (str "/") ns.
Proof.
  intros Hns. pose proof (no_slash_pair_join ns Hns) as Hj.
  set (j := join (str "/") ns) in *.
  assert (H3 : replace (str "///") (str "/") (str "//" ++ j) = str "//" ++ j).
  { unfold replace.
    change (str "//" ++ j) with (SLASH :: SLASH :: j).
    change (str "///") with [SLASH; SLASH; SLASH].
    assert (Hs : ascii_eqb SLASH SLASH = true) by reflexivity.
    rewrite replace_from_cons. rewrite !startswith_cons, Hs. cbn [andb].
    rewrite (no_slash_pair_head j [] Hj).
    rewrite replace_from_cons. rewrite !startswith_cons, Hs. cbn [andb].
    rewrite (no_slash_pair_head j [SLASH] Hj).
    rewrite (replace_slashes_id [SLASH] (str "/") j (no_slash_pair_weaken _ Hj)).
    reflexivity. }
  rewrite H3. unfold replace.
  change (str "//" ++ j) with (SLASH :: SLASH :: j).
  change (str "//") with [SLASH; SLASH].
  rewrite replace_from_cons.
  change (startswith [SLASH; SLASH] (SLASH :: SLASH :: j)) with true.
  cbn [length Nat.sub replace_from].
  rewrite (replace_slashes_id [] (str "/") j (no_slash_pair_weaken _ Hj)).
  reflexivity.
Qed.

(** Nothing is cut inside a piece without a slash. *)
Lemma split_from_piece n cur s :
  Forall (fun c => ascii_eqb c SLASH = false) n ->
  split_from (str "/") 0 cur (n ++ s) = split_from (str "/") 0 (rev n ++ cur) s.
Proof.
  intros Hn. revert cur. induction Hn as [|c n Hc _ IH]; intros cur; [reflexivity|].
  cbn [app split_from].
  change (startswith (str "/") (c :: n ++ s)) with (ascii_eqb SLASH c && true).
  rewrite ascii_eqb_sym, Hc. cbn [andb]. rewrite IH.
  cbn [rev]. rewrite <- app_assoc. reflexivity.
Qed.

(** [split('/')] gives back the names that were joined by slashes. *)
Lemma split_join ns :
  Forall (fun n => valid_name n = true) ns -> ns <> [] ->
  split (str "/") (join (str "/") ns) = ns.
Proof.
  unfold split. induction 1 as [|n ns Hn Hns IH]; intros Hne; [congruence|].
  destruct ns as [|n' ns].
  - cbn [join]. rewrite <- (app_nil_r n).
    rewrite split_from_piece by auto using valid_name_no_slash.
    cbn [split_from]. rewrite !app_nil_r, rev_involutive. reflexivity.
  - rewrite join_cons by discriminate.
    rewrite split_from_piece by auto using valid_name_no_slash.
    rewrite app_nil_r.
    change (str "/" ++ join (str "/") (n' :: ns))
      with (SLASH :: join (str "/") (n' :: ns)).
    cbn [split_from].
    change (startswith (str "/") (SLASH :: join (str "/") (n' :: ns))) with true.
    cbn [length Nat.sub]. rewrite rev_involutive. f_equal.
    apply IH. discriminate.
Qed.

Lemma join_nil_inv ns :
  Forall (fun n => valid_name n = true) ns -> join (str "/") ns = [] -> ns = [].
Proof.
  intros Hns. destruct Hns as [|n ns Hn Hns]; [reflexivity|].
  apply valid_name_nonempty in Hn.
  destruct ns; cbn [join]; [congruence|].
  destruct n; [congruence|discriminate].
Qed.

(** [get_node] reads the names back from the normalised path. *)
Lemma path_names_join ns :
  Forall (fun n => valid_name n = true) ns ->
  path_names (str "/" ++ join (str "/") ns) = ns.
Proof.
  intros Hns. unfold path_names.
  change (str "/" ++ join (str "/") ns) with (SLASH :: join (str "/") ns).
  cbn [lstrip]. change (char_in SLASH (str "/")) with true. cbn iota.
  rewrite lstrip_no_slash by (apply no_slash_pair_join, Hns).
  destruct (join (str "/") ns) as [|c j] eqn:Hj.
  - symmetry. apply join_nil_inv; assumption.
  - rewrite <- Hj. apply split_join; [exact Hns|].
    intros ->. discriminate.
Qed.

(** ** [diff] of a tree and itself *)

Lemma wf_node_inv n :
  wf_node n = true ->
  NoDup (map name (nodes n)) /\ NoDup (map prop_name (props n)) /\
  Forall (fun c => valid_name (name c) = true /\ wf_node c = true) (nodes n).
Proof.
  destruct n as [nm ps cs]. cbn [wf_node nodes props]. intros H.
  apply andb_prop in H as [H Hcs]. apply andb_prop in H as [Hn Hp].
  apply bool_decide_eq_true in Hn, Hp.
  split; [exact Hn|]. split; [exact Hp|].
  apply Forall_forall. intros c Hc.
  rewrite forallb_forall in Hcs. apply list_elem_of_In, Hcs in Hc.
  apply andb_prop in Hc. exact Hc.
Qed.

(** Among children with pairwise distinct names, the first child with
    the name of a child is that child. *)
Lemma first_match_node cs i c :
  NoDup (map name cs) -> cs !! i = Some c ->
  list_find (fun d => name d = name c) cs = Some (i, c).
Proof.
  intros Hnd Hi. apply list_find_Some. split; [exact Hi|]. split; [reflexivity|].
  intros j d Hj Hlt Heq.
  assert (j = i); [|lia].
  eapply NoDup_lookup; [exact Hnd| |].
  - rewrite list_lookup_fmap, Hj. simpl. rewrite Heq. reflexivity.
  - rewrite list_lookup_fmap, Hi. reflexivity.
Qed.

Lemma first_match_prop ps p :
  NoDup (map prop_name ps) -> p ∈ ps ->
  snd <$> list_find (fun q => prop_name q = prop_name p) ps = Some p.
Proof.
  intros Hnd Hp. apply list_elem_of_lookup in Hp as [i Hi].
  assert (Hfind : list_find (fun q => prop_name q = prop_name p) ps = Some (i, p)).
  { apply list_find_Some. split; [exact Hi|]. split; [reflexivity|].
    intros j d Hj Hlt Heq.
    assert (j = i); [|lia].
    eapply NoDup_lookup; [exact Hnd| |].
    - rewrite list_lookup_fmap, Hj. simpl. rewrite Heq. reflexivity.
    - rewrite list_lookup_fmap, Hi. reflexivity. }
  rewrite Hfind. reflexivity.
Qed.

(** In a well-formed tree the names on the way to a node lead
    [get_node] to that node. *)
Lemma get_node_from_names_to n pos m :
  wf_node n = true -> node_at n pos = Some m ->
  get_node_from false (names_to n pos) n = Ok (n, pos).
Proof.
  revert n. induction pos as [|i pos IH]; intros n Hwf Hat.
  - reflexivity.
  - cbn [node_at names_to] in *.
    destruct (nodes n !! i) as [c|] eqn:Hi; [|discriminate].
    apply wf_node_inv in Hwf as (Hnd & _ & Hcs).
    pose proof (Forall_lookup_1 _ _ _ _ Hcs Hi) as [_ Hwfc].
    cbn [get_node_from]. unfold Node_get_subnode.
    rewrite (first_match_node _ _ _ Hnd Hi).
    rewrite (IH c Hwfc Hat). cbn [mbind result_bind].
    unfold set_child. rewrite list_insert_id by exact Hi.
    destruct n; reflexivity.
Qed.

Lemma names_to_valid n pos m :
  wf_node n = true -> node_at n pos = Some m ->
  Forall (fun s => valid_name s = true) (names_to n pos).
Proof.
  revert n. induction pos as [|i pos IH]; intros n Hwf Hat; [constructor|].
  cbn [node_at names_to] in *.
  destruct (nodes n !! i) as [c|] eqn:Hi; [|discriminate].
  apply wf_node_inv in Hwf as (_ & _ & Hcs).
  pose proof (Forall_lookup_1 _ _ _ _ Hcs Hi) as [Hv Hwfc].
  constructor; eauto.
Qed.

Lemma ancestor_names_names_to n pos m :
  node_at n pos = Some m ->
  ancestor_names n pos ++ [name m] = name n :: names_to n pos.
Proof.
  revert n. induction pos as [|i pos IH]; intros n Hat.
  - injection Hat as <-. reflexivity.
  - cbn [node_at ancestor_names names_to] in *.
    destruct (nodes n !! i) as [c|] eqn:Hi; [|discriminate].
    cbn [app]. f_equal. apply IH, Hat.
Qed.

Lemma join_snoc sep l x :
  l <> [] -> join sep (l ++ [x]) = join sep l ++ sep ++ x.
Proof.
  induction l as [|p l IH]; intros Hne; [congruence|].
  destruct l as [|q l].
  - reflexivity.
  - cbn [app]. rewrite (join_cons sep p) by discriminate.
    rewrite (join_cons sep p (q :: l)) by discriminate.
    cbn [app] in IH. rewrite IH by discriminate.
    rewrite <- !app_assoc. reflexivity.
Qed.

(** The path [walk] yields for a node of a well-formed tree whose root is
    named [/] is read by [get_node] as the names on the way to the node. *)
Lemma current_path_names root pos m :
  name root = str "/" -> wf_node root = true -> node_at root pos = Some m ->
  path_names (current_path root pos (name m)) = names_to root pos.
Proof.
  intros Hname Hwf Hat.
  pose proof (names_to_valid _ _ _ Hwf Hat) as Hvalid.
  pose proof (ancestor_names_names_to _ _ _ Hat) as Hanc.
  unfold current_path, Node_path.
  assert (Hfmt : join (str "/") (ancestor_names root pos) ++ str "/" ++ name m
                 = str "//" ++ join (str "/") (names_to root pos)).
  { destruct pos as [|i pos].
    - injection Hat as <-. rewrite Hname. reflexivity.
    - rewrite <- join_snoc by (cbn [ancestor_names]; discriminate).
      rewrite Hanc, Hname.
      rewrite join_cons; [reflexivity|].
      cbn [node_at names_to] in *.
      destruct (nodes root !! i); discriminate. }
  rewrite Hfmt, normalise_path by exact Hvalid.
  apply path_names_join, Hvalid.
Qed.

(** *** What the first loop makes of [fdt_same] *)

Lemma at_names_nil f s : at_names [] f s = f s.
Proof. reflexivity. Qed.

Lemma at_names_cons nm ns f s i c :
  Node_get_subnode s nm = Some (i, c) ->
  at_names (nm :: ns) f s = set_child s i (at_names ns f c).
Proof.
  intros Hsub. unfold at_names. cbn [get_node_from]. rewrite Hsub.
  destruct (get_node_from_create_ok ns c) as (c' & pos & Hrun).
  rewrite Hrun. cbn [mbind result_bind update_at].
  apply get_subnode_Some in Hsub as (Hi & _ & _).
  cbn [set_child nodes].
  rewrite list_lookup_insert_eq by (eapply lookup_lt_Some; eauto).
  unfold set_child. cbn [name props nodes].
  rewrite list_insert_insert_eq. reflexivity.
Qed.

Lemma update_at_name f n pos :
  (forall x, name (f x) = name x) -> name (update_at f n pos) = name n.
Proof.
  intros Hf. destruct pos as [|i pos]; cbn [update_at]; [apply Hf|].
  destruct (nodes n !! i); reflexivity.
Qed.

Lemma at_names_name ns f s :
  (forall x, name (f x) = name x) -> name (at_names ns f s) = name s.
Proof.
  intros Hf. unfold at_names.
  destruct (get_node_from true ns s) as [[s' pos]|] eqn:Hrun; [|reflexivity].
  rewrite update_at_name by exact Hf.
  apply get_node_from_name in Hrun as (Hname & _). exact Hname.
Qed.

Lemma Node_with_name x item : name (Node_with x item) = name x.
Proof. destruct item; reflexivity. Qed.

Lemma same_step_name s v : name (same_step s v) = name s.
Proof.
  unfold same_step. generalize (same_items v.2). intros items. revert s.
  induction items as [|item items IH]; intros s; [reflexivity|].
  cbn [foldl]. rewrite IH. apply at_names_name. intros x. apply Node_with_name.
Qed.

(** At the node itself: its children are added as new nodes, then its
    properties. *)
Lemma same_step_here x m :
  same_step x ([], m)
  = mkNode (name x) (props x ++ props m)
      (nodes x ++ map (fun c => Node_new (name c)) (nodes m)).
Proof.
  unfold same_step, same_items. cbn [fst snd]. rewrite foldl_app.
  assert (Hn : forall cs s,
             foldl (fun s item => at_names [] (fun x => Node_with x item) s) s
               (map (fun c => ItemNode (Node_new (name c))) cs)
             = mkNode (name s) (props s)
                 (nodes s ++ map (fun c => Node_new (name c)) cs)).
  { induction cs as [|c cs IH]; intros s; cbn [map foldl].
    - rewrite app_nil_r. destruct s; reflexivity.
    - rewrite IH. cbn. rewrite <- app_assoc. reflexivity. }
  assert (Hp : forall ps s,
             foldl (fun s item => at_names [] (fun x => Node_with x item) s) s
               (map (fun p => ItemProp (Property_copy p)) ps)
             = mkNode (name s) (props s ++ ps) (nodes s)).
  { induction ps as [|p ps IH]; intros s; cbn [map foldl].
    - rewrite app_nil_r. destruct s; reflexivity.
    - rewrite IH. cbn. rewrite <- app_assoc. reflexivity. }
  rewrite Hn, Hp. reflexivity.
Qed.

(** Below a child [x] that is the only one with its name: the round
    changes that child, and nothing else. *)
Lemma at_names_child nm ns f n0 ps pre x post :
  name x = nm -> Forall (fun d => name d <> nm) pre ->
  at_names (nm :: ns) f (mkNode n0 ps (pre ++ x :: post))
  = mkNode n0 ps (pre ++ at_names ns f x :: post).
Proof.
  intros Hx Hpre.
  assert (Hsub : Node_get_subnode (mkNode n0 ps (pre ++ x :: post)) nm
                 = Some (length pre, x)).
  { unfold Node_get_subnode. apply list_find_Some. cbn [nodes].
    split; [|split].
    - rewrite lookup_app_r, Nat.sub_diag by lia. reflexivity.
    - exact Hx.
    - intros j d Hj Hlt. rewrite lookup_app_l in Hj by lia.
      eapply Forall_lookup_1 in Hpre; eauto. }
  rewrite (at_names_cons _ _ _ _ _ _ Hsub).
  unfold set_child. cbn [name props nodes].
  rewrite insert_app_r_alt, Nat.sub_diag by lia. reflexivity.
Qed.

Lemma same_step_child nm ns m n0 ps pre x post :
  name x = nm -> Forall (fun d => name d <> nm) pre ->
  same_step (mkNode n0 ps (pre ++ x :: post)) (nm :: ns, m)
  = mkNode n0 ps (pre ++ same_step x (ns, m) :: post).
Proof.
  unfold same_step. cbn [fst snd]. generalize (same_items m). intros items.
  revert x. induction items as [|item items IH]; intros x Hx Hpre; [reflexivity|].
  cbn [foldl]. rewrite at_names_child by assumption.
  apply IH; [|exact Hpre].
  rewrite at_names_name; [exact Hx|]. intros y. apply Node_with_name.
Qed.

(** The rounds for the subtree of a child change that child only. *)
Lemma same_steps_child c vs n0 ps pre x post :
  name x = name c -> Forall (fun d => name d <> name c) pre ->
  foldl same_step (mkNode n0 ps (pre ++ x :: post))
    (map (fun v => (name c :: v.1, v.2)) vs)
  = mkNode n0 ps (pre ++ foldl same_step x vs :: post).
Proof.
  revert x. induction vs as [|v vs IH]; intros x Hx Hpre; [reflexivity|].
  cbn [map foldl]. destruct v as [ns m]. cbn [fst snd].
  rewrite same_step_child by assumption.
  apply IH; [|exact Hpre]. rewrite same_step_name. exact Hx.
Qed.

(** The rounds for the subtrees of the children, the last child first,
    turn the new nodes into the children. *)
Lemma same_steps_children n0 ps cs pre :
  NoDup (map name (pre ++ cs)) ->
  Forall (fun c => foldl same_step (Node_new (name c)) (visits c) = c) cs ->
  foldl same_step
    (mkNode n0 ps (pre ++ map (fun c => Node_new (name c)) cs))
    (visits_children visits cs)
  = mkNode n0 ps (pre ++ cs).
Proof.
  intros Hnd Hcs. revert pre Hnd.
  induction Hcs as [|c cs Hc _ IH]; intros pre Hnd; [reflexivity|].
  cbn [visits_children map]. rewrite foldl_app.
  replace (pre ++ Node_new (name c) :: map (fun c => Node_new (name c)) cs)
    with ((pre ++ [Node_new (name c)]) ++ map (fun c => Node_new (name c)) cs)
    by (rewrite <- app_assoc; reflexivity).
  rewrite IH.
  - rewrite <- app_assoc. cbn [app].
    rewrite same_steps_child.
    + rewrite Hc. reflexivity.
    + reflexivity.
    + rewrite map_app in Hnd. apply NoDup_app in Hnd as (_ & Hdisj & _).
      apply Forall_forall. intros d Hd Heq.
      apply (Hdisj (name d)).
      * apply list_elem_of_fmap. eauto.
      * rewrite Heq. cbn [map]. left.
  - rewrite <- app_assoc. cbn [app].
    rewrite !map_app in *. cbn [map] in *. exact Hnd.
Qed.

(** The rounds of the first loop for a well-formed tree build that tree
    from a new node with the name of its root. *)
Lemma same_steps_tree n :
  wf_node n = true -> foldl same_step (Node_new (name n)) (visits n) = n.
Proof.
  induction n as [nm ps cs IH] using Node_ind'. intros Hwf.
  apply wf_node_inv in Hwf as (Hnd & _ & Hcs). cbn [nodes] in *.
  cbn [visits foldl nodes name]. rewrite same_step_here. cbn [name props nodes app].
  apply (same_steps_children nm ps cs []); [exact Hnd|].
  apply Forall_forall. intros c Hc.
  rewrite Forall_forall in IH, Hcs. apply IH; [exact Hc|]. apply Hcs, Hc.
Qed.

(** *** The rounds of [diff] *)

(** [visits] lists the nodes in the order of [walk]. *)
Lemma visits_children_preorder n i cs :
  (forall j c, cs !! j = Some c -> nodes n !! (i + j)%nat = Some c) ->
  Forall (fun c => Forall2 (fun pos v => names_to c pos = v.1 /\ node_at c pos = Some v.2)
                     (preorder_rev c) (visits c)) cs ->
  Forall2 (fun pos v => names_to n pos = v.1 /\ node_at n pos = Some v.2)
    (preorder_children preorder_rev i cs) (visits_children visits cs).
Proof.
  intros Hcs Hall. revert i Hcs.
  induction Hall as [|c cs Hc _ IH]; intros i Hcs; cbn [preorder_children visits_children].
  - constructor.
  - apply Forall2_app.
    + apply IH. intros j d Hj. specialize (Hcs (S j) d Hj).
      replace (S i + j)%nat with (i + S j)%nat by lia. exact Hcs.
    + specialize (Hcs 0%nat c eq_refl). rewrite Nat.add_0_r in Hcs.
      apply Forall2_fmap. eapply Forall2_impl; [exact Hc|].
      intros pos v [Hn Hat]. cbn [names_to node_at fst snd]. rewrite Hcs.
      rewrite Hn. auto.
Qed.

Lemma visits_preorder n :
  Forall2 (fun pos v => names_to n pos = v.1 /\ node_at n pos = Some v.2)
    (preorder_rev n) (visits n).
Proof.
  induction n as [nm ps cs IH] using Node_ind'.
  rewrite preorder_rev_unfold. cbn [visits nodes]. constructor; [auto|].
  apply visits_children_preorder; [|exact IH].
  intros j c Hj. exact Hj.
Qed.

(** *** Appends that are not refused *)

Lemma props_distinct_inv n :
  props_distinct n = true ->
  NoDup (map prop_name (props n)) /\
  Forall (fun c => props_distinct c = true) (nodes n).
Proof.
  destruct n as [nm ps cs]. cbn [props_distinct nodes props]. intros H.
  apply andb_prop in H as [Hp Hcs]. apply bool_decide_eq_true in Hp.
  split; [exact Hp|]. apply Forall_forall. intros c Hc.
  rewrite forallb_forall in Hcs. apply Hcs, list_elem_of_In, Hc.
Qed.

Lemma props_distinct_intro n :
  NoDup (map prop_name (props n)) ->
  Forall (fun c => props_distinct c = true) (nodes n) ->
  props_distinct n = true.
Proof.
  destruct n as [nm ps cs]. cbn [props_distinct nodes props]. intros Hp Hcs.
  apply andb_true_intro. split; [apply bool_decide_eq_true, Hp|].
  apply forallb_forall. intros c Hc. rewrite Forall_forall in Hcs.
  apply Hcs, list_elem_of_In, Hc.
Qed.

Lemma wf_props_distinct n : wf_node n = true -> props_distinct n = true.
Proof.
  induction n as [nm ps cs IH] using Node_ind'. intros Hwf.
  apply wf_node_inv in Hwf as (_ & Hp & Hcs). cbn [nodes props] in *.
  apply props_distinct_intro; [exact Hp|]. cbn [nodes].
  apply Forall_forall. intros c Hc. rewrite Forall_forall in IH, Hcs.
  apply IH; [exact Hc|]. apply Hcs, Hc.
Qed.

(** A tree whose property names are distinct had them distinct before a
    node or a property was put at the end of a list. *)
Lemma Node_with_distinct x item :
  props_distinct (Node_with x item) = true -> props_distinct x = true.
Proof.
  intros H. apply props_distinct_inv in H as [Hp Hcs].
  apply props_distinct_intro.
  - destruct item; cbn [Node_with Node_append_node Node_with_prop props] in Hp;
      [exact Hp|].
    rewrite map_app in Hp. apply NoDup_app in Hp as (Hp & _). exact Hp.
  - destruct item; cbn [Node_with Node_append_node Node_with_prop nodes] in Hcs;
      [|exact Hcs].
    apply Forall_app in Hcs as [Hcs _]. exact Hcs.
Qed.

Lemma set_child_distinct n i c x :
  nodes n !! i = Some c ->
  props_distinct (set_child n i x) = true ->
  props_distinct x = true /\ (props_distinct c = true -> props_distinct n = true).
Proof.
  intros Hi H. apply props_distinct_inv in H as [Hp Hcs].
  unfold set_child in Hp, Hcs. cbn [props nodes] in Hp, Hcs.
  pose proof (lookup_lt_Some _ _ _ Hi) as Hlt.
  rewrite Forall_lookup in Hcs. split.
  - apply (Hcs i). apply list_lookup_insert_eq, Hlt.
  - intros Hc. apply props_distinct_intro; [exact Hp|].
    apply Forall_lookup. intros j d Hj.
    destruct (decide (j = i)) as [->|Hne].
    + rewrite Hi in Hj. injection Hj as <-. exact Hc.
    + apply (Hcs j). rewrite list_lookup_insert_ne by congruence. exact Hj.
Qed.

(** The way to a node that is not there is made of new nodes. *)
Lemma at_names_new nm ns f s :
  Node_get_subnode s nm = None ->
  at_names (nm :: ns) f s = Node_append_node s (at_names ns f (Node_new nm)).
Proof.
  intros Hsub. unfold at_names. cbn [get_node_from]. rewrite Hsub.
  destruct (get_node_from_create_ok ns (Node_new nm)) as (c' & pos & Hrun).
  rewrite Hrun. cbn [mbind result_bind update_at].
  cbn [Node_append_node nodes].
  rewrite lookup_app_r, Nat.sub_diag by lia. cbn [lookup list_lookup].
  unfold set_child, Node_append_node. cbn [name props nodes].
  rewrite insert_app_r_alt, Nat.sub_diag by lia. reflexivity.
Qed.

Lemma at_names_distinct ns item s :
  props_distinct (at_names ns (fun x => Node_with x item) s) = true ->
  props_distinct s = true.
Proof.
  revert s. induction ns as [|nm ns IH]; intros s.
  - rewrite at_names_nil. apply Node_with_distinct.
  - destruct (Node_get_subnode s nm) as [[i c]|] eqn:Hsub.
    + rewrite (at_names_cons _ _ _ _ _ _ Hsub).
      apply get_subnode_Some in Hsub as (Hi & _).
      intros H. apply (set_child_distinct _ _ _ _ Hi) in H as [Hx Hback].
      apply Hback, IH, Hx.
    + rewrite (at_names_new _ _ _ _ Hsub).
      apply (Node_with_distinct s (ItemNode _)).
Qed.

Lemma at_names_fold_distinct ns items s :
  props_distinct
    (foldl (fun s item => at_names ns (fun x => Node_with x item) s) s items) = true ->
  props_distinct s = true.
Proof.
  revert s. induction items as [|item items IH]; intros s; [auto|].
  cbn [foldl]. intros H. apply IH in H. exact (at_names_distinct _ _ _ H).
Qed.

Lemma same_step_distinct s v :
  props_distinct (same_step s v) = true -> props_distinct s = true.
Proof. apply at_names_fold_distinct. Qed.

Lemma same_steps_distinct s vs :
  props_distinct (foldl same_step s vs) = true -> props_distinct s = true.
Proof.
  revert s. induction vs as [|v vs IH]; intros s; [auto|].
  cbn [foldl]. intros H. apply IH in H. exact (same_step_distinct _ _ H).
Qed.

(** An append at a position is not refused when the names of the
    properties are distinct afterwards. *)
Lemma update_at_M_append obj r pos :
  (forall p, obj = ItemProp p ->
     props_distinct (update_at (fun x => Node_with x obj) r pos) = true) ->
  update_at_M (fun x => Node_append x obj) r pos
  = Ok (update_at (fun x => Node_with x obj) r pos).
Proof.
  revert r. induction pos as [|i pos IH]; intros r Hpd; cbn [update_at_M update_at] in *.
  - destruct obj as [c|p]; [reflexivity|].
    specialize (Hpd p eq_refl). apply props_distinct_inv in Hpd as [Hp _].
    cbn [Node_with Node_with_prop props] in Hp.
    cbn [Node_append Node_with]. unfold Node_append_prop, Node_get_property.
    destruct (list_find (fun q => prop_name q = prop_name p) (props r))
      as [[j q]|] eqn:Hfind; [|reflexivity].
    apply list_find_Some in Hfind as (Hj & Hq & _).
    rewrite map_app in Hp. apply NoDup_app in Hp as (_ & Hdisj & _).
    destruct (Hdisj (prop_name p)).
    + apply list_elem_of_fmap. exists q. split; [auto|].
      eapply list_elem_of_lookup_2, Hj.
    + cbn [map]. left.
  - destruct (nodes r !! i) as [c|] eqn:Hi; [|reflexivity].
    rewrite IH; [reflexivity|].
    intros p Hobj. specialize (Hpd p Hobj).
    apply (set_child_distinct _ _ _ _ Hi) in Hpd as [Hx _]. exact Hx.
Qed.

(** On a tree with a root, [add_item] is [at_names] on the root, when the
    append is not refused. *)
Lemma add_item_at_names fdt root obj path :
  root_node fdt = Some root ->
  (forall p, obj = ItemProp p ->
     props_distinct
       (at_names (path_names path) (fun x => Node_with x obj) root) = true) ->
  add_item fdt obj path true
  = Ok (set_root fdt
          (Some (at_names (path_names path) (fun x => Node_with x obj) root))).
Proof.
  intros Hroot. unfold add_item, get_node, at_names. rewrite Hroot.
  destruct (get_node_from_create_ok (path_names path) root) as (root' & pos & Hrun).
  rewrite Hrun. cbn [mbind result_bind set_root root_node]. intros Hpd.
  rewrite (update_at_M_append _ _ _ Hpd). cbn [mbind result_bind].
  destruct fdt; reflexivity.
Qed.

(** The triples of [walk] are those of [visits]. *)
Lemma walk_triples fdt root :
  root_node fdt = Some root -> name root = str "/" -> wf_node root = true ->
  exists triples,
    walk fdt [] false = Ok triples /\
    Forall2 (triple_of root) triples (visits root).
Proof.
  intros Hroot Hname Hwf. rewrite (walk_root _ _ Hroot).
  eexists. split; [reflexivity|].
  pose proof (visits_preorder root) as Hvis.
  induction Hvis as [|pos v poss vs [Hn Hat] _ IH]; [constructor|].
  assert (Hy : walk_yield root [] false pos
               = Some (current_path root pos (name v.2), nodes v.2, props v.2)).
  { unfold walk_yield. rewrite Hat. reflexivity. }
  cbn [omap list_omap]. rewrite Hy.
  constructor; [|exact IH].
  unfold triple_of. cbn [fst snd].
  rewrite <- Hn. split; [|split; [reflexivity|split; [reflexivity|]]].
  - apply current_path_names; assumption.
  - exists pos. split; [|exact Hat].
    eapply get_node_from_names_to; eauto.
Qed.

Lemma try_get_node_triple fdt root t v :
  root_node fdt = Some root -> triple_of root t v ->
  try_get_node fdt t.1.1 = Some v.2.
Proof.
  intros Hroot (Hnames & _ & _ & pos & Hnav & Hat).
  unfold try_get_node, get_node. rewrite Hroot, Hnames, Hnav.
  cbn. exact Hat.
Qed.

(** A node has each of its children, and each of its properties when
    their names are pairwise distinct. *)
Lemma lacks_subnode_child m c :
  c ∈ nodes m -> lacks_subnode (Some m) (name c) = false.
Proof.
  intros Hc. cbn. apply bool_decide_eq_false. unfold Node_get_subnode.
  intros Hnone. apply list_find_None in Hnone.
  rewrite Forall_forall in Hnone. exact (Hnone c Hc eq_refl).
Qed.

Lemma has_equal_property_own m p :
  NoDup (map prop_name (props m)) -> p ∈ props m ->
  has_equal_property (Some m) p = true.
Proof.
  intros Hnd Hp. cbn. apply bool_decide_eq_true. unfold Node_get_property.
  apply first_match_prop; assumption.
Qed.

(** The round of the first loop for a node that is the same in both
    trees adds to [fdt_same] only. *)
Lemma diff_step_a_same fdt2 root2 fdt_same fdt_a s t v :
  root_node fdt2 = Some root2 -> triple_of root2 t v ->
  NoDup (map prop_name (props v.2)) ->
  root_node fdt_same = Some s ->
  props_distinct (same_step s v) = true ->
  diff_step_a fdt2 (fdt_same, fdt_a) t
  = Ok (set_root fdt_same (Some (same_step s v)), fdt_a).
Proof.
  intros Hroot2 Htriple Hnd Hs Hpd.
  pose proof (try_get_node_triple _ _ _ _ Hroot2 Htriple) as Hrnode.
  destruct Htriple as (Hnames & Hnodes & Hprops & _).
  destruct t as [[path ns] ps]. cbn [fst snd] in *. subst ns ps.
  unfold diff_step_a. rewrite Hrnode.
  unfold same_step, same_items in *. rewrite foldl_app in *.
  rewrite <- Hnames in *.
  set (add := fun s item => at_names (path_names path) (fun x => Node_with x item) s)
    in *.
  assert (Hloop1 : forall cs fs s0,
             (forall c, c ∈ cs -> c ∈ nodes v.2) ->
             root_node fs = Some s0 ->
             foldM (fun '(fdt_same, fdt_a) node_b =>
                      let item := ItemNode (Node_new (name node_b)) in
                      if lacks_subnode (Some v.2) (name node_b)
                      then fdt_a' ← add_item fdt_a item path true; Ok (fdt_same, fdt_a')
                      else fdt_same' ← add_item fdt_same item path true;
                           Ok (fdt_same', fdt_a))
                   (fs, fdt_a) cs
             = Ok (set_root fs
                     (Some (foldl add s0
                              (map (fun c => ItemNode (Node_new (name c))) cs))),
                   fdt_a)).
  { induction cs as [|c cs IH]; intros fs s0 Hsub Hfs; cbn [foldM map foldl].
    - destruct fs; cbn in *; subst; reflexivity.
    - rewrite lacks_subnode_child by (apply Hsub; left).
      rewrite (add_item_at_names _ _ _ _ Hfs) by discriminate.
      cbn [mbind result_bind].
      rewrite (IH _ (add s0 (ItemNode (Node_new (name c))))).
      + reflexivity.
      + intros d Hd. apply Hsub. right. exact Hd.
      + reflexivity. }
  assert (Hloop2 : forall ps fs s0,
             (forall p, p ∈ ps -> p ∈ props v.2) ->
             root_node fs = Some s0 ->
             props_distinct
               (foldl add s0 (map (fun p => ItemProp (Property_copy p)) ps)) = true ->
             foldM (fun '(fdt_same, fdt_a) prop_a =>
                      let item := ItemProp (Property_copy prop_a) in
                      if has_equal_property (Some v.2) prop_a
                      then fdt_same' ← add_item fdt_same item path true;
                           Ok (fdt_same', fdt_a)
                      else fdt_a' ← add_item fdt_a item path true; Ok (fdt_same, fdt_a'))
                   (fs, fdt_a) ps
             = Ok (set_root fs
                     (Some (foldl add s0
                              (map (fun p => ItemProp (Property_copy p)) ps))),
                   fdt_a)).
  { induction ps as [|p ps IH]; intros fs s0 Hsub Hfs Hall; cbn [foldM map foldl] in *.
    - destruct fs; cbn in *; subst; reflexivity.
    - rewrite has_equal_property_own by (auto; apply Hsub; left).
      rewrite (add_item_at_names _ _ _ _ Hfs)
        by (intros _ _; exact (at_names_fold_distinct _ _ _ Hall)).
      cbn [mbind result_bind].
      rewrite (IH _ (add s0 (ItemProp (Property_copy p)))).
      + reflexivity.
      + intros d Hd. apply Hsub. right. exact Hd.
      + reflexivity.
      + exact Hall. }
  rewrite (Hloop1 _ _ s) by auto. cbn [mbind result_bind].
  erewrite Hloop2; [reflexivity|auto|reflexivity|exact Hpd].
Qed.

Lemma wf_node_at n pos m :
  wf_node n = true -> node_at n pos = Some m -> wf_node m = true.
Proof.
  revert n. induction pos as [|i pos IH]; intros n Hwf Hat.
  - injection Hat as <-. exact Hwf.
  - cbn [node_at] in Hat.
    destruct (nodes n !! i) as [c|] eqn:Hi; [|discriminate].
    apply wf_node_inv in Hwf as (_ & _ & Hcs).
    pose proof (Forall_lookup_1 _ _ _ _ Hcs Hi) as [_ Hwfc]. eauto.
Qed.

Lemma triple_of_props root t v :
  wf_node root = true -> triple_of root t v ->
  NoDup (map prop_name (props v.2)).
Proof.
  intros Hwf (_ & _ & _ & pos & _ & Hat).
  apply (wf_node_at _ _ _ Hwf) in Hat.
  apply wf_node_inv in Hat as (_ & Hnd & _). exact Hnd.
Qed.

(** The first loop of [diff] on a well-formed tree and itself. *)
Lemma diff_loop_a fdt2 root2 triples vs fdt_same fdt_a s :
  root_node fdt2 = Some root2 -> wf_node root2 = true ->
  Forall2 (triple_of root2) triples vs ->
  root_node fdt_same = Some s ->
  props_distinct (foldl same_step s vs) = true ->
  foldM (diff_step_a fdt2) (fdt_same, fdt_a) triples
  = Ok (set_root fdt_same (Some (foldl same_step s vs)), fdt_a).
Proof.
  intros Hroot2 Hwf Hall. revert fdt_same s.
  induction Hall as [|t v triples vs Ht _ IH]; intros fdt_same s Hs Hpd;
    cbn [foldM foldl] in *.
  - destruct fdt_same; cbn in *; subst; reflexivity.
  - rewrite (diff_step_a_same _ _ _ _ _ _ _ Hroot2 Ht
               (triple_of_props _ _ _ Hwf Ht) Hs (same_steps_distinct _ _ Hpd)).
    cbn [mbind result_bind]. rewrite (IH _ (same_step s v)) by auto.
    reflexivity.
Qed.

(** The round of the second loop for a node that [fdt_same] has with the
    same children and properties adds nothing to [fdt_b]. *)
Lemma diff_step_b_same fdt_same root fdt_b t v :
  root_node fdt_same = Some root -> wf_node root = true ->
  triple_of root t v ->
  diff_step_b fdt_same fdt_b t = Ok fdt_b.
Proof.
  intros Hroot Hwf Htriple.
  pose proof (try_get_node_triple _ _ _ _ Hroot Htriple) as Hrnode.
  pose proof (triple_of_props _ _ _ Hwf Htriple) as Hnd.
  destruct Htriple as (Hnames & Hnodes & Hprops & _).
  destruct t as [[path ns] ps]. cbn [fst snd] in *. subst ns ps.
  unfold diff_step_b. rewrite Hrnode.
  assert (Hloop1 : forall cs,
             (forall c, c ∈ cs -> c ∈ nodes v.2) ->
             foldM (fun fdt_b node_b =>
                      if lacks_subnode (Some v.2) (name node_b)
                      then add_item fdt_b (ItemNode (Node_new (name node_b))) path true
                      else Ok fdt_b) fdt_b cs = Ok fdt_b).
  { induction cs as [|c cs IH]; intros Hsub; cbn [foldM]; [reflexivity|].
    rewrite lacks_subnode_child by (apply Hsub; left).
    cbn [mbind result_bind]. apply IH. intros d Hd. apply Hsub. right. exact Hd. }
  assert (Hloop2 : forall ps,
             (forall p, p ∈ ps -> p ∈ props v.2) ->
             foldM (fun fdt_b prop_b =>
                      if has_equal_property (Some v.2) prop_b
                      then Ok fdt_b
                      else add_item fdt_b (ItemProp (Property_copy prop_b)) path true)
                   fdt_b ps = Ok fdt_b).
  { induction ps as [|p ps IH]; intros Hsub; cbn [foldM]; [reflexivity|].
    rewrite has_equal_property_own by (auto; apply Hsub; left).
    cbn [mbind result_bind]. apply IH. intros d Hd. apply Hsub. right. exact Hd. }
  rewrite Hloop1 by auto. cbn [mbind result_bind]. apply Hloop2. auto.
Qed.

Lemma diff_loop_b fdt_same root fdt_b triples vs :
  root_node fdt_same = Some root -> wf_node root = true ->
  Forall2 (triple_of root) triples vs ->
  foldM (diff_step_b fdt_same) fdt_b triples = Ok fdt_b.
Proof.
  intros Hroot Hwf Hall.
  induction Hall as [|t v triples vs Ht _ IH]; cbn [foldM]; [reflexivity|].
  rewrite (diff_step_b_same _ _ _ _ _ Hroot Hwf Ht). exact IH.
Qed.

(** *** The entries and the header *)

Lemma entry_eqb_refl a : entry_eqb a a = true.
Proof. unfold entry_eqb. rewrite !Z.eqb_refl. reflexivity. Qed.

Lemma existsb_entry_self a es : a ∈ es -> existsb (entry_eqb a) es = true.
Proof.
  intros Ha. apply existsb_exists. exists a. split.
  - apply list_elem_of_In, Ha.
  - apply entry_eqb_refl.
Qed.

Lemma filter_all {A} (P : A -> Prop) `{forall x, Decision (P x)} (l : list A) :
  Forall P l -> filter P l = l.
Proof.
  induction 1 as [|x l Hx _ IH]; [reflexivity|].
  rewrite filter_cons, decide_True by exact Hx. f_equal. exact IH.
Qed.

Lemma filter_none {A} (P : A -> Prop) `{forall x, Decision (P x)} (l : list A) :
  Forall (fun x => ~ P x) l -> filter P l = [].
Proof.
  induction 1 as [|x l Hx _ IH]; [reflexivity|].
  rewrite filter_cons, decide_False by exact Hx. exact IH.
Qed.

Lemma diff_same_entries_self es : diff_same_entries es es = es.
Proof.
  unfold diff_same_entries. destruct es as [|e es]; [reflexivity|].
  apply filter_all, Forall_forall. intros a Ha. apply existsb_entry_self, Ha.
Qed.

Lemma diff_only_entries_self es : diff_only_entries es es = [].
Proof.
  unfold diff_only_entries. apply filter_none, Forall_forall.
  intros a Ha. rewrite existsb_entry_self by exact Ha. discriminate.
Qed.

Lemma diff_same_header_self h : diff_same_header h h = h.
Proof.
  unfold diff_same_header. destruct (version h) as [v|]; [|reflexivity].
  destruct (v <? v)%Z; reflexivity.
Qed.

(** C4 as stated fails on a tree with two children of the same name: the
    second [a] has a child [b], the path [/a] leads [get_node] to the
    first [a], which has none, and [b] ends up in [only_a] and in
    [only_b]; [same] lacks it. *)
Lemma diff_same_names_not_empty :
  diff twins_fdt twins_fdt
  = Ok (mkFDT Header_new []
          (Some (mkNode (str "/") [] [Node_new (str "a"); Node_new (str "a")])),
        mkFDT Header_new []
          (Some (mkNode (str "/") []
                   [mkNode (str "a") [] [Node_new (str "b")]])),
        mkFDT Header_new []
          (Some (mkNode (str "/") []
                   [mkNode (str "a") [] [Node_new (str "b")]]))).
Proof. vm_compute. reflexivity. Qed.

(** Each of the other conditions is needed as well.  A root that is not
    named [/] is walked under the path [/soc], which [get_node] looks up
    as a child of itself; a name with a slash is read as two names; a
    child with an empty name makes the path of its parent. *)
Example diff_named_root :
  diff named_root_fdt named_root_fdt
  = Ok (empty_fdt Header_new,
        mkFDT Header_new []
          (Some (mkNode (str "/") []
                   [mkNode (str "soc") [PropEmpty (str "x")] []])),
        mkFDT Header_new []
          (Some (mkNode (str "/") []
                   [mkNode (str "soc") [PropEmpty (str "x")] []]))).
Proof. vm_compute. reflexivity. Qed.

Example diff_slash_name :
  diff slash_name_fdt slash_name_fdt
  = Ok (mkFDT Header_new []
          (Some (mkNode (str "/") [] [Node_new (str "a/b")])),
        mkFDT Header_new []
          (Some (mkNode (str "/") []
                   [mkNode (str "a") []
                      [mkNode (str "b") [PropEmpty (str "x")] []]])),
        mkFDT Header_new []
          (Some (mkNode (str "/") []
                   [mkNode (str "a") []
                      [mkNode (str "b") [PropEmpty (str "x")] []]]))).
Proof. vm_compute. reflexivity. Qed.

Example diff_empty_name :
  diff empty_name_fdt empty_name_fdt
  = Ok (mkFDT Header_new [] (Some (mkNode (str "/") [] [Node_new []])),
        mkFDT Header_new []
          (Some (mkNode (str "/") [PropEmpty (str "x")] [])),
        mkFDT Header_new []
          (Some (mkNode (str "/") [PropEmpty (str "x")] []))).
Proof. vm_compute. reflexivity. Qed.

Example diff_rootless : diff rootless_fdt rootless_fdt = Raise AttributeError.
Proof. reflexivity. Qed.

(** C4, amended.  For a tree [T] with a root node named [/] in which, at
    every node, the names of the children are pairwise distinct, not empty
    and without a slash, and the names of the properties are pairwise
    distinct: [diff(T, T)] returns [(same, only_a, only_b)] where [same] is
    [T] (header, reservations and root node) and [only_a] and [only_b] are
    empty trees with the header of [T]: a root named [/] without
    properties or children, and no reservations. *)
Theorem diff_same_tree (T : FDT) (root : Node) :
  root_node T = Some root ->
  name root = str "/" ->
  wf_node root = true ->
  diff T T = Ok (T, empty_fdt (header T), empty_fdt (header T)).
Proof.
  intros Hroot Hname Hwf.
  assert (Hsame : foldl same_step (Node_new (str "/")) (visits root) = root).
  { rewrite <- Hname. apply same_steps_tree, Hwf. }
  unfold diff. rewrite diff_same_header_self.
  cbn [FDT_new default set_entries entries header root_node].
  rewrite diff_same_entries_self, !diff_only_entries_self.
  destruct (walk_triples T root Hroot Hname Hwf) as (triples & Hwalk & Hall).
  rewrite Hwalk. cbn [mbind result_bind].
  erewrite (diff_loop_a T root triples (visits root));
    [|eassumption|eassumption|eassumption|reflexivity
     |rewrite Hsame; apply wf_props_distinct, Hwf].
  cbn [mbind result_bind set_root header entries].
  rewrite Hsame.
  erewrite diff_loop_b; [|reflexivity|eassumption|eassumption].
  cbn [mbind result_bind]. unfold empty_fdt, FDT_new. cbn [default].
  destruct T as [h es r]. cbn in *. subst r. reflexivity.
Qed.

(** The sample tree: [same] is the tree, the other two are empty. *)
Lemma diff_same_tree_witness :
  diff sample_fdt sample_fdt
  = Ok (sample_fdt, empty_fdt (header sample_fdt), empty_fdt (header sample_fdt)).
Proof.
  apply (diff_same_tree sample_fdt sample_root); reflexivity.
Defined.

(** ** [walk]: each node once, and its path *)




(** A root with the children [a] (which has the child [c]) and [b]:
    the root, then [b], then [a] and its child. *)
Example walk_example :
  let tree := mkNode (str "/") []
                [mkNode (str "a") [] [Node_new (str "c")]; Node_new (str "b")] in
  walk (mkFDT Header_new [] (Some tree)) [] false
  = Ok [(str "/", nodes tree, []);
        (str "/b", [], []);
        (str "/a", [Node_new (str "c")], []);
        (str "/a/c", [], [])].
Proof. reflexivity. Qed.

(** ** [get_node] on a path that is found, [exist_node], [add_item] *)

Lemma set_child_id n i c : nodes n !! i = Some c -> set_child n i c = n.
Proof.
  intros Hi. destruct n as [nm ps cs]. unfold set_child. cbn in *.
  f_equal. apply list_insert_id, Hi.
Qed.

(** What the loop of [get_node] returns without [create]: the node it was
    started at, unchanged, and a position reached by the names, each step
    by the first child of that name.  With [create] it does the same. *)
Lemma get_node_from_found names n n' pos :
  get_node_from false names n = Ok (n', pos) ->
  n' = n /\ names_to n pos = names /\ first_named n pos /\
  is_Some (node_at n pos) /\
  get_node_from true names n = Ok (n, pos).
Proof.
  revert n n' pos. induction names as [|nm names IH]; intros n n' pos.
  - cbn. intros [= <- <-]. cbn. eauto.
  - cbn [get_node_from].
    destruct (Node_get_subnode n nm) as [[i item]|] eqn:Hsub; [|discriminate].
    destruct (get_node_from false names item) as [[item' pos']|] eqn:Hrec;
      cbn [mbind result_bind]; [|discriminate].
    intros [= <- <-].
    apply IH in Hrec as (-> & Hnames & Hfirst & Hsome & Hcreate).
    apply get_subnode_Some in Hsub as (Hi & Hnm & Hbefore).
    rewrite Hcreate. cbn [mbind result_bind].
    rewrite (set_child_id _ _ _ Hi).
    cbn [names_to first_named node_at]. rewrite Hi.
    split; [reflexivity|]. split; [congruence|].
    split; [|auto]. split; [|exact Hfirst].
    intros j d Hj Hlt. rewrite Hnm. eauto.
Qed.

(** What [get_node(path)] returns on a tree with a root node: a node of
    the tree, at the end of the way the names of the path describe. *)
Lemma get_node_ok_inv fdt fdt' root path node :
  root_node fdt = Some root ->
  get_node fdt path false = Ok (fdt', node) ->
  exists pos n, node = Some pos /\ node_at root pos = Some n /\
                get_node_from false (path_names path) root = Ok (root, pos).
Proof.
  intros Hroot. unfold get_node. rewrite Hroot.
  destruct (get_node_from false (path_names path) root) as [[root' pos]|] eqn:Hrun;
    cbn [mbind result_bind]; [|discriminate].
  intros [= <- <-].
  pose proof (get_node_from_found _ _ _ _ Hrun) as (-> & _ & _ & [n Hn] & _).
  eauto.
Qed.

(** [get_node(path)] that returns a node leaves the tree as it is; the
    node is the one the names of the path lead to, through the first child
    of each name; and [create=True] gives the same node and creates
    nothing. *)
Theorem get_node_found (fdt fdt' : FDT) (root : Node) (path : pystr)
    (node : option position) :
  root_node fdt = Some root ->
  get_node fdt path false = Ok (fdt', node) ->
  fdt' = fdt /\
  get_node fdt path true = Ok (fdt, node) /\
  exists pos, node = Some pos /\
    is_Some (node_at root pos) /\
    names_to root pos = path_names path /\
    first_named root pos.
Proof.
  intros Hroot. unfold get_node. rewrite Hroot.
  destruct (get_node_from false (path_names path) root) as [[root' pos]|] eqn:Hrun;
    cbn [mbind result_bind]; [|discriminate].
  intros [= <- <-].
  apply get_node_from_found in Hrun as (-> & Hnames & Hfirst & Hsome & Hcreate).
  rewrite Hcreate. cbn [mbind result_bind].
  assert (Hid : set_root fdt (Some root) = fdt).
  { destruct fdt as [h es r]. cbn in *. subst r. reflexivity. }
  rewrite Hid. split; [reflexivity|]. split; [reflexivity|]. eauto.
Qed.

(** The node [cpu] of the sample tree. *)
Lemma get_node_found_witness :
  get_node sample_fdt (str "/cpu") true = Ok (sample_fdt, Some [0%nat]).
Proof.
  destruct (get_node_found sample_fdt sample_fdt sample_root (str "/cpu")
              (Some [0%nat]) eq_refl eq_refl) as (_ & H & _).
  exact H.
Defined.

(** A path with one more component. *)
Lemma split_from_snoc cur s nm :
  Forall (fun c => ascii_eqb c SLASH = false) nm ->
  split_from (str "/") 0 cur (s ++ str "/" ++ nm)
  = split_from (str "/") 0 cur s ++ [nm].
Proof.
  intros Hnm. revert cur. induction s as [|c s IH]; intros cur.
  - change ([] ++ str "/" ++ nm) with (SLASH :: nm).
    cbn [split_from].
    change (startswith (str "/") (SLASH :: nm)) with true.
    change (length (str "/") - 1)%nat with 0%nat.
    rewrite <- (app_nil_r nm) at 1.
    rewrite (split_from_piece nm [] [] Hnm). cbn [split_from app].
    rewrite app_nil_r, rev_involutive. reflexivity.
  - change ((c :: s) ++ str "/" ++ nm) with (c :: (s ++ str "/" ++ nm)).
    cbn [split_from].
    change (startswith (str "/") (c :: s ++ str "/" ++ nm))
      with (ascii_eqb SLASH c && true).
    change (startswith (str "/") (c :: s)) with (ascii_eqb SLASH c && true).
    change (length (str "/") - 1)%nat with 0%nat.
    destruct (ascii_eqb SLASH c); cbn [andb]; rewrite IH; reflexivity.
Qed.

Lemma path_names_snoc path nm :
  valid_name nm = true ->
  path_names (path ++ str "/" ++ nm) = path_names path ++ [nm].
Proof.
  intros Hvalid.
  pose proof (valid_name_nonempty _ Hvalid) as Hne.
  pose proof (valid_name_no_slash _ Hvalid) as Hns.
  unfold path_names. induction path as [|c path IH].
  - change ([] ++ str "/" ++ nm) with (SLASH :: nm).
    cbn [lstrip]. change (char_in SLASH (str "/")) with true. cbn [app].
    destruct nm as [|a nm]; [congruence|].
    apply Forall_cons in Hns as Hns'. destruct Hns' as [Ha _].
    cbn [lstrip].
    change (char_in a (str "/")) with (ascii_eqb a SLASH || false).
    rewrite Ha. cbn [orb].
    unfold split. rewrite <- (app_nil_r (a :: nm)) at 1.
    rewrite (split_from_piece (a :: nm) [] [] Hns). cbn [split_from].
    rewrite app_nil_r, rev_involutive. reflexivity.
  - change ((c :: path) ++ str "/" ++ nm) with (c :: (path ++ str "/" ++ nm)).
    cbn [lstrip]. destruct (char_in c (str "/")); [exact IH|].
    unfold split.
    change (c :: path ++ str "/" ++ nm) with ((c :: path) ++ str "/" ++ nm).
    apply split_from_snoc, Hns.
Qed.

(** A change of the node at the end of a way that keeps its name leaves
    the way as it is. *)
Lemma get_node_from_update f names n pos :
  (forall x, name (f x) = name x) ->
  get_node_from false names n = Ok (n, pos) ->
  get_node_from false names (update_at f n pos) = Ok (update_at f n pos, pos).
Proof.
  intros Hf. revert n pos. induction names as [|nm names IH]; intros n pos.
  - cbn. intros [= <-]. reflexivity.
  - cbn [get_node_from].
    destruct (Node_get_subnode n nm) as [[i item]|] eqn:Hsub; [|discriminate].
    destruct (get_node_from false names item) as [[item' pos']|] eqn:Hrec;
      cbn [mbind result_bind]; [|discriminate].
    intros [= _ <-].
    pose proof (get_node_from_found _ _ _ _ Hrec) as (-> & _).
    apply get_subnode_Some in Hsub as (Hi & Hnm & Hbefore).
    cbn [update_at]. rewrite Hi.
    set (x := update_at f item pos').
    assert (Hx : name x = nm) by (unfold x; rewrite update_at_name; auto).
    assert (Hfind : Node_get_subnode (set_child n i x) nm = Some (i, x)).
    { unfold Node_get_subnode, set_child. cbn [nodes].
      apply list_find_Some. split; [|split; [exact Hx|]].
      - apply list_lookup_insert_eq. eapply lookup_lt_Some, Hi.
      - intros j d Hj Hlt. rewrite list_lookup_insert_ne in Hj by lia. eauto. }
    pose proof (IH item pos' Hrec) as Hrec'. fold x in Hrec'.
    rewrite Hfind, Hrec'.
    cbn [mbind result_bind]. unfold set_child. cbn [name props nodes].
    rewrite list_insert_insert_eq. reflexivity.
Qed.

Lemma node_at_update_at f n pos m :
  node_at n pos = Some m -> node_at (update_at f n pos) pos = Some (f m).
Proof.
  revert n. induction pos as [|i pos IH]; intros n.
  - cbn. congruence.
  - cbn [node_at update_at]. destruct (nodes n !! i) as [c|] eqn:Hi; [|discriminate].
    intros Hm. unfold set_child. cbn [nodes].
    rewrite list_lookup_insert_eq by (eapply lookup_lt_Some, Hi). auto.
Qed.

(** The way goes on from the node it has reached. *)
Lemma get_node_from_app names1 names2 n pos m pos2 :
  get_node_from false names1 n = Ok (n, pos) ->
  node_at n pos = Some m ->
  get_node_from false names2 m = Ok (m, pos2) ->
  get_node_from false (names1 ++ names2) n = Ok (n, pos ++ pos2).
Proof.
  revert n pos. induction names1 as [|nm names1 IH]; intros n pos.
  - cbn. intros [= <-]. cbn. intros [= ->]. auto.
  - cbn [get_node_from app].
    destruct (Node_get_subnode n nm) as [[i item]|] eqn:Hsub; [|discriminate].
    destruct (get_node_from false names1 item) as [[item' pos']|] eqn:Hrec;
      cbn [mbind result_bind]; [|discriminate].
    intros [= Hn <-] Hm H2.
    pose proof (get_node_from_found _ _ _ _ Hrec) as (-> & _).
    apply get_subnode_Some in Hsub as (Hi & _).
    cbn [node_at] in Hm. rewrite Hi in Hm.
    rewrite (IH item pos' Hrec Hm H2). cbn [mbind result_bind].
    rewrite Hn. reflexivity.
Qed.

(** The node a run with [create] ends at was there before, at the end of
    the same way, or is a new node. *)
Lemma get_node_from_create_cases names n s pos m :
  get_node_from true names n = Ok (s, pos) ->
  node_at s pos = Some m ->
  (get_node_from false names n = Ok (n, pos) /\ s = n) \/
  ((exists e, get_node_from false names n = Raise e) /\ exists nm, m = Node_new nm).
Proof.
  revert n s pos. induction names as [|nm names IH]; intros n s pos.
  - cbn. intros [= <- <-]. auto.
  - cbn [get_node_from].
    destruct (Node_get_subnode n nm) as [[i item]|] eqn:Hsub.
    + destruct (get_node_from true names item) as [[item' pos']|] eqn:Hrec;
        cbn [mbind result_bind]; [|discriminate].
      intros [= <- <-]. apply get_subnode_Some in Hsub as (Hi & _).
      cbn [node_at set_child nodes].
      rewrite list_lookup_insert_eq by (eapply lookup_lt_Some, Hi).
      intros Hm. destruct (IH _ _ _ Hrec Hm) as [[Hfalse ->]|[[e Hfalse] Hnew]].
      * left. rewrite Hfalse. cbn [mbind result_bind].
        rewrite (set_child_id _ _ _ Hi). auto.
      * right. rewrite Hfalse. cbn [mbind result_bind]. eauto.
    + destruct (get_node_from true names (Node_new nm)) as [[item' pos']|] eqn:Hrec;
        cbn [mbind result_bind]; [|discriminate].
      intros [= <- <-]. cbn [node_at Node_append_node nodes].
      rewrite lookup_app_r, Nat.sub_diag by lia. cbn [lookup list_lookup].
      intros Hm. right. split; [eauto|].
      destruct (IH _ _ _ Hrec Hm) as [[Hfalse ->]|[_ Hnew]]; [|exact Hnew].
      destruct names as [|nm' names]; [|discriminate Hfalse].
      cbn in Hfalse. injection Hfalse as <-. cbn in Hm. injection Hm as <-. eauto.
Qed.

(** An append at a position: refused when the node there refuses it. *)
Lemma update_at_M_append_at obj s pos m :
  node_at s pos = Some m ->
  update_at_M (fun x => Node_append x obj) s pos
  = match Node_append m obj with
    | Ok _ => Ok (update_at (fun x => Node_with x obj) s pos)
    | Raise e => Raise e
    end.
Proof.
  revert s. induction pos as [|i pos IH]; intros s; cbn [node_at update_at_M update_at].
  - intros [= ->]. destruct obj as [c|p]; [reflexivity|].
    cbn [Node_append Node_with]. unfold Node_append_prop.
    destruct (Node_get_property m (prop_name p)); reflexivity.
  - destruct (nodes s !! i) as [c|] eqn:Hi; [|discriminate].
    intros Hm. rewrite (IH c Hm).
    destruct (Node_append m obj); reflexivity.
Qed.

(** What [add_item(obj, path)] makes of the tree: the path is there, and
    the node it names has [obj] at the end of its list, unless that node
    refuses [obj]. *)
Lemma add_item_result fdt root obj path :
  root_node fdt = Some root ->
  exists s pos m,
    get_node_from true (path_names path) root = Ok (s, pos) /\
    node_at s pos = Some m /\
    add_item fdt obj path true
    = match Node_append m obj with
      | Ok _ => Ok (set_root fdt (Some (update_at (fun x => Node_with x obj) s pos)))
      | Raise e => Raise e
      end /\
    get_node_from false (path_names path) (update_at (fun x => Node_with x obj) s pos)
    = Ok (update_at (fun x => Node_with x obj) s pos, pos) /\
    node_at (update_at (fun x => Node_with x obj) s pos) pos = Some (Node_with m obj).
Proof.
  intros Hroot.
  destruct (get_node_from_create_ok (path_names path) root) as (s & pos & Hrun).
  pose proof (get_node_from_created _ _ _ _ Hrun) as Hway.
  pose proof (get_node_from_found _ _ _ _ Hway) as (_ & _ & _ & [m Hm] & _).
  exists s, pos, m. split; [exact Hrun|]. split; [exact Hm|]. split; [|split].
  - unfold add_item, get_node. rewrite Hroot, Hrun.
    cbn [mbind result_bind set_root root_node].
    rewrite (update_at_M_append_at _ _ _ _ Hm).
    destruct (Node_append m obj); [|reflexivity].
    cbn [mbind result_bind]. destruct fdt; reflexivity.
  - apply get_node_from_update; [intros x; apply Node_with_name|exact Hway].
  - exact (node_at_update_at (fun x => Node_with x obj) s pos m Hm).
Qed.

(** [add_item(Node(...), path)] for a node whose path is not in the tree,
    followed by a lookup: the path exists afterwards, whether it did
    before or not, and so does the path of the new node below it, which
    leads to that node. *)
Theorem add_item_node_found (fdt : FDT) (root c : Node) (path : pystr) :
  root_node fdt = Some root ->
  valid_name (name c) = true ->
  exist_node fdt (path ++ str "/" ++ name c) = false ->
  exists fdt',
    add_item fdt (ItemNode c) path true = Ok fdt' /\
    exist_node fdt' path = true /\
    exist_node fdt' (path ++ str "/" ++ name c) = true /\
    exists pos,
      get_node fdt' (path ++ str "/" ++ name c) false = Ok (fdt', Some pos) /\
      deref fdt' (Some pos) = Ok c.
Proof.
  intros Hroot Hvalid Hfresh.
  destruct (add_item_result fdt root (ItemNode c) path Hroot)
    as (s & pos & m & Hrun & Hm & Hadd & Hway & Hm').
  cbn [Node_append] in Hadd.
  set (root' := update_at (fun x => Node_with x (ItemNode c)) s pos) in *.
  assert (Hnone : Node_get_subnode m (name c) = None).
  { destruct (get_node_from_create_cases _ _ _ _ _ Hrun Hm)
      as [[Hfalse ->]|[_ [nm ->]]]; [|reflexivity].
    destruct (Node_get_subnode m (name c)) as [[i d]|] eqn:Hsub; [|reflexivity].
    assert (Hlast : get_node_from false [name c] m = Ok (m, [i])).
    { cbn [get_node_from]. rewrite Hsub. cbn [mbind result_bind].
      apply get_subnode_Some in Hsub as (Hi & _).
      rewrite (set_child_id _ _ _ Hi). reflexivity. }
    pose proof (get_node_from_app _ _ _ _ _ _ Hfalse Hm Hlast) as Hfound.
    unfold exist_node, get_node in Hfresh.
    rewrite Hroot, (path_names_snoc path (name c) Hvalid), Hfound in Hfresh.
    discriminate Hfresh. }
  assert (Hsub : Node_get_subnode (Node_append_node m c) (name c)
                 = Some (length (nodes m), c)).
  { apply get_subnode_None in Hnone. unfold Node_get_subnode.
    apply list_find_Some. cbn [Node_append_node nodes].
    split; [rewrite lookup_app_r, Nat.sub_diag by lia; reflexivity|].
    split; [reflexivity|].
    intros j d Hj Hlt. rewrite lookup_app_l in Hj by lia.
    exact (Forall_lookup_1 _ _ _ _ Hnone Hj). }
  assert (Hlast : get_node_from false [name c] (Node_with m (ItemNode c))
                  = Ok (Node_with m (ItemNode c), [length (nodes m)])).
  { cbn [get_node_from Node_with]. rewrite Hsub. cbn [mbind result_bind].
    apply get_subnode_Some in Hsub as (Hi & _).
    rewrite (set_child_id _ _ _ Hi). reflexivity. }
  pose proof (get_node_from_app _ _ _ _ _ _ Hway Hm' Hlast) as Hfound.
  assert (Hid : forall r, set_root (set_root fdt (Some r)) (Some r)
                          = set_root fdt (Some r)) by reflexivity.
  exists (set_root fdt (Some root')). split; [exact Hadd|].
  unfold exist_node, get_node. cbn [set_root root_node].
  rewrite Hway. cbn [mbind result_bind is_ok]. split; [reflexivity|].
  rewrite (path_names_snoc path (name c) Hvalid), Hfound.
  cbn [mbind result_bind is_ok]. split; [reflexivity|].
  exists (pos ++ [length (nodes m)]). split; [reflexivity|].
  unfold deref. cbn [set_root root_node].
  rewrite node_at_app, Hm'. cbn [mbind option_bind node_at Node_with Node_append_node nodes].
  rewrite lookup_app_r, Nat.sub_diag by lia. reflexivity.
Qed.

(** The node [memory] added below [/cpu] of the sample tree. *)
Lemma add_item_node_found_witness :
  exists fdt',
    add_item sample_fdt (ItemNode (Node_new (str "memory"))) (str "/cpu") true
    = Ok fdt' /\
    exist_node fdt' (str "/cpu") = true /\
    exist_node fdt' (str "/cpu/memory") = true /\
    exists pos,
      get_node fdt' (str "/cpu/memory") false = Ok (fdt', Some pos) /\
      deref fdt' (Some pos) = Ok (Node_new (str "memory")).
Proof.
  exact (add_item_node_found sample_fdt sample_root (Node_new (str "memory"))
           (str "/cpu") eq_refl eq_refl eq_refl).
Defined.

(** [add_item(prop, path)]: when the node at the path has a property of
    that name the call raises [Exception]; otherwise, and when the path is
    not there yet, [get_property] finds the property at the path
    afterwards. *)
Theorem add_item_prop_found (fdt : FDT) (root : Node) (p : Property)
    (path : pystr) :
  root_node fdt = Some root ->
  match get_property fdt (prop_name p) path with
  | Ok (Some _) => add_item fdt (ItemProp p) path true = Raise BaseError
  | _ =>
      exists fdt',
        add_item fdt (ItemProp p) path true = Ok fdt' /\
        get_property fdt' (prop_name p) path = Ok (Some p)
  end.
Proof.
  intros Hroot.
  destruct (add_item_result fdt root (ItemProp p) path Hroot)
    as (s & pos & m & Hrun & Hm & Hadd & Hway & Hm').
  cbn [Node_append] in Hadd. unfold Node_append_prop in Hadd.
  assert (Hafter : Node_get_property m (prop_name p) = None ->
            exists fdt',
              add_item fdt (ItemProp p) path true = Ok fdt' /\
              get_property fdt' (prop_name p) path = Ok (Some p)).
  { intros Hnone. rewrite Hnone in Hadd.
    eexists. split; [exact Hadd|].
    unfold get_property, get_node. cbn [set_root root_node].
    rewrite Hway. cbn [mbind result_bind]. unfold deref. cbn [set_root root_node].
    rewrite Hm'. cbn [mbind result_bind]. f_equal.
    unfold Node_get_property in *. cbn [Node_with Node_with_prop props].
    destruct (list_find (fun q => prop_name q = prop_name p) (props m))
      as [[j q]|] eqn:Hfind; [discriminate Hnone|].
    apply list_find_None in Hfind.
    assert (Hp : list_find (fun q => prop_name q = prop_name p) (props m ++ [p])
                 = Some (length (props m), p)).
    { apply list_find_Some.
      split; [rewrite lookup_app_r, Nat.sub_diag by lia; reflexivity|].
      split; [reflexivity|].
      intros j d Hj Hlt. rewrite lookup_app_l in Hj by lia.
      exact (Forall_lookup_1 _ _ _ _ Hfind Hj). }
    rewrite Hp. reflexivity. }
  destruct (get_node_from_create_cases _ _ _ _ _ Hrun Hm)
    as [[Hfalse ->]|[[e Hfalse] [nm ->]]].
  - assert (Hget : get_property fdt (prop_name p) path
                   = Ok (Node_get_property m (prop_name p))).
    { unfold get_property, get_node. rewrite Hroot, Hfalse.
      cbn [mbind result_bind]. unfold deref. cbn [set_root root_node].
      rewrite Hm. reflexivity. }
    rewrite Hget.
    destruct (Node_get_property m (prop_name p)) as [q|] eqn:Hq; [exact Hadd|].
    apply Hafter. reflexivity.
  - assert (Hget : get_property fdt (prop_name p) path = Raise e).
    { unfold get_property, get_node. rewrite Hroot, Hfalse. reflexivity. }
    rewrite Hget. apply Hafter. reflexivity.
Qed.

(** A property added at a path that is not there yet, and one whose name
    the root of the sample tree has. *)
Lemma add_item_prop_found_witness :
  (exists fdt',
     add_item sample_fdt (ItemProp (PropEmpty (str "ranges"))) (str "soc") true
     = Ok fdt' /\
     get_property fdt' (str "ranges") (str "soc") = Ok (Some (PropEmpty (str "ranges")))).
Proof.
  exact (add_item_prop_found sample_fdt sample_root (PropEmpty (str "ranges"))
           (str "soc") eq_refl).
Defined.

(** [exist_property] asks [exist_node] first.  On a tree with a root node
    it never raises: for a path that is not there it returns False, where
    [get_property] raises [ValueError].  On a tree without a root node it
    returns False for every path but the empty one, for which it raises:
    [exist_node] holds there, and [get_node] returns None. *)
Theorem exist_property_answers (Node_exist_property : Node -> pystr -> bool)
    (fdt : FDT) (nm path : pystr) :
  match root_node fdt with
  | Some root =>
      is_ok (exist_property Node_exist_property fdt nm path) = true /\
      (exist_node fdt path = false ->
       exist_property Node_exist_property fdt nm path = Ok false /\
       get_property fdt nm path = Raise ValueError)
  | None =>
      exist_property Node_exist_property fdt nm path
      = match path_names path with
        | [] => Raise AttributeError
        | _ :: _ => Ok false
        end
  end.
Proof.
  unfold exist_property, get_property, exist_node, get_node.
  destruct (root_node fdt) as [root|] eqn:Hroot.
  - destruct (get_node_from false (path_names path) root) as [[root' pos]|e] eqn:Hrun;
      cbn [mbind result_bind is_ok].
    + apply get_node_from_found in Hrun as (-> & _ & _ & [n Hn] & _).
      unfold deref. cbn [set_root root_node]. rewrite Hn.
      split; [reflexivity|discriminate].
    + apply get_node_from_exn in Hrun as ->. auto.
  - destruct (path_names path); cbn [mbind result_bind is_ok]; [|reflexivity].
    unfold deref. rewrite Hroot. reflexivity.
Qed.

(** ** [walk] from a path, and [search] *)

(** [walk(path, relative)] visits the subtree of the node at [path]: one
    triple for each of its nodes, with the children and the properties of
    that node, the node at [path] first, each node before its descendants
    and the subtree of a later child before that of an earlier one,
    whatever [relative] is.  When [get_node(path)] raises, so does
    [walk]. *)
Theorem walk_visits_subtree (fdt : FDT) (root : Node) (path : pystr)
    (relative : bool) :
  root_node fdt = Some root ->
  match get_node fdt path false with
  | Ok (_, Some pos) =>
      exists n triples,
        node_at root pos = Some n /\
        walk_refs fdt path = Ok (map (app pos) (preorder_rev n)) /\
        walk fdt path relative = Ok triples /\
        length triples = node_count n /\
        Forall2 (fun q t => exists m, node_at n q = Some m /\
                                      t.1.2 = nodes m /\ t.2 = props m)
          (preorder_rev n) triples
  | Ok (_, None) => False
  | Raise e => walk fdt path relative = Raise e
  end.
Proof.
  intros Hroot. unfold walk, walk_refs.
  destruct (get_node fdt path false) as [[fdt' node]|e] eqn:Hget;
    cbn [mbind result_bind]; [|reflexivity].
  destruct (get_node_ok_inv fdt fdt' root path node Hroot Hget)
    as (pos & n & -> & Hn & _).
  rewrite Hroot, (walk_loop_enough root pos n Hn).
  assert (Hyield : Forall2 (fun q t => walk_yield root path relative (pos ++ q) = Some t)
                     (preorder_rev n)
                     (omap (walk_yield root path relative)
                        (map (app pos) (preorder_rev n)))).
  { rewrite <- (Forall2_fmap_l (app pos)
                  (fun q t => walk_yield root path relative q = Some t)).
    apply omap_Forall2, Forall_forall. intros q Hq.
    apply list_elem_of_fmap in Hq as (q' & -> & Hq').
    apply preorder_rev_elem in Hq' as [m Hm].
    unfold walk_yield. rewrite node_at_app, Hn. cbn [mbind option_bind].
    rewrite Hm. cbn. eauto. }
  exists n, (omap (walk_yield root path relative) (map (app pos) (preorder_rev n))).
  split; [exact Hn|]. split; [reflexivity|]. split; [reflexivity|]. split.
  - rewrite <- (Forall2_length _ _ _ Hyield). apply preorder_rev_length.
  - eapply Forall2_impl; [exact Hyield|]. cbn beta. intros q t.
    unfold walk_yield. rewrite node_at_app, Hn. cbn [mbind option_bind].
    destruct (node_at n q) as [m|]; cbn [mbind option_bind]; [|discriminate].
    intros [= <-]. exists m. auto.
Qed.

(** The subtree of [cpu] in the sample tree, walked with relative paths. *)
Lemma walk_visits_subtree_witness :
  exists n triples,
    node_at sample_root [0%nat] = Some n /\
    walk_refs sample_fdt (str "/cpu") = Ok (map (app [0%nat]) (preorder_rev n)) /\
    walk sample_fdt (str "/cpu") true = Ok triples /\
    length triples = node_count n /\
    Forall2 (fun q t => exists m, node_at n q = Some m /\
                                  t.1.2 = nodes m /\ t.2 = props m)
      (preorder_rev n) triples.
Proof.
  exact (walk_visits_subtree sample_fdt sample_root (str "/cpu") true eq_refl).
Defined.

(** [search] goes through the tree as [walk] does, and adds what each
    node has to offer. *)
Lemma search_loop_walk root nm itype fuel node stack items visited :
  walk_loop fuel root node stack = Some visited ->
  search_loop fuel root nm itype node stack items
  = Some (items ++ concat (map (search_node root nm itype) visited)).
Proof.
  revert node stack items visited.
  induction fuel as [|fuel IH]; intros node stack items visited; [discriminate|].
  cbn [walk_loop search_loop].
  destruct (pop (stack ++ children_refs root node)) as [[stack' next]|].
  - destruct (walk_loop fuel root next stack') as [rest|] eqn:Hrest; [|discriminate].
    cbn. intros [= <-]. rewrite (IH _ _ _ _ Hrest).
    cbn [map concat]. rewrite <- app_assoc. reflexivity.
  - intros [= <-]. cbn [map concat]. rewrite app_nil_r. reflexivity.
Qed.

Lemma search_loop_enough root nm itype pos n :
  node_at root pos = Some n ->
  search_loop (node_count root) root nm itype pos [] []
  = Some (search_result root nm itype pos).
Proof.
  intros Hn.
  rewrite (search_loop_walk root nm itype _ _ _ _ _ (walk_loop_enough root pos n Hn)).
  unfold search_result, sub_walk. rewrite Hn. reflexivity.
Qed.

(** The nodes of the subtree at [pos]. *)
Lemma elem_of_sub_walk root pos q :
  is_Some (node_at root pos) ->
  q ∈ sub_walk root pos <-> exists q', q = pos ++ q' /\ is_Some (node_at root q).
Proof.
  intros [n Hn]. unfold sub_walk. rewrite Hn. rewrite list_elem_of_fmap.
  split.
  - intros (q' & -> & Hq'). exists q'. split; [reflexivity|].
    rewrite node_at_app, Hn. apply preorder_rev_elem, Hq'.
  - intros (q' & -> & Hq). exists q'. split; [reflexivity|].
    apply preorder_rev_elem. rewrite node_at_app, Hn in Hq. exact Hq.
Qed.

Lemma elem_of_search_result root nm itype pos x :
  x ∈ search_result root nm itype pos <->
  exists q, q ∈ sub_walk root pos /\ x ∈ search_node root nm itype q.
Proof.
  unfold search_result. rewrite list_elem_of_In, in_concat. split.
  - intros (l & Hl & Hx). apply in_map_iff in Hl as (q & <- & Hq).
    exists q. rewrite !list_elem_of_In. auto.
  - intros (q & Hq & Hx). exists (search_node root nm itype q).
    rewrite in_map_iff. rewrite list_elem_of_In in Hq. rewrite list_elem_of_In in Hx.
    eauto.
Qed.

(** [search(name, itype, path)] returns, for [itype] NODE or BOTH, every
    node of the subtree at [path] whose name is [name], and no other node;
    for [itype] PROP or BOTH, every property of a node of that subtree
    whose name is [name], and no other property.  No node is returned
    twice.  When [get_node(path)] raises, so does [search]. *)
Theorem search_collects (fdt : FDT) (root : Node) (nm : pystr) (itype : Z)
    (path : pystr) :
  root_node fdt = Some root ->
  match get_node fdt path false with
  | Ok (_, Some pos) =>
      exists items,
        search fdt nm itype path = Ok items /\
        (forall q, FoundNode q ∈ items <->
           (itype = ItemType_NODE \/ itype = ItemType_BOTH) /\
           exists q' n, q = pos ++ q' /\ node_at root q = Some n /\ name n = nm) /\
        (forall q p, FoundProp q p ∈ items <->
           (itype = ItemType_PROP \/ itype = ItemType_BOTH) /\
           exists q' n, q = pos ++ q' /\ node_at root q = Some n /\
                        p ∈ props n /\ prop_name p = nm) /\
        NoDup (omap (fun x => match x with
                              | FoundNode q => Some q
                              | FoundProp _ _ => None
                              end) items)
  | Ok (_, None) => False
  | Raise e => search fdt nm itype path = Raise e
  end.
Proof.
  intros Hroot. unfold search.
  destruct (get_node fdt path false) as [[fdt' node]|e] eqn:Hget;
    cbn [mbind result_bind]; [|reflexivity].
  destruct (get_node_ok_inv fdt fdt' root path node Hroot Hget)
    as (pos & n0 & -> & Hn0 & _).
  rewrite Hroot, (search_loop_enough root nm itype pos n0 Hn0).
  exists (search_result root nm itype pos). split; [reflexivity|].
  assert (Hpos : is_Some (node_at root pos)) by eauto.
  split; [|split].
  - intros q. rewrite elem_of_search_result. split.
    + intros (q0 & Hq0 & Hx). apply (elem_of_sub_walk root pos q0 Hpos) in Hq0
        as (q' & -> & [n Hn]).
      unfold search_node in Hx. rewrite Hn in Hx.
      apply elem_of_app in Hx as [Hx|Hx].
      * destruct (_ || _)%bool eqn:Hty; [|inversion Hx].
        destruct (bool_decide (name n = nm)) eqn:Hname; [|inversion Hx].
        apply list_elem_of_singleton in Hx as [= ->].
        apply bool_decide_eq_true in Hname. split; [|eauto].
        apply orb_true_iff in Hty as [Hty|Hty]; apply Z.eqb_eq in Hty; auto.
      * destruct (_ || _)%bool; [|inversion Hx].
        apply list_elem_of_fmap in Hx as (p & [=] & _).
    + intros (Hty & q' & n & -> & Hn & Hname).
      exists (pos ++ q'). split; [apply elem_of_sub_walk; eauto|].
      unfold search_node. rewrite Hn. apply elem_of_app. left.
      replace ((itype =? ItemType_NODE) || (itype =? ItemType_BOTH))%Z with true.
      2:{ symmetry. apply orb_true_iff. rewrite !Z.eqb_eq. exact Hty. }
      rewrite bool_decide_eq_true_2 by exact Hname. apply list_elem_of_singleton.
      reflexivity.
  - intros q p. rewrite elem_of_search_result. split.
    + intros (q0 & Hq0 & Hx). apply (elem_of_sub_walk root pos q0 Hpos) in Hq0
        as (q' & -> & [n Hn]).
      unfold search_node in Hx. rewrite Hn in Hx.
      apply elem_of_app in Hx as [Hx|Hx].
      * destruct (_ || _)%bool; [|inversion Hx].
        destruct (bool_decide (name n = nm)); [|inversion Hx].
        apply list_elem_of_singleton in Hx. discriminate.
      * destruct (_ || _)%bool eqn:Hty; [|inversion Hx].
        apply list_elem_of_fmap in Hx as (p' & [= -> ->] & Hp).
        apply list_elem_of_filter in Hp as [Hname Hp].
        split; [|eauto 10].
        apply orb_true_iff in Hty as [Hty|Hty]; apply Z.eqb_eq in Hty; auto.
    + intros (Hty & q' & n & -> & Hn & Hp & Hname).
      exists (pos ++ q'). split; [apply elem_of_sub_walk; eauto|].
      unfold search_node. rewrite Hn. apply elem_of_app. right.
      replace ((itype =? ItemType_PROP) || (itype =? ItemType_BOTH))%Z with true.
      2:{ symmetry. apply orb_true_iff. rewrite !Z.eqb_eq. exact Hty. }
      apply list_elem_of_fmap. exists p. split; [reflexivity|].
      apply list_elem_of_filter. auto.
  - unfold search_result, sub_walk. rewrite Hn0.
    assert (Hsub : forall l : list position, NoDup l ->
              NoDup (omap (fun x => match x with
                                    | FoundNode q => Some q
                                    | FoundProp _ _ => None
                                    end)
                       (concat (map (search_node root nm itype) l)))).
    { intros l Hl. eapply sublist_NoDup; [exact Hl|].
      clear Hl. induction l as [|q l IH]; [constructor|].
      cbn [map concat]. rewrite omap_app.
      assert (Hq : omap (fun x => match x with
                                  | FoundNode q => Some q
                                  | FoundProp _ _ => None
                                  end) (search_node root nm itype q) = [q]
                   \/ omap (fun x => match x with
                                     | FoundNode q => Some q
                                     | FoundProp _ _ => None
                                     end) (search_node root nm itype q) = []).
      { unfold search_node. destruct (node_at root q) as [n|]; [|auto].
        rewrite omap_app.
        assert (Hprops : forall ps : list Property,
                  omap (fun x => match x with
                                 | FoundNode q => Some q
                                 | FoundProp _ _ => None
                                 end) (map (FoundProp q) ps) = []).
        { induction ps; cbn; auto. }
        destruct (_ || _)%bool, (_ || _)%bool;
          try destruct (bool_decide (name n = nm));
          cbn [omap list_omap app]; rewrite ?Hprops; auto. }
      destruct Hq as [-> | ->].
      - apply sublist_skip, IH.
      - apply sublist_cons, IH. }
    apply Hsub, NoDup_fmap_2; [|apply preorder_rev_NoDup].
    intros a b. apply app_inv_head.
Qed.

(** The name [bar] in the sample tree: no node, two properties. *)
Lemma search_collects_witness :
  exists items,
    search sample_fdt (str "bar") ItemType_BOTH [] = Ok items /\
    (forall q, FoundNode q ∈ items <->
       (ItemType_BOTH = ItemType_NODE \/ ItemType_BOTH = ItemType_BOTH) /\
       exists q' n, q = [] ++ q' /\ node_at sample_root q = Some n /\
                    name n = str "bar") /\
    (forall q p, FoundProp q p ∈ items <->
       (ItemType_BOTH = ItemType_PROP \/ ItemType_BOTH = ItemType_BOTH) /\
       exists q' n, q = [] ++ q' /\ node_at sample_root q = Some n /\
                    p ∈ props n /\ prop_name p = str "bar") /\
    NoDup (omap (fun x => match x with
                          | FoundNode q => Some q
                          | FoundProp _ _ => None
                          end) items).
Proof.
  exact (search_collects sample_fdt sample_root (str "bar") ItemType_BOTH []
           eq_refl).
Defined.

Example search_example :
  search sample_fdt (str "bar") ItemType_BOTH []
  = Ok [FoundProp [] (PropWords (str "bar") [1; 2; 3]%Z);
        FoundProp [0%nat] (PropEmpty (str "bar"))].
Proof. reflexivity. Qed.

(** In a tree whose root is named [/] and whose names are valid and
    distinct among siblings, every path that [walk] yields leads
    [get_node] back to the node the triple was yielded for. *)
Theorem walk_paths_found (fdt : FDT) (root : Node) :
  root_node fdt = Some root ->
  name root = str "/" ->
  wf_node root = true ->
  exists triples,
    walk fdt [] false = Ok triples /\
    Forall (fun t : walk_triple =>
              exists pos n,
                get_node fdt t.1.1 false = Ok (fdt, Some pos) /\
                node_at root pos = Some n /\
                t.1.2 = nodes n /\ t.2 = props n) triples.
Proof.
  intros Hroot Hname Hwf.
  destruct (walk_triples fdt root Hroot Hname Hwf) as (triples & Hwalk & Hall).
  exists triples. split; [exact Hwalk|].
  assert (Hid : set_root fdt (Some root) = fdt).
  { destruct fdt as [h es r]. cbn in *. subst r. reflexivity. }
  clear Hwalk.
  induction Hall as [|t v triples vs Ht _ IH]; [constructor|].
  constructor; [|exact IH].
  destruct Ht as (Hpath & Hnodes & Hprops & pos & Hway & Hnode).
  exists pos, v.2. unfold get_node. rewrite Hroot, Hpath, Hway.
  cbn [mbind result_bind]. rewrite Hid. auto.
Qed.

Lemma walk_paths_found_witness :
  exists triples,
    walk sample_fdt [] false = Ok triples /\
    Forall (fun t : walk_triple =>
              exists pos n,
                get_node sample_fdt t.1.1 false = Ok (sample_fdt, Some pos) /\
                node_at sample_root pos = Some n /\
                t.1.2 = nodes n /\ t.2 = props n) triples.
Proof.
  exact (walk_paths_found sample_fdt sample_root eq_refl eq_refl eq_refl).
Defined.

(** ** [merge]: the header and new reservation entries *)

(** The header after [merge] of two trees with root nodes.  A tree
    without version takes the header of the other tree, whole.  A tree
    with a version keeps its header as it is when the other tree has no
    version or none that is larger; otherwise the version goes through
    its setter.  Afterwards the version is the larger of the two.
    [merge] raises only when that setter does. *)
Theorem merge_picks_version `{HeadVersionPy} (self other : FDT)
    (mine theirs : Node) (replace : bool) :
  root_node self = Some mine ->
  root_node other = Some theirs ->
  (forall r, merge self other replace = Ok r ->
     (version (header self) = None -> header r = header other) /\
     (forall v, version (header self) = Some v ->
        (match version (header other) with
         | Some w => (w <= v)%Z
         | None => True
         end -> header r = header self) /\
        (forall w, version (header other) = Some w -> (v < w)%Z ->
           Header_set_version (header self) w = (header r, None)) /\
        version (header r)
        = Some (match version (header other) with
                | Some w => Z.max v w
                | None => v
                end))) /\
  (forall e, merge self other replace = Raise e ->
     exists v w,
       version (header self) = Some v /\ version (header other) = Some w /\
       (v < w)%Z /\ snd (Header_set_version (header self) w) = Some e).
Proof.
  intros Hmine Htheirs. unfold merge, merge_header. rewrite Hmine, Htheirs.
  destruct (version (header self)) as [v|] eqn:Hv.
  - destruct (version (header other)) as [w|] eqn:Hw.
    + destruct (v <? w)%Z eqn:Hlt.
      * apply Z.ltb_lt in Hlt.
        destruct (Header_set_version (header self) w) as [h [e|]] eqn:Hset.
        -- split; [discriminate|]. intros e' [= <-]. exists v, w. rewrite Hset. auto.
        -- split; [|discriminate]. intros r [= <-]. cbn [header].
           split; [discriminate|]. intros v' [= <-].
           split; [intros Hle; lia|]. split.
           ++ intros w' [= <-] _. exact Hset.
           ++ rewrite Z.max_r by lia. exact (Header_set_version_stores _ _ _ Hset).
      * apply Z.ltb_ge in Hlt. split; [|discriminate]. intros r [= <-].
        cbn [header]. split; [discriminate|]. intros v' [= <-].
        split; [reflexivity|]. split; [intros w' [= <-] Hlt'; lia|].
        rewrite Z.max_l by lia. exact Hv.
    + split; [|discriminate]. intros r [= <-]. cbn [header].
      split; [discriminate|]. intros v' [= <-].
      split; [reflexivity|]. split; [discriminate|]. exact Hv.
  - split; [|discriminate]. intros r [= <-]. cbn [header].
    split; [reflexivity|]. discriminate.
Qed.

(** A tree of version 17 merged into one of version 16. *)
Lemma merge_picks_version_witness :
  exists r,
    merge (mkFDT (with_version Header_new (Some 16%Z)) [] (Some sample_root))
      sample_fdt true = Ok r /\
    version (header r) = Some 17%Z.
Proof.
  eexists. split; [reflexivity|].
  destruct (merge_picks_version
              (mkFDT (with_version Header_new (Some 16%Z)) [] (Some sample_root))
              sample_fdt sample_root sample_root true eq_refl eq_refl) as [Hok _].
  destruct (Hok _ eq_refl) as [_ Hv].
  destruct (Hv 16%Z eq_refl) as (_ & _ & Hmax).
  exact Hmax.
Defined.

Lemma merge_entries_new self_entries in_entries :
  NoDup (map address in_entries) ->
  Forall (fun e => address e ∉ map address self_entries) in_entries ->
  merge_entries self_entries in_entries = self_entries ++ in_entries.
Proof.
  unfold merge_entries. revert self_entries.
  induction in_entries as [|b bs IH]; intros self_entries Hnd Hfresh.
  - cbn. rewrite app_nil_r. reflexivity.
  - cbn [foldl]. cbn [map] in Hnd. apply NoDup_cons in Hnd as [Hb Hnd].
    apply Forall_cons in Hfresh as [Hfb Hfresh].
    rewrite merge_entry_new.
    2:{ apply Forall_forall. intros e He Heq. apply Hfb. rewrite <- Heq.
        apply list_elem_of_fmap. eauto. }
    rewrite IH; [rewrite <- app_assoc; reflexivity|exact Hnd|].
    apply Forall_forall. intros e He. rewrite map_app. cbn [map].
    rewrite elem_of_app, list_elem_of_singleton. intros [Hin|Heq].
    + rewrite Forall_forall in Hfresh. exact (Hfresh e He Hin).
    + apply Hb. rewrite <- Heq. apply list_elem_of_fmap. eauto.
Qed.

(** Reservation entries of the other tree whose addresses are new, and
    differ from one another, are appended in their order, whatever their
    sizes; the entries the tree had stay as they are.  [merge] returns
    unless the setter of the version raises, which it then does too. *)
Theorem merge_appends_new_entries `{HeadVersionPy} (self other : FDT)
    (mine theirs : Node) (replace : bool) :
  root_node self = Some mine ->
  root_node other = Some theirs ->
  NoDup (map address (entries other)) ->
  Forall (fun e => address e ∉ map address (entries self)) (entries other) ->
  match merge_header (header self) (header other) with
  | (_, Some e) => merge self other replace = Raise e
  | (_, None) =>
      exists r,
        merge self other replace = Ok r /\
        entries r = entries self ++ entries other
  end.
Proof.
  intros Hmine Htheirs Hnd Hfresh. unfold merge. rewrite Hmine, Htheirs.
  destruct (merge_header (header self) (header other)) as [h [e|]]; [reflexivity|].
  eexists. split; [reflexivity|]. cbn [entries].
  apply merge_entries_new; assumption.
Qed.

Lemma merge_appends_new_entries_witness :
  exists r,
    merge (mkFDT Header_new [mkEntry 0x1000 0x10] (Some sample_root))
      sample_fdt true = Ok r /\
    entries r = [mkEntry 0x1000 0x10] ++ entries sample_fdt.
Proof.
  apply (merge_appends_new_entries
           (mkFDT Header_new [mkEntry 0x1000 0x10] (Some sample_root))
           sample_fdt sample_root sample_root true eq_refl eq_refl).
  - apply NoDup_singleton.
  - repeat constructor. cbn. intros H. apply list_elem_of_singleton in H.
    discriminate H.
Defined.

(** ** [to_dtb]: the layout of the blob, and the calls that raise *)

Lemma be_bytes_length n x : length (be_bytes n x) = n.
Proof. induction n as [|n IH]; cbn [be_bytes length]; [reflexivity|]. rewrite IH. reflexivity. Qed.

Lemma pack_be_Ok n x bs :
  pack_be n x = Ok bs ->
  bs = be_bytes n x /\ (0 <= x < 256 ^ Z.of_nat n)%Z.
Proof.
  unfold pack_be. destruct (_ && _)%bool eqn:Hr; [|discriminate].
  intros [= <-]. apply andb_true_iff in Hr as [H1 H2].
  apply Z.leb_le in H1. apply Z.ltb_lt in H2. auto.
Qed.

Lemma pack_be_Raise n x e :
  pack_be n x = Raise e ->
  e = StructError /\ ~ (0 <= x < 256 ^ Z.of_nat n)%Z.
Proof.
  unfold pack_be. destruct (_ && _)%bool eqn:Hr; [discriminate|].
  intros [= <-]. split; [reflexivity|].
  apply andb_false_iff in Hr as [H|H];
    [apply Z.leb_gt in H|apply Z.ltb_ge in H]; lia.
Qed.

Lemma pack_QQ_Ok a s bs :
  pack_QQ a s = Ok bs ->
  bs = be_bytes 8 a ++ be_bytes 8 s /\
  (0 <= a < 2 ^ 64)%Z /\ (0 <= s < 2 ^ 64)%Z.
Proof.
  unfold pack_QQ, mbind, result_bind.
  destruct (pack_be 8 a) as [x|] eqn:Ha; [|discriminate].
  destruct (pack_be 8 s) as [y|] eqn:Hs; [|discriminate].
  intros [= <-]. apply pack_be_Ok in Ha as [-> Ha]. apply pack_be_Ok in Hs as [-> Hs].
  change (256 ^ Z.of_nat 8)%Z with (2 ^ 64)%Z in *. auto.
Qed.

Lemma pack_QQ_Raise a s e :
  pack_QQ a s = Raise e ->
  e = StructError /\ ~ ((0 <= a < 2 ^ 64)%Z /\ (0 <= s < 2 ^ 64)%Z).
Proof.
  unfold pack_QQ, mbind, result_bind.
  destruct (pack_be 8 a) as [x|e1] eqn:Ha.
  - destruct (pack_be 8 s) as [y|e2] eqn:Hs; [discriminate|].
    intros [= <-]. apply pack_be_Raise in Hs as [-> Hs].
    change (256 ^ Z.of_nat 8)%Z with (2 ^ 64)%Z in *. split; [reflexivity|tauto].
  - intros [= <-]. apply pack_be_Raise in Ha as [-> Ha].
    change (256 ^ Z.of_nat 8)%Z with (2 ^ 64)%Z in *. split; [reflexivity|tauto].
Qed.

Lemma pack_entries_Ok es bs :
  pack_entries es = Ok bs ->
  len bs = (16 * len es)%Z /\ Forall entry_fits es.
Proof.
  revert bs. induction es as [|e es IH]; intros bs.
  - cbn. intros [= <-]. split; [reflexivity|constructor].
  - cbn [pack_entries]. unfold mbind, result_bind.
    destruct (pack_QQ (address e) (size e)) as [x|] eqn:He; [|discriminate].
    destruct (pack_entries es) as [rest|] eqn:Hes; [|discriminate].
    intros [= <-]. apply pack_QQ_Ok in He as (-> & Ha & Hs).
    destruct (IH rest eq_refl) as [Hlen Hall].
    split; [|constructor; [split; assumption|exact Hall]].
    unfold len in *. rewrite !length_app, !be_bytes_length. cbn [length]. lia.
Qed.

Lemma pack_entries_Raise es :
  Exists (fun e => ~ entry_fits e) es -> pack_entries es = Raise StructError.
Proof.
  induction es as [|e es IH]; intros Hex; [inversion Hex|].
  cbn [pack_entries]. unfold mbind, result_bind.
  destruct (pack_QQ (address e) (size e)) as [x|err] eqn:He.
  - apply pack_QQ_Ok in He as (_ & Ha & Hs).
    apply Exists_cons in Hex as [Hbad|Hex]; [exfalso; apply Hbad; split; assumption|].
    rewrite (IH Hex). reflexivity.
  - apply pack_QQ_Raise in He as [-> _]. reflexivity.
Qed.

(** The blob [to_dtb] returns and the header it leaves.  The structure
    block starts after the header and 16 bytes for each reservation entry
    and for the closing pair of zeros; the blob is as long as the header
    [export()] returned and the three blocks, which is [total_size] when
    the exported header has [header.size] bytes; and every entry fits in
    two 64-bit words. *)
Theorem to_dtb_blob_layout `{HeadVersionPy} `{HeadPy} `{ItemPy} (fdt fdt' : FDT)
    (ver lcv bcp : option Z) (blob : list byte) :
  to_dtb fdt ver lcv bcp = (fdt', Ok (Some blob)) ->
  exists v blob_header,
    version (header fdt') = Some v /\
    Header_export (header fdt') = Ok blob_header /\
    take (length blob_header) blob = blob_header /\
    off_dt_struct (header fdt') = (Header_size v + 16 * (len (entries fdt) + 1))%Z /\
    len blob = (len blob_header + (total_size (header fdt') - Header_size v))%Z /\
    Forall entry_fits (entries fdt).
Proof.
  intros Hrun.
  apply to_dtb_returns_blob in Hrun
    as (root & h0 & v & blob_entries & data & strings & data_pos & end_tag
        & blob_header & sbytes & Hrun).
  cbn zeta in Hrun.
  destruct Hrun as (Hroot & Hh0 & Hv & Hes & Hnode & Hend & -> & Hexp & Henc & ->).
  unfold mbind, result_bind in Hes.
  destruct (pack_entries (entries fdt)) as [es|] eqn:Hpack; [|discriminate].
  destruct (pack_QQ 0 0) as [z|] eqn:Hz; [|discriminate].
  injection Hes as <-.
  apply pack_entries_Ok in Hpack as [Hlen Hfit].
  apply pack_QQ_Ok in Hz as (-> & _).
  apply encode_ascii_length in Henc.
  exists v, blob_header. cbn [header set_header set_layout version off_dt_struct total_size].
  split; [exact Hv|]. split; [exact Hexp|].
  split; [apply take_app_length|].
  split; [|split; [|exact Hfit]].
  - unfold len in *. rewrite length_app, length_app, !be_bytes_length. lia.
  - unfold len in *. rewrite !length_app in *. rewrite !be_bytes_length in *. lia.
Qed.

(** The blob of the sample tree: 183 bytes, the structure block at 88. *)
Lemma to_dtb_blob_layout_witness :
  exists v blob_header,
    version (header (to_dtb sample_fdt None None None).1) = Some v /\
    Header_export (header (to_dtb sample_fdt None None None).1) = Ok blob_header /\
    take (length blob_header) sample_blob = blob_header /\
    off_dt_struct (header (to_dtb sample_fdt None None None).1)
    = (Header_size v + 16 * (len (entries sample_fdt) + 1))%Z /\
    len sample_blob
    = (len blob_header
       + (total_size (header (to_dtb sample_fdt None None None).1) - Header_size v))%Z /\
    Forall entry_fits (entries sample_fdt).
Proof.
  apply (to_dtb_blob_layout sample_fdt (to_dtb sample_fdt None None None).1
           None None None sample_blob).
  vm_compute. reflexivity.
Defined.

(** A call of [to_dtb] on a tree with a root node that raises.  When the
    setter of the version raises, [to_dtb] raises the same and the header
    is as the setter left it: the other two arguments are not stored.
    When it does not, the other two arguments are stored in the header
    all the same, and [to_dtb] raises [Exception] when no version is
    there afterwards, and [struct.error] when there is one and a
    reservation entry does not fit in two 64-bit words. *)
Theorem to_dtb_raises_after_update `{HeadVersionPy} `{HeadPy} `{ItemPy}
    (fdt : FDT) (root : Node) (ver lcv bcp : option Z) :
  root_node fdt = Some root ->
  (forall v h e, ver = Some v ->
     Header_set_version (header fdt) v = (h, Some e) ->
     to_dtb fdt ver lcv bcp = (set_header fdt h, Raise e)) /\
  (forall h, to_dtb_header (header fdt) ver lcv bcp = (h, None) ->
     (forall x, lcv = Some x -> last_comp_version h = x) /\
     (forall x, bcp = Some x -> boot_cpuid_phys h = x) /\
     (version h = None ->
      to_dtb fdt ver lcv bcp = (set_header fdt h, Raise BaseError)) /\
     (is_Some (version h) -> Exists (fun e => ~ entry_fits e) (entries fdt) ->
      to_dtb fdt ver lcv bcp = (set_header fdt h, Raise StructError))).
Proof.
  intros Hroot. unfold to_dtb, version_of. rewrite Hroot. split.
  - intros v h e -> Hset. unfold to_dtb_header. rewrite Hset. reflexivity.
  - intros h Hh. rewrite Hh.
    destruct (to_dtb_header_args _ _ _ _ _ Hh) as (_ & _ & Hl & Hb).
    split; [exact Hl|]. split; [exact Hb|]. split.
    + intros ->. reflexivity.
    + intros [v ->] Hbad. rewrite (pack_entries_Raise _ Hbad). reflexivity.
Qed.

(** A new tree has no version: [to_dtb(last_comp_version=16)] raises, and
    the header has the 16. *)
Lemma to_dtb_raises_after_update_witness :
  to_dtb (FDT_new None) None (Some 16%Z) None
  = (set_header (FDT_new None) (set_last_comp_version Header_new 16), Raise BaseError).
Proof.
  destruct (to_dtb_raises_after_update (FDT_new None) (Node_new (str "/"))
              None (Some 16%Z) None eq_refl) as [_ Hrest].
  destruct (Hrest (set_last_comp_version Header_new 16) eq_refl) as (_ & _ & Hnone & _).
  exact (Hnone eq_refl).
Defined.

(** ** The reservation block: written by [to_dtb], read by [parse_dtb] *)

Lemma Z_of_byte_of_Z z : Z_of_byte (byte_of_Z z) = (z mod 256)%Z.
Proof.
  unfold Z_of_byte, byte_of_Z.
  pose proof (Z.mod_pos_bound z 256 ltac:(lia)) as Hm.
  destruct (Byte.of_N (Z.to_N (z mod 256))) as [b|] eqn:Hb.
  - apply Byte.to_of_N in Hb. change (default x00 (Some b)) with b.
    rewrite Hb. lia.
  - apply Byte.of_N_None_iff in Hb. lia.
Qed.

Lemma be_value_from acc n x :
  foldl (fun acc b => (acc * 256 + Z_of_byte b)%Z) acc (be_bytes n x)
  = (acc * 256 ^ Z.of_nat n + x mod 256 ^ Z.of_nat n)%Z.
Proof.
  revert acc. induction n as [|n IH]; intros acc.
  - cbn [be_bytes foldl]. change (256 ^ Z.of_nat 0)%Z with 1%Z.
    rewrite Z.mod_1_r. lia.
  - cbn [be_bytes foldl]. rewrite IH, Z_of_byte_of_Z.
    rewrite Nat2Z.inj_succ, Z.pow_succ_r by lia.
    assert (Hp : (0 < 256 ^ Z.of_nat n)%Z) by (apply Z.pow_pos_nonneg; lia).
    rewrite (Z.mul_comm 256 (256 ^ Z.of_nat n)).
    rewrite (Z.rem_mul_r x (256 ^ Z.of_nat n) 256) by lia. lia.
Qed.

(** [unpack] of what [pack] made. *)
Lemma be_value_be_bytes n x :
  (0 <= x < 256 ^ Z.of_nat n)%Z -> be_value (be_bytes n x) = x.
Proof.
  intros Hx. unfold be_value. rewrite be_value_from.
  rewrite Z.mod_small by exact Hx. lia.
Qed.

Lemma unpack_pair_at n pre x y post :
  length x = n -> length y = n ->
  unpack_pair n (pre ++ x ++ y ++ post) (len pre) = Ok (be_value x, be_value y).
Proof.
  intros <- Hy. unfold unpack_pair, unpack_start, mbind, result_bind.
  replace (len pre <? 0)%Z with false by (symmetry; apply Z.ltb_ge; unfold len; lia).
  replace (len (pre ++ x ++ y ++ post) - len pre <? 2 * Z.of_nat (length x))%Z
    with false.
  2:{ symmetry. apply Z.ltb_ge. unfold len. rewrite !length_app. lia. }
  unfold len. rewrite Nat2Z.id, drop_app_length.
  rewrite take_app_length, drop_app_length.
  rewrite <- Hy, take_app_length. reflexivity.
Qed.

Lemma parse_entries_loop_packed es :
  forall fuel pre bs post offset index acc,
  pack_entries es = Ok bs ->
  Forall (fun e => address e <> 0%Z \/ size e <> 0%Z) es ->
  (offset + index)%Z = len pre ->
  (length es < fuel)%nat ->
  parse_entries_loop fuel (pre ++ bs ++ be_bytes 8 0 ++ be_bytes 8 0 ++ post)
    offset index acc
  = Ok (acc ++ es).
Proof.
  induction es as [|e es IH]; intros fuel pre bs post offset index acc Hpack Hnz Hpos Hfuel.
  - cbn in Hpack. injection Hpack as <-. cbn [app].
    destruct fuel as [|fuel]; [cbn in Hfuel; lia|].
    cbn [parse_entries_loop]. rewrite Hpos.
    rewrite (unpack_pair_at 8 pre (be_bytes 8 0) (be_bytes 8 0) post)
      by apply be_bytes_length.
    cbn [mbind result_bind]. rewrite app_nil_r. reflexivity.
  - cbn [pack_entries] in Hpack. unfold mbind, result_bind in Hpack.
    destruct (pack_QQ (address e) (size e)) as [x|] eqn:He; [|discriminate].
    destruct (pack_entries es) as [rest|] eqn:Hes; [|discriminate].
    injection Hpack as <-. apply pack_QQ_Ok in He as (-> & Ha & Hs).
    apply Forall_cons in Hnz as [Hnz0 Hnz].
    destruct fuel as [|fuel]; [cbn in Hfuel; lia|].
    cbn [parse_entries_loop]. rewrite Hpos.
    rewrite <- !app_assoc.
    rewrite (unpack_pair_at 8 pre (be_bytes 8 (address e)) (be_bytes 8 (size e)))
      by apply be_bytes_length.
    cbn [mbind result_bind].
    rewrite !be_value_be_bytes by (change (256 ^ Z.of_nat 8)%Z with (2 ^ 64)%Z; lia).
    replace ((address e =? 0) && (size e =? 0))%Z with false.
    2:{ symmetry. apply andb_false_iff. rewrite !Z.eqb_neq. exact Hnz0. }
    assert (Hpos' : (offset + (index + 16))%Z
                    = len (pre ++ be_bytes 8 (address e) ++ be_bytes 8 (size e))).
    { unfold len in *. rewrite !length_app, !be_bytes_length. lia. }
    assert (Hfuel' : (length es < fuel)%nat) by (cbn [length] in Hfuel; lia).
    pose proof (IH fuel (pre ++ be_bytes 8 (address e) ++ be_bytes 8 (size e))
                  rest post offset (index + 16)%Z
                  (acc ++ [mkEntry (address e) (size e)]) eq_refl Hnz Hpos' Hfuel')
      as IH'.
    rewrite <- !app_assoc in IH'. rewrite IH'.
    cbn [app]. destruct e. reflexivity.
Qed.

(** The reservation block that [to_dtb] writes for a list of entries,
    none of which is the pair of zeros, is read back by the first loop of
    [parse_dtb] as the same list, wherever the block stands in the data
    and whatever follows it. *)
Theorem parse_entries_of_packed (es : list Entry) (blob_entries pre post : list byte)
    (offset index : Z) :
  (bs ← pack_entries es; z ← pack_QQ 0 0; Ok (bs ++ z)) = Ok blob_entries ->
  Forall (fun e => address e <> 0%Z \/ size e <> 0%Z) es ->
  (offset + index)%Z = len pre ->
  parse_entries_loop (S (length (pre ++ blob_entries ++ post)))
    (pre ++ blob_entries ++ post) offset index []
  = Ok es.
Proof.
  unfold mbind, result_bind.
  destruct (pack_entries es) as [bs|] eqn:Hpack; [|discriminate].
  destruct (pack_QQ 0 0) as [z|] eqn:Hz; [|discriminate].
  intros [= <-] Hnz Hpos. apply pack_QQ_Ok in Hz as (-> & _).
  rewrite <- !app_assoc.
  apply (parse_entries_loop_packed es _ pre bs post offset index [] Hpack Hnz Hpos).
  apply pack_entries_Ok in Hpack as [Hlen _].
  unfold len in Hlen. rewrite !length_app. lia.
Qed.

(** The reservation block of the sample blob, behind its header. *)
Lemma parse_entries_of_packed_witness :
  parse_entries_loop (S (length sample_blob)) sample_blob 0 56 []
  = Ok (entries sample_fdt).
Proof.
  apply (parse_entries_of_packed (entries sample_fdt)
           (take 32 (drop 56 sample_blob)) (take 56 sample_blob)
           (drop 88 sample_blob) 0 56).
  - reflexivity.
  - constructor; [left; discriminate|constructor].
  - reflexivity.
Defined.

(** ** The parsers after the root node is closed *)

Lemma root_closed_begin b r nm :
  root_closed b r -> root_closed (builder_begin b nm) r.
Proof.
  destruct b as [root cur]. unfold builder_begin, root_closed. cbn.
  intros [-> Hcur]. destruct cur; cbn; auto; contradiction.
Qed.

Lemma root_closed_end b r : root_closed b r -> root_closed (builder_end b) r.
Proof.
  destruct b as [root cur]. unfold builder_end, root_closed. cbn.
  intros [-> Hcur]. destruct cur as [|pos|tree pos]; [auto|contradiction|].
  destruct pos; cbn; auto.
Qed.

Lemma root_closed_prop b r p b' :
  builder_prop b p = Ok b' -> root_closed b r -> root_closed b' r.
Proof.
  destruct b as [root cur]. unfold builder_prop, root_closed. cbn.
  intros Hrun [-> Hcur]. destruct cur as [|pos|tree pos]; [|contradiction|].
  - injection Hrun as <-. cbn. auto.
  - destruct (update_at_M _ tree pos); cbn in Hrun; [|discriminate].
    injection Hrun as <-. cbn. auto.
Qed.

Lemma parse_dts_line_closed fs root_dir b r line b' :
  root_closed b r -> parse_dts_line fs root_dir b line = Ok b' -> root_closed b' r.
Proof.
  intros Hb. unfold parse_dts_line.
  destruct (endswith (str "{") line).
  { destruct (split_ws line); [discriminate|].
    intros [= <-]. apply root_closed_begin, Hb. }
  destruct (endswith (str "}") line).
  { intros [= <-]. apply root_closed_end, Hb. }
  destruct (parse_dts_property fs root_dir line) as [p|]; cbn [mbind result_bind];
    [|discriminate].
  destruct (has_current b); [|intros [= <-]; exact Hb].
  intros Hrun. exact (root_closed_prop _ _ _ _ Hrun Hb).
Qed.

Lemma parse_dts_nodes_closed fs root_dir lines b r b' :
  root_closed b r -> parse_dts_nodes fs root_dir lines b = Ok b' -> root_closed b' r.
Proof.
  revert b. induction lines as [|line lines IH]; intros b Hb.
  - cbn. intros [= <-]. exact Hb.
  - cbn [parse_dts_nodes].
    destruct (parse_dts_line fs root_dir b line) as [b1|] eqn:Hline;
      cbn [mbind result_bind]; [|discriminate].
    apply IH. eapply parse_dts_line_closed; eassumption.
Qed.

(** Once the statements of a text have closed the root node, what
    follows adds nothing to the tree [parse_dts] returns and changes
    nothing in it: a second top-level node, with all it holds, is parsed
    and dropped. *)
Theorem parse_dts_after_root `{HeadVersionPy} `{MiscPy} (fs : FileSystem) (text root_dir : pystr)
    (before after : list pystr) (b : builder) (r : Node) (fdt : FDT) :
  dts_lines text = before ++ after ->
  parse_dts_nodes fs root_dir before builder_init = Ok b ->
  b_root b = Some r ->
  b_cur b = AtNone ->
  parse_dts fs text root_dir = Ok fdt ->
  root_node fdt = Some r.
Proof.
  intros Hlines Hbefore Hroot Hcur. unfold parse_dts. rewrite Hlines.
  destruct (hinted_header _) as [h [e|]]; [discriminate|].
  destruct (parse_dts_entries _ _) as [es|]; cbn [mbind result_bind]; [|discriminate].
  rewrite parse_dts_nodes_app, Hbefore. cbn [mbind result_bind].
  destruct (parse_dts_nodes fs root_dir after b) as [b'|] eqn:Hafter;
    cbn [mbind result_bind]; [|discriminate].
  intros [= <-]. cbn [root_node].
  assert (Hb : root_closed b r) by (split; [exact Hroot|rewrite Hcur; exact I]).
  exact (proj1 (parse_dts_nodes_closed _ _ _ _ _ _ Hb Hafter)).
Qed.

(** A text with two top-level nodes. *)
Lemma parse_dts_after_root_witness :
  root_node <$> parse_dts no_files (str "/ { a; }; / { b; c { d; }; };") []
  = Ok (Some (mkNode (str "/") [PropEmpty (str "a")] [])).
Proof.
  destruct (parse_dts no_files (str "/ { a; }; / { b; c { d; }; };") [])
    as [fdt|e] eqn:Hrun; [|vm_compute in Hrun; discriminate Hrun].
  cbn [fmap result_fmap]. f_equal.
  exact (parse_dts_after_root no_files (str "/ { a; }; / { b; c { d; }; };") []
           [str "/ {"; str "a"; str "}"]
           [str "/ {"; str "b"; str "c {"; str "d"; str "}"; str "}"]
           (mkBuilder (Some (mkNode (str "/") [PropEmpty (str "a")] [])) AtNone)
           (mkNode (str "/") [PropEmpty (str "a")] []) fdt
           eq_refl eq_refl eq_refl eq_refl Hrun).
Defined.

(** The same for the loop of [parse_dtb] over the structure block: from a
    round on at which the root node is closed, the loop leaves the root
    node as it is, whatever tags follow. *)
Theorem parse_dtb_after_root `{ItemPy} `{MiscPy} (fuel : nat) (data : list byte)
    (offset : Z) (hdr : Header) (index : Z) (b b' : builder) (r : Node) :
  root_closed b r ->
  parse_nodes_loop fuel data offset hdr index b = Ok b' ->
  b_root b' = Some r.
Proof.
  revert index b. induction fuel as [|fuel IH]; intros index b Hb; [discriminate|].
  cbn [parse_nodes_loop].
  destruct (parse_nodes_step data offset hdr index b) as [[index1 b1|]|] eqn:Hstep;
    cbn [mbind result_bind]; [| |discriminate].
  - apply IH. revert Hstep. unfold parse_nodes_step, mbind, result_bind.
    destruct (_ <? _)%Z; [discriminate|].
    destruct (unpack_be 4 data (offset + index)) as [tag|]; [|discriminate].
    destruct (tag =? DTB_BEGIN_NODE)%Z.
    { destruct (extract_string _ _); [|discriminate].
      intros [= _ <-]. apply root_closed_begin, Hb. }
    destruct (tag =? DTB_END_NODE)%Z.
    { intros [= _ <-]. apply root_closed_end, Hb. }
    destruct (tag =? DTB_PROP)%Z.
    { destruct (unpack_pair 4 data _) as [[prop_size nameoff]|]; [|discriminate].
      destruct (version hdr); [|discriminate].
      destruct (extract_string _ _); [|discriminate].
      destruct (has_current b); [|intros [= _ <-]; exact Hb].
      destruct (new_property _ _); [|discriminate].
      destruct (builder_prop b _) eqn:Hprop; [|discriminate].
      intros [= _ <-]. exact (root_closed_prop _ _ _ _ Hprop Hb). }
    destruct (tag =? DTB_END)%Z; discriminate.
  - intros [= <-]. exact (proj1 Hb).
Qed.

(** The rounds after the first node of [two_nodes_struct]. *)
Lemma parse_dtb_after_root_witness :
  b_root <$> parse_nodes_loop 8 two_nodes_struct 0
               (with_version Header_new (Some 17%Z)) 12
               (mkBuilder (Some (Node_new (str "/"))) AtNone)
  = Ok (Some (Node_new (str "/"))).
Proof.
  destruct (parse_nodes_loop 8 two_nodes_struct 0
              (with_version Header_new (Some 17%Z)) 12
              (mkBuilder (Some (Node_new (str "/"))) AtNone))
    as [b'|e] eqn:Hrun; [|vm_compute in Hrun; discriminate Hrun].
  cbn [fmap result_fmap]. f_equal.
  exact (parse_dtb_after_root 8 two_nodes_struct 0
           (with_version Header_new (Some 17%Z)) 12
           (mkBuilder (Some (Node_new (str "/"))) AtNone) b' (Node_new (str "/"))
           (conj eq_refl I) Hrun).
Defined.

Example parse_two_nodes :
  b_root <$> parse_nodes_loop 8 two_nodes_struct 0
               (with_version Header_new (Some 17%Z)) 0 builder_init
  = Ok (Some (Node_new (str "/"))).
Proof. vm_compute. reflexivity. Qed.

(** ** [parse_dts]: the statements before the first node, and the root *)

Lemma parse_dts_entries_stop before opener after acc :
  Forall (fun l => endswith (str "{") l = false) before ->
  endswith (str "{") opener = true ->
  parse_dts_entries (before ++ opener :: after) acc = parse_dts_entries before acc.
Proof.
  intros Hbefore Hopener. revert acc.
  induction Hbefore as [|l before Hl _ IH]; intros acc.
  - cbn [app parse_dts_entries]. rewrite Hopener. reflexivity.
  - cbn [app parse_dts_entries]. rewrite Hl.
    destruct (startswith (str "/memreserve/") l); [|apply IH].
    destruct (memreserve_entry l); cbn [mbind result_bind]; [apply IH|reflexivity].
Qed.

(** Once there is a root node, its name stays. *)
Lemma root_named_begin b nm x : root_named b nm -> root_named (builder_begin b x) nm.
Proof.
  destruct b as [root cur]. unfold builder_begin, root_named. cbn.
  intros (r & -> & Hname). destruct cur; cbn; eauto.
  eexists. split; [reflexivity|]. rewrite update_at_name; auto.
Qed.

Lemma root_named_end b nm : root_named b nm -> root_named (builder_end b) nm.
Proof.
  destruct b as [root cur]. unfold builder_end, root_named. cbn.
  intros (r & -> & Hname). destruct cur as [|[|i pos]|tree [|i pos]]; cbn; eauto.
Qed.

Lemma update_at_M_name f n pos n' :
  (forall x x', f x = Ok x' -> name x' = name x) ->
  update_at_M f n pos = Ok n' -> name n' = name n.
Proof.
  intros Hf. destruct pos as [|i pos]; cbn [update_at_M]; [apply Hf|].
  destruct (nodes n !! i); [|intros [= <-]; reflexivity].
  destruct (update_at_M f _ pos); cbn [mbind result_bind]; [|discriminate].
  intros [= <-]. reflexivity.
Qed.

Lemma Node_append_prop_name p x x' :
  Node_append_prop x p = Ok x' -> name x' = name x.
Proof.
  unfold Node_append_prop. destruct (Node_get_property x (prop_name p)); [discriminate|].
  intros [= <-]. reflexivity.
Qed.

Lemma root_named_prop b nm p b' :
  builder_prop b p = Ok b' -> root_named b nm -> root_named b' nm.
Proof.
  destruct b as [root cur]. unfold builder_prop, root_named. cbn.
  intros Hrun (r & -> & Hname). destruct cur as [|pos|tree pos].
  - injection Hrun as <-. cbn. eauto.
  - destruct (update_at_M _ r pos) as [r'|] eqn:Hup; cbn in Hrun; [|discriminate].
    injection Hrun as <-. cbn. eexists. split; [reflexivity|].
    rewrite (update_at_M_name _ _ _ _ (Node_append_prop_name p) Hup). exact Hname.
  - destruct (update_at_M _ tree pos); cbn in Hrun; [|discriminate].
    injection Hrun as <-. cbn. eauto.
Qed.

Lemma parse_dts_nodes_named fs root_dir lines b nm b' :
  root_named b nm -> parse_dts_nodes fs root_dir lines b = Ok b' -> root_named b' nm.
Proof.
  revert b. induction lines as [|line lines IH]; intros b Hb.
  - cbn. intros [= <-]. exact Hb.
  - cbn [parse_dts_nodes].
    destruct (parse_dts_line fs root_dir b line) as [b1|] eqn:Hline;
      cbn [mbind result_bind]; [|discriminate].
    apply IH. revert Hline. unfold parse_dts_line.
    destruct (endswith (str "{") line).
    { destruct (split_ws line); [discriminate|].
      intros [= <-]. apply root_named_begin, Hb. }
    destruct (endswith (str "}") line).
    { intros [= <-]. apply root_named_end, Hb. }
    destruct (parse_dts_property fs root_dir line) as [p|]; cbn [mbind result_bind];
      [|discriminate].
    destruct (has_current b); [|intros [= <-]; exact Hb].
    intros Hrun. exact (root_named_prop _ _ _ _ Hrun Hb).
Qed.

(** The tree [parse_dts] returns for a text with a node opener.  Its
    reservation entries are those of the [/memreserve/] statements before
    the first opener, in order: such a statement further down adds none.
    Its root node is the node of the first opener, named by the first word
    of that line, whatever the name is; nothing the text has before the
    opener is in the tree. *)
Theorem parse_dts_first_node `{HeadVersionPy} `{MiscPy} (fs : FileSystem)
    (text root_dir : pystr) (before after : list pystr) (opener : pystr) (fdt : FDT) :
  dts_lines text = before ++ opener :: after ->
  Forall (fun l => endswith (str "{") l = false) before ->
  endswith (str "{") opener = true ->
  parse_dts fs text root_dir = Ok fdt ->
  Forall2 (fun l e => memreserve_entry l = Ok e)
    (memreserve_lines before) (entries fdt) /\
  exists r, root_node fdt = Some r /\ head (split_ws opener) = Some (name r).
Proof.
  intros Hlines Hbefore Hopener. unfold parse_dts. rewrite Hlines.
  destruct (hinted_header _) as [h [e|]]; [discriminate|].
  rewrite (parse_dts_entries_stop before opener after [] Hbefore Hopener).
  destruct (parse_dts_entries before []) as [es|] eqn:Hes;
    cbn [mbind result_bind]; [|discriminate].
  rewrite parse_dts_nodes_app.
  destruct (parse_dts_nodes fs root_dir before builder_init) as [b0|] eqn:Hb0;
    cbn [mbind result_bind]; [|discriminate].
  apply (proj1 (parse_dts_nodes_no_opener fs root_dir before builder_init
                  Hbefore eq_refl)) in Hb0 as [-> _].
  cbn [parse_dts_nodes]. unfold parse_dts_line at 1. rewrite Hopener.
  destruct (split_ws opener) as [|node_name rest] eqn:Hsplit;
    cbn [mbind result_bind]; [discriminate|].
  destruct (parse_dts_nodes fs root_dir after _) as [b|] eqn:Hb;
    cbn [mbind result_bind]; [|discriminate].
  intros [= <-]. cbn [entries root_node]. split.
  - destruct (proj1 (parse_dts_entries_no_opener before [] Hbefore) es Hes)
      as (es' & -> & Hall). exact Hall.
  - assert (Hnamed : root_named (builder_begin builder_init node_name) node_name).
    { exists (Node_new node_name). split; reflexivity. }
    destruct (parse_dts_nodes_named _ _ _ _ _ _ Hnamed Hb) as (r & Hr & Hname).
    exists r. rewrite Hname. auto.
Qed.

(** A [/memreserve/] statement before the node and one inside it. *)
Lemma parse_dts_first_node_witness :
  exists fdt,
    parse_dts no_files (str "/memreserve/ 1 2; soc { /memreserve/ 3 4; };") []
    = Ok fdt /\
    Forall2 (fun l e => memreserve_entry l = Ok e)
      (memreserve_lines [str "/memreserve/ 1 2"]) (entries fdt) /\
    exists r, root_node fdt = Some r /\
              head (split_ws (str "soc {")) = Some (name r).
Proof.
  destruct (parse_dts no_files
              (str "/memreserve/ 1 2; soc { /memreserve/ 3 4; };") [])
    as [fdt|e] eqn:Hrun; [|vm_compute in Hrun; discriminate Hrun].
  exists fdt. split; [reflexivity|].
  exact (parse_dts_first_node no_files
           (str "/memreserve/ 1 2; soc { /memreserve/ 3 4; };") []
           [str "/memreserve/ 1 2"]
           [str "/memreserve/ 3 4"; str "}"] (str "soc {") fdt
           eq_refl ltac:(repeat constructor) eq_refl Hrun).
Defined.

Example parse_dts_memreserve_inside :
  parse_dts no_files (str "/memreserve/ 1 2; soc { /memreserve/ 3 4; };") []
  = Ok (mkFDT Header_new [mkEntry 1 2]
          (Some (mkNode (str "soc") [PropEmpty (str "/memreserve/ 3 4")] []))).
Proof. vm_compute. reflexivity. Qed.

(** ** [parse_dts]: [/incbin/] with an offset *)

Lemma split_from_length sep skip cur s :
  (1 <= length (split_from sep skip cur s))%nat.
Proof.
  revert skip cur. induction s as [|c s IH]; intros skip cur; cbn [split_from].
  - cbn. lia.
  - destruct skip; [|apply IH].
    destruct (startswith sep (c :: s)); [cbn [length]; lia|apply IH].
Qed.

(** A string with a comma is split in two parts at least. *)
Lemma split_comma_length cur s :
  char_in COMMA s = true ->
  (1 < length (split_from (str ",") 0 cur s))%nat.
Proof.
  revert cur. induction s as [|c s IH]; intros cur; [discriminate|].
  unfold char_in. cbn [existsb split_from].
  change (startswith (str ",") (c :: s)) with (ascii_eqb COMMA c && true).
  destruct (ascii_eqb COMMA c); cbn [orb andb].
  - intros _. cbn [length].
    pose proof (split_from_length (str ",") (length (str ",") - 1) [] s). lia.
  - intros Hs. apply IH, Hs.
Qed.

(** Taking out a text without a comma keeps the commas. *)
Lemma replace_keeps_comma old s :
  old <> [] -> char_in COMMA old = false ->
  forall skip, char_in COMMA (drop skip s) = true ->
               char_in COMMA (replace_from old [] skip s) = true.
Proof.
  intros Hne Hold. induction s as [|c s IH]; intros skip.
  - rewrite drop_nil. discriminate.
  - destruct skip as [|k]; cbn [replace_from drop].
    + destruct (startswith old (c :: s)) eqn:Hstart.
      * intros Hin. cbn [app]. apply IH.
        apply startswith_app in Hstart. rewrite Hstart in Hin.
        unfold char_in in Hin. rewrite existsb_app in Hin.
        fold (char_in COMMA old) in Hin. rewrite Hold in Hin. cbn [orb] in Hin.
        destruct old as [|o old]; [congruence|].
        cbn [length drop Nat.sub] in *. rewrite Nat.sub_0_r. exact Hin.
      * unfold char_in. cbn [existsb]. intros Hin.
        apply orb_true_iff in Hin as [Hc|Hs]; [rewrite Hc; reflexivity|].
        apply orb_true_iff. right. apply (IH 0%nat). exact Hs.
    + apply IH.
Qed.

Lemma parse_incbin_offset fs root_dir prop_name prop_value :
  char_in COMMA prop_value = true ->
  parse_incbin fs root_dir prop_name prop_value = Raise AttributeError.
Proof.
  intros Hcomma. unfold parse_incbin.
  set (value := replace _ [] (replace _ [] prop_value)).
  assert (Hvalue : char_in COMMA value = true).
  { unfold value, replace.
    apply replace_keeps_comma; [discriminate|reflexivity|].
    apply replace_keeps_comma; [discriminate|reflexivity|].
    exact Hcomma. }
  pose proof (split_comma_length [] value Hvalue) as Hlen.
  unfold split.
  destruct (1 <? length (split_from (str ",") 0 [] value))%nat eqn:Hlt; [reflexivity|].
  apply Nat.ltb_ge in Hlt. lia.
Qed.

Lemma parse_dts_line_incbin fs root_dir b line :
  incbin_with_offset line = true ->
  parse_dts_line fs root_dir b line = Raise AttributeError.
Proof.
  unfold incbin_with_offset, parse_dts_line, parse_dts_property.
  destruct (endswith (str "{") line); [discriminate|].
  destruct (endswith (str "}") line); [discriminate|]. cbn [negb andb].
  destruct (partition (ascii_of_nat 61) line) as [[l0 l1]|]; [|discriminate].
  intros Hline. apply andb_true_iff in Hline as [Hstart Hcomma].
  destruct (lstrip (str " ") l1) as [|c value] eqn:Hvalue; [discriminate|].
  assert (Hc : c = "/"%char).
  { change (startswith (str "/incbin/") (c :: value))
      with (ascii_eqb "/"%char c && startswith (str "incbin/") value) in Hstart.
    apply andb_true_iff in Hstart as [Hc _]. symmetry. apply ascii_eqb_eq, Hc. }
  subst c.
  change (startswith (str "<") ("/"%char :: value)) with false.
  change (startswith (str "[") ("/"%char :: value)) with false.
  cbn iota. rewrite Hstart.
  rewrite (parse_incbin_offset _ _ _ _ Hcomma). reflexivity.
Qed.

(** [parse_dts] returns no tree for a text with an [/incbin/] statement
    that names an offset or a size after the file: the statement raises,
    [AttributeError] when nothing before it raised, whether the file is
    there or not. *)
Theorem parse_dts_incbin_offset `{HeadVersionPy} `{MiscPy} (fs : FileSystem)
    (text root_dir : pystr) (before after : list pystr) (line : pystr) :
  dts_lines text = before ++ line :: after ->
  incbin_with_offset line = true ->
  (forall fdt, parse_dts fs text root_dir <> Ok fdt) /\
  (snd (hinted_header (get_version_info text)) = None ->
   is_ok (parse_dts_entries (dts_lines text) []) = true ->
   is_ok (parse_dts_nodes fs root_dir before builder_init) = true ->
   parse_dts fs text root_dir = Raise AttributeError).
Proof.
  intros Hlines Hline.
  assert (Hnodes : forall b, parse_dts_nodes fs root_dir (line :: after) b
                             = Raise AttributeError).
  { intros b. cbn [parse_dts_nodes].
    rewrite (parse_dts_line_incbin _ _ _ _ Hline). reflexivity. }
  unfold parse_dts. rewrite Hlines. rewrite !parse_dts_nodes_app.
  destruct (hinted_header _) as [h [e|]];
    [split; [discriminate|intros [=]]|].
  split.
  - intros fdt.
    destruct (parse_dts_entries _ _); cbn [mbind result_bind]; [|discriminate].
    destruct (parse_dts_nodes fs root_dir before builder_init);
      cbn [mbind result_bind]; [|discriminate].
    rewrite Hnodes. discriminate.
  - intros _.
    destruct (parse_dts_entries _ _); cbn [mbind result_bind]; [|discriminate].
    destruct (parse_dts_nodes fs root_dir before builder_init);
      cbn [mbind result_bind]; [|discriminate].
    intros _ _. rewrite Hnodes. reflexivity.
Qed.

(** The file is there, and the statement asks for its bytes from 4 on. *)
Lemma parse_dts_incbin_offset_witness :
  parse_dts (fun _ => Some [x00; x01; x02; x03; x04; x05])
    (str "/ { blob = /incbin/(" ++ DQUOTE :: str "fw.bin" ++ DQUOTE
       :: str ", 4); };") []
  = Raise AttributeError.
Proof.
  apply (parse_dts_incbin_offset (fun _ => Some [x00; x01; x02; x03; x04; x05]) _ []
           [str "/ {"] [str "}"]
           (str "blob = /incbin/(" ++ DQUOTE :: str "fw.bin" ++ DQUOTE
              :: str ", 4)"));
    reflexivity.
Defined.

(** ** [diff]: the headers and the reservation entries of the result *)

Lemma entry_eqb_eq a b : entry_eqb a b = true <-> a = b.
Proof.
  unfold entry_eqb. rewrite andb_true_iff, !Z.eqb_eq.
  destruct a, b; cbn. split; [intros [-> ->]; reflexivity|intros [= -> ->]; auto].
Qed.

Lemma existsb_entry_elem a es : existsb (entry_eqb a) es = true <-> a ∈ es.
Proof.
  rewrite existsb_exists, list_elem_of_In. split.
  - intros (b & Hb & Heq). apply entry_eqb_eq in Heq as ->. exact Hb.
  - intros Ha. exists a. split; [exact Ha|apply entry_eqb_refl].
Qed.

Lemma filter_ext_elem {A} (P Q : A -> Prop) `{!forall x, Decision (P x)}
    `{!forall x, Decision (Q x)} (l : list A) :
  (forall x, x ∈ l -> (P x <-> Q x)) -> filter P l = filter Q l.
Proof.
  induction l as [|x l IH]; intros Hext; [reflexivity|].
  rewrite !filter_cons.
  assert (Hx : P x <-> Q x) by (apply Hext; left).
  rewrite IH by (intros y Hy; apply Hext; right; exact Hy).
  destruct (decide (P x)), (decide (Q x)); tauto.
Qed.

(** The entries that are the same are those of the first tree that occur
    in the second, whether a list is empty or not. *)
Lemma diff_same_entries_filter (es1 es2 : list Entry) :
  diff_same_entries es1 es2 = filter (fun e => e ∈ es2) es1.
Proof.
  unfold diff_same_entries. destruct es1 as [|a es1]; [reflexivity|].
  destruct es2 as [|b es2].
  - symmetry. apply filter_none, Forall_forall. intros x _ Hx. inversion Hx.
  - apply filter_ext_elem. intros x _. apply existsb_entry_elem.
Qed.

Lemma diff_only_entries_filter (es other : list Entry) :
  diff_only_entries es (filter (fun e => e ∈ other) es)
  = filter (fun e => e ∉ other) es.
Proof.
  unfold diff_only_entries. apply filter_ext_elem. intros x Hx.
  rewrite <- not_true_iff_false, existsb_entry_elem, list_elem_of_filter. tauto.
Qed.

Lemma diff_only_entries_filter_r (es other : list Entry) :
  diff_only_entries es (filter (fun e => e ∈ es) other)
  = filter (fun e => e ∉ other) es.
Proof.
  unfold diff_only_entries. apply filter_ext_elem. intros x Hx.
  rewrite <- not_true_iff_false, existsb_entry_elem, list_elem_of_filter. tauto.
Qed.

(** [add_item] touches the nodes only. *)
Lemma add_item_frame fdt obj path create fdt' :
  add_item fdt obj path create = Ok fdt' ->
  header fdt' = header fdt /\ entries fdt' = entries fdt.
Proof.
  unfold add_item, get_node.
  destruct (root_node fdt) as [root|].
  - destruct (get_node_from create (path_names path) root) as [[root' pos]|];
      cbn [mbind result_bind]; [|discriminate].
    cbn [set_root root_node].
    destruct (update_at_M _ root' pos); cbn [mbind result_bind]; [|discriminate].
    intros [= <-]. auto.
  - destruct (path_names path); cbn [mbind result_bind]; [|discriminate].
    destruct (root_node fdt); discriminate.
Qed.

Lemma foldM_frame {A S} (I : S -> S -> Prop) (f : S -> A -> result S) :
  (forall s, I s s) ->
  (forall s0 s x s', I s0 s -> f s x = Ok s' -> I s0 s') ->
  forall l s s', foldM f s l = Ok s' -> I s s'.
Proof.
  intros Hrefl Hstep l s s'.
  assert (Hgen : forall s0 s, I s0 s -> foldM f s l = Ok s' -> I s0 s').
  { induction l as [|x l IH]; intros s0 s1 Hs; cbn [foldM].
    - intros [= <-]. exact Hs.
    - destruct (f s1 x) as [s2|] eqn:Hf; cbn [mbind result_bind]; [|discriminate].
      apply IH. eapply Hstep; eassumption. }
  apply Hgen, Hrefl.
Qed.

Lemma diff_step_a_frame fdt2 st t st' :
  diff_step_a fdt2 st t = Ok st' ->
  header st'.1 = header st.1 /\ entries st'.1 = entries st.1 /\
  header st'.2 = header st.2 /\ entries st'.2 = entries st.2.
Proof.
  destruct t as [[path nodes] props]. unfold diff_step_a.
  set (I := fun s0 s : FDT * FDT =>
              header s.1 = header s0.1 /\ entries s.1 = entries s0.1 /\
              header s.2 = header s0.2 /\ entries s.2 = entries s0.2).
  destruct (foldM _ st nodes) as [st1|] eqn:H1; cbn [mbind result_bind]; [|discriminate].
  intros H2.
  assert (Hst1 : I st st1).
  { revert H1. apply (foldM_frame I); [unfold I; auto|].
    intros s0 [s a] x s' Hs. destruct (lacks_subnode _ _).
    - destruct (add_item a _ path true) as [a'|] eqn:Ha; cbn [mbind result_bind];
        [|discriminate].
      intros [= <-]. apply add_item_frame in Ha as [Hh He].
      unfold I in *. cbn [fst snd] in *. rewrite Hh, He. tauto.
    - destruct (add_item s _ path true) as [s1|] eqn:Ha; cbn [mbind result_bind];
        [|discriminate].
      intros [= <-]. apply add_item_frame in Ha as [Hh He].
      unfold I in *. cbn [fst snd] in *. rewrite Hh, He. tauto. }
  assert (Hst' : I st1 st').
  { revert H2. apply (foldM_frame I); [unfold I; auto|].
    intros s0 [s a] x s' Hs. destruct (has_equal_property _ _).
    - destruct (add_item s _ path true) as [s1|] eqn:Ha; cbn [mbind result_bind];
        [|discriminate].
      intros [= <-]. apply add_item_frame in Ha as [Hh He].
      unfold I in *. cbn [fst snd] in *. rewrite Hh, He. tauto.
    - destruct (add_item a _ path true) as [a'|] eqn:Ha; cbn [mbind result_bind];
        [|discriminate].
      intros [= <-]. apply add_item_frame in Ha as [Hh He].
      unfold I in *. cbn [fst snd] in *. rewrite Hh, He. tauto. }
  unfold I in *. intuition congruence.
Qed.

Lemma diff_step_b_frame fdt_same fdt_b t fdt_b' :
  diff_step_b fdt_same fdt_b t = Ok fdt_b' ->
  header fdt_b' = header fdt_b /\ entries fdt_b' = entries fdt_b.
Proof.
  destruct t as [[path nodes] props]. unfold diff_step_b.
  set (I := fun s0 s : FDT => header s = header s0 /\ entries s = entries s0).
  destruct (foldM _ fdt_b nodes) as [b1|] eqn:H1; cbn [mbind result_bind];
    [|discriminate].
  intros H2.
  assert (Hb1 : I fdt_b b1).
  { revert H1. apply (foldM_frame I); [unfold I; auto|].
    intros s0 s x s' Hs. destruct (lacks_subnode _ _).
    - intros Ha. apply add_item_frame in Ha as [Hh He].
      unfold I in *. rewrite Hh, He. tauto.
    - intros [= <-]. exact Hs. }
  assert (Hb' : I b1 fdt_b').
  { revert H2. apply (foldM_frame I); [unfold I; auto|].
    intros s0 s x s' Hs. destruct (has_equal_property _ _).
    - intros [= <-]. exact Hs.
    - intros Ha. apply add_item_frame in Ha as [Hh He].
      unfold I in *. rewrite Hh, He. tauto. }
  unfold I in *. intuition congruence.
Qed.

(** What [diff] returns, as far as headers and reservation entries go.
    [only_a] has the header of the first tree and [only_b] that of the
    second; [same] has the header with the larger version, the second on a
    tie, and the header of the first tree when a version is missing.  The
    entries of [same] are those of the first tree that occur in the
    second; the entries of [only_a] are those of the first tree that do
    not occur in the second, and likewise for [only_b]; each list in the
    order of its tree. *)
Theorem diff_headers_entries (fdt1 fdt2 fdt_same fdt_a fdt_b : FDT) :
  diff fdt1 fdt2 = Ok (fdt_same, fdt_a, fdt_b) ->
  header fdt_a = header fdt1 /\
  header fdt_b = header fdt2 /\
  header fdt_same =
    match version (header fdt1), version (header fdt2) with
    | Some v1, Some v2 => if (v2 <? v1)%Z then header fdt1 else header fdt2
    | _, _ => header fdt1
    end /\
  entries fdt_same = filter (fun e => e ∈ entries fdt2) (entries fdt1) /\
  entries fdt_a = filter (fun e => e ∉ entries fdt2) (entries fdt1) /\
  entries fdt_b = filter (fun e => e ∉ entries fdt1) (entries fdt2).
Proof.
  unfold diff. cbn [FDT_new default set_entries entries header root_node].
  destruct (walk fdt1 [] false) as [triples1|]; cbn [mbind result_bind];
    [|discriminate].
  destruct (foldM (diff_step_a fdt2) _ triples1) as [[s a]|] eqn:Ha;
    cbn [mbind result_bind]; [|discriminate].
  destruct (walk fdt2 [] false) as [triples2|]; cbn [mbind result_bind];
    [|discriminate].
  destruct (foldM (diff_step_b s) _ triples2) as [b|] eqn:Hb;
    cbn [mbind result_bind]; [|discriminate].
  intros [= <- <- <-].
  apply (foldM_frame
           (fun s0 s : FDT * FDT =>
              header s.1 = header s0.1 /\ entries s.1 = entries s0.1 /\
              header s.2 = header s0.2 /\ entries s.2 = entries s0.2)) in Ha.
  2:{ auto. }
  2:{ intros s0 s1 x s' Hs Hstep. apply diff_step_a_frame in Hstep.
      intuition congruence. }
  apply (foldM_frame
           (fun s0 s : FDT => header s = header s0 /\ entries s = entries s0)) in Hb.
  2:{ auto. }
  2:{ intros s0 s1 x s' Hs Hstep. apply diff_step_b_frame in Hstep.
      intuition congruence. }
  cbn [fst snd header entries set_entries FDT_new default] in Ha, Hb.
  destruct Ha as (Hsh & Hse & Hah & Hae). destruct Hb as (Hbh & Hbe).
  rewrite Hsh, Hse, Hah, Hae, Hbh, Hbe.
  rewrite diff_same_entries_filter. unfold diff_same_header.
  split; [reflexivity|]. split; [reflexivity|]. split; [reflexivity|].
  split; [reflexivity|].
  split; [apply diff_only_entries_filter|apply diff_only_entries_filter_r].
Qed.

(** The sample tree against a tree with another entry and no version. *)
Lemma diff_headers_entries_witness :
  exists fdt_same fdt_a fdt_b,
    diff sample_fdt (mkFDT Header_new [mkEntry 1 2] (Some (Node_new (str "/"))))
    = Ok (fdt_same, fdt_a, fdt_b) /\
    header fdt_same = header sample_fdt /\
    entries fdt_same = [] /\
    entries fdt_a = entries sample_fdt /\
    entries fdt_b = [mkEntry 1 2].
Proof.
  destruct (diff sample_fdt
              (mkFDT Header_new [mkEntry 1 2] (Some (Node_new (str "/")))))
    as [[[fdt_same fdt_a] fdt_b]|e] eqn:Hrun;
    [|vm_compute in Hrun; discriminate Hrun].
  exists fdt_same, fdt_a, fdt_b. split; [reflexivity|].
  destruct (diff_headers_entries _ _ _ _ _ Hrun) as (_ & _ & Hh & Hs & Ha & Hb).
  rewrite Hh, Hs, Ha, Hb. repeat split.
Defined.

(** ** [to_dts] and [parse_dts]: the reservation entries *)

Lemma digit_cases (d : Z) :
  (0 <= d < 16)%Z ->
  d ∈ [0; 1; 2; 3; 4; 5; 6; 7; 8; 9; 10; 11; 12; 13; 14; 15]%Z.
Proof.
  intros Hd. rewrite !elem_of_cons. lia.
Qed.

(** A hexadecimal digit is read back as its value, and is neither an
    underscore nor a blank nor a semicolon. *)
Lemma digit_char_hex (d : Z) :
  (0 <= d < 16)%Z ->
  digit_value (digit_char false d) = Some d /\
  ascii_eqb (digit_char false d) (ascii_of_nat 95) = false /\
  char_in (digit_char false d) whitespace = false /\
  char_in (digit_char false d) (str ";") = false.
Proof.
  intros Hd. apply digit_cases in Hd.
  repeat (apply elem_of_cons in Hd as [->|Hd]; [vm_compute; auto|]).
  inversion Hd.
Qed.

(** The value of a list of digits, the first one counting most. *)
Lemma digits_from_spec (base : Z) (upper : bool) :
  (2 <= base)%Z ->
  forall fuel n acc,
    (1 <= fuel)%nat ->
    (0 <= n < base ^ Z.of_nat fuel)%Z ->
    exists ds,
      digits_from fuel base upper n acc = map (digit_char upper) ds ++ acc /\
      ds <> [] /\ Forall (is_digit base) ds /\
      foldl (fun a d => (a * base + d)%Z) 0%Z ds = n.
Proof.
  intros Hbase. induction fuel as [|fuel IH]; intros n acc Hfuel Hn; [lia|].
  cbn [digits_from].
  pose proof (Z.mod_pos_bound n base ltac:(lia)) as Hmod.
  pose proof (Z.div_mod n base ltac:(lia)) as Hdm.
  destruct (n <? base)%Z eqn:Hlt.
  - apply Z.ltb_lt in Hlt. exists [n]. rewrite Z.mod_small by lia.
    cbn. split; [reflexivity|]. split; [discriminate|].
    split; [constructor; [unfold is_digit; lia|constructor]|lia].
  - apply Z.ltb_ge in Hlt.
    rewrite Nat2Z.inj_succ, Z.pow_succ_r in Hn by lia.
    assert (Hq : (1 <= n / base < base ^ Z.of_nat fuel)%Z).
    { split; [apply Z.div_le_lower_bound; lia|apply Z.div_lt_upper_bound; lia]. }
    assert (Hf : (1 <= fuel)%nat).
    { destruct fuel; [|lia]. change (base ^ Z.of_nat 0)%Z with 1%Z in Hq. lia. }
    destruct (IH (n / base)%Z (digit_char upper (n mod base) :: acc) Hf) as
      (ds & Hds & Hne & Hall & Hval); [lia|].
    exists (ds ++ [n mod base]%Z). rewrite Hds, map_app, <- app_assoc.
    split; [reflexivity|]. split; [destruct ds; discriminate|].
    split; [apply Forall_app; split;
            [exact Hall|constructor; [exact Hmod|constructor]]|].
    rewrite foldl_app. cbn [foldl]. rewrite Hval. lia.
Qed.

Lemma digits_spec (base : Z) (upper : bool) (n : Z) :
  (2 <= base)%Z -> (0 <= n)%Z ->
  exists ds,
    digits base upper n = map (digit_char upper) ds /\
    ds <> [] /\ Forall (is_digit base) ds /\
    foldl (fun a d => (a * base + d)%Z) 0%Z ds = n.
Proof.
  intros Hbase Hn. unfold digits.
  destruct (digits_from_spec base upper Hbase (S (Z.to_nat (Z.log2 n))) n [])
    as (ds & Hds & Hrest); [lia| |].
  - split; [exact Hn|]. rewrite Nat2Z.inj_succ, Z2Nat.id by apply Z.log2_nonneg.
    destruct (Z.eq_dec n 0%Z) as [->|Hnz].
    { change (Z.log2 0) with 0%Z. lia. }
    pose proof (Z.log2_spec n ltac:(lia)) as [_ Hlog].
    eapply Z.lt_le_trans; [exact Hlog|].
    apply Z.pow_le_mono_l. lia.
  - exists ds. rewrite Hds, app_nil_r. split; [reflexivity|exact Hrest].
Qed.

(** Reading hexadecimal digits. *)
Lemma digits_value_hex ds :
  Forall (is_digit 16) ds -> ds <> [] ->
  forall v st,
    digits_value 16 v st (map (digit_char false) ds)
    = Some (foldl (fun a d => (a * 16 + d)%Z) v ds).
Proof.
  induction 1 as [|d ds Hd Hds IH]; intros Hne v st; [congruence|].
  cbn [map digits_value foldl].
  destruct (digit_char_hex d Hd) as (Hval & Hund & _).
  rewrite Hund, Hval.
  replace (d <? 16)%Z with true by (symmetry; apply Z.ltb_lt; unfold is_digit in Hd; lia).
  destruct ds as [|d' ds]; [reflexivity|].
  apply IH. discriminate.
Qed.

(** Stripping leaves a string whose ends are not among the characters
    to strip. *)
Lemma lstrip_head chars c s :
  char_in c chars = false -> lstrip chars (c :: s) = c :: s.
Proof. intros Hc. cbn [lstrip]. rewrite Hc. reflexivity. Qed.

Lemma rstrip_end chars s w c :
  char_in c chars = false -> rstrip chars (s ++ w ++ [c]) = s ++ w ++ [c].
Proof.
  intros Hc. unfold rstrip. rewrite !rev_app_distr. cbn [rev app].
  rewrite lstrip_head by exact Hc.
  change (c :: rev w ++ rev s) with (rev [c] ++ rev w ++ rev s).
  rewrite <- !rev_app_distr, rev_involutive, <- app_assoc. reflexivity.
Qed.

Lemma rstrip_drop chars s c :
  char_in c chars = true -> rstrip chars (s ++ [c]) = rstrip chars s.
Proof.
  intros Hc. unfold rstrip. rewrite rev_app_distr. cbn [rev app lstrip].
  rewrite Hc. reflexivity.
Qed.

Lemma is_word_last w : is_word w -> exists w' c,
  w = w' ++ [c] /\ char_in c whitespace = false /\ char_in c (str ";") = false.
Proof.
  intros [Hne Hall]. destruct (rev w) as [|c r] eqn:Hrev.
  - apply (f_equal (@rev ascii)) in Hrev. rewrite rev_involutive in Hrev. contradiction.
  - exists (rev r), c. apply (f_equal (@rev ascii)) in Hrev.
    rewrite rev_involutive in Hrev. cbn [rev] in Hrev. split; [exact Hrev|].
    rewrite Hrev in Hall. apply Forall_app in Hall as [_ Hc].
    rewrite Forall_singleton in Hc. exact Hc.
Qed.

Lemma strip_word w : is_word w -> strip whitespace w = w.
Proof.
  intros Hw. destruct (is_word_last w Hw) as (w' & c & -> & Hc & _).
  destruct Hw as [_ Hall]. unfold strip.
  assert (Hl : lstrip whitespace (w' ++ [c]) = w' ++ [c]).
  { destruct w' as [|a w']; cbn [app]; apply lstrip_head.
    - exact Hc.
    - apply Forall_cons in Hall as [[Ha _] _]. exact Ha. }
  rewrite Hl. apply (rstrip_end whitespace [] w' c Hc).
Qed.

(** [split()] of words with a space between them. *)
Lemma split_ws_from_word w cur s :
  Forall (fun c => char_in c whitespace = false) w ->
  split_ws_from cur (w ++ s) = split_ws_from (rev w ++ cur) s.
Proof.
  intros Hw. revert cur. induction Hw as [|c w Hc _ IH]; intros cur; [reflexivity|].
  cbn [app split_ws_from]. rewrite Hc, IH. cbn [rev]. rewrite <- app_assoc.
  reflexivity.
Qed.

Lemma is_word_no_blank w :
  is_word w -> Forall (fun c => char_in c whitespace = false) w.
Proof. intros [_ Hall]. eapply Forall_impl; [exact Hall|]. cbn. tauto. Qed.

Lemma split_ws_word_space w s :
  is_word w -> split_ws_from [] (w ++ str " " ++ s) = w :: split_ws_from [] s.
Proof.
  intros Hw. rewrite (split_ws_from_word w [] _ (is_word_no_blank w Hw)).
  rewrite app_nil_r. change (str " " ++ s) with (" "%char :: s).
  cbn [split_ws_from]. change (char_in " "%char whitespace) with true. cbn iota.
  destruct Hw as [Hne _]. destruct (rev w) as [|c r] eqn:Hrev.
  - apply (f_equal (@rev ascii)) in Hrev. rewrite rev_involutive in Hrev. contradiction.
  - rewrite <- Hrev, rev_involutive. reflexivity.
Qed.

Lemma split_ws_three w1 w2 w3 :
  is_word w1 -> is_word w2 -> is_word w3 ->
  split_ws (w1 ++ str " " ++ w2 ++ str " " ++ w3) = [w1; w2; w3].
Proof.
  intros H1 H2 H3. unfold split_ws.
  rewrite (split_ws_word_space w1 _ H1), (split_ws_word_space w2 _ H2).
  rewrite <- (app_nil_r w3).
  rewrite (split_ws_from_word w3 [] [] (is_word_no_blank w3 H3)).
  rewrite !app_nil_r. cbn [split_ws_from].
  destruct H3 as [Hne _]. destruct (rev w3) as [|c r] eqn:Hrev.
  - apply (f_equal (@rev ascii)) in Hrev. rewrite rev_involutive in Hrev. contradiction.
  - rewrite <- Hrev, rev_involutive. reflexivity.
Qed.

Lemma is_word_hash_x n : is_word (format_hash_x n).
Proof.
  unfold format_hash_x.
  destruct (digits_spec 16 false (Z.abs n) ltac:(lia) ltac:(lia))
    as (ds & -> & _ & Hall & _).
  split; [unfold sign_of; destruct (n <? 0)%Z; discriminate|].
  apply Forall_app. split.
  { unfold sign_of. destruct (n <? 0)%Z; repeat constructor. }
  apply Forall_app. split; [repeat constructor|].
  apply Forall_fmap. eapply Forall_impl; [exact Hall|].
  intros d Hd. cbn. destruct (digit_char_hex d Hd) as (_ & _ & Hws & Hsemi). auto.
Qed.

(** [int(s, 0)] of what ["{:#x}".format(n)] writes. *)
Lemma py_int_hash_x n : py_int 0 (format_hash_x n) = Ok n.
Proof.
  unfold py_int. rewrite (strip_word _ (is_word_hash_x n)).
  unfold format_hash_x.
  destruct (digits_spec 16 false (Z.abs n) ltac:(lia) ltac:(lia))
    as (ds & -> & Hne & Hall & Hval).
  pose proof (digits_value_hex ds Hall Hne 0%Z DPrefix) as Hread.
  rewrite Hval in Hread.
  unfold sign_of. destruct (n <? 0)%Z eqn:Hneg.
  - change (str "-" ++ str "0x" ++ map (digit_char false) ds)
      with ("-"%char :: "0"%char :: "x"%char :: map (digit_char false) ds).
    lazy - [digits_value Z.mul map digit_char Z.abs].
    rewrite Hread. apply Z.ltb_lt in Hneg. f_equal. lia.
  - change ([] ++ str "0x" ++ map (digit_char false) ds)
      with ("0"%char :: "x"%char :: map (digit_char false) ds).
    lazy - [digits_value Z.mul map digit_char Z.abs].
    rewrite Hread. apply Z.ltb_ge in Hneg. f_equal. lia.
Qed.

Lemma is_word_zero : is_word (str "0").
Proof. split; [discriminate|repeat constructor]. Qed.

Lemma is_word_memreserve : is_word (str "/memreserve/").
Proof. split; [discriminate|repeat constructor]. Qed.

(** The number an entry holds, as [to_dts] writes it. *)
Lemma to_dts_number n :
  let w := if (n =? 0)%Z then str "0" else format_hash_x n in
  is_word w /\ py_int 0 w = Ok n.
Proof.
  cbn zeta. destruct (n =? 0)%Z eqn:Hz.
  - apply Z.eqb_eq in Hz as ->. split; [exact is_word_zero|reflexivity].
  - split; [apply is_word_hash_x|apply py_int_hash_x].
Qed.

(** The line of an entry, as a statement. *)
Lemma to_dts_entry_statement e :
  exists a s,
    is_word a /\ is_word s /\
    py_int 0 a = Ok (address e) /\ py_int 0 s = Ok (size e) /\
    statement_of (to_dts_entry e)
    = str "/memreserve/" ++ str " " ++ a ++ str " " ++ s ++ str ";".
Proof.
  destruct (to_dts_number (address e)) as [Hwa Hia].
  destruct (to_dts_number (size e)) as [Hws His].
  eexists _, _. split; [exact Hwa|]. split; [exact Hws|].
  split; [exact Hia|]. split; [exact His|].
  unfold statement_of, to_dts_entry.
  set (a := if (address e =? 0)%Z then str "0" else format_hash_x (address e)) in *.
  set (s := if (size e =? 0)%Z then str "0" else format_hash_x (size e)) in *.
  replace (if (address e =? 0)%Z then str "0 " else format_hash_x (address e) ++ str " ")
    with (a ++ str " ").
  2:{ unfold a. destruct (address e =? 0)%Z; reflexivity. }
  unfold strip.
  change (str "/memreserve/ " ++ (a ++ str " ") ++ s ++ str ";" ++ [LF])
    with ("/"%char :: (str "memreserve/ " ++ (a ++ str " ") ++ s ++ str ";" ++ [LF])).
  rewrite lstrip_head by reflexivity.
  change ("/"%char :: (str "memreserve/ " ++ (a ++ str " ") ++ s ++ str ";" ++ [LF]))
    with (str "/memreserve/ " ++ (a ++ str " ") ++ s ++ str ";" ++ [LF]).
  replace (str "/memreserve/ " ++ (a ++ str " ") ++ s ++ str ";" ++ [LF])
    with ((str "/memreserve/ " ++ (a ++ str " ") ++ s ++ str ";") ++ [LF])
    by (rewrite <- !app_assoc; reflexivity).
  rewrite rstrip_drop by reflexivity.
  replace (str "/memreserve/ " ++ (a ++ str " ") ++ s ++ str ";")
    with (str "/memreserve/" ++ (str " " ++ a ++ str " " ++ s) ++ [";"%char])
    by (rewrite <- !app_assoc; reflexivity).
  rewrite rstrip_end by reflexivity.
  rewrite <- !app_assoc. reflexivity.
Qed.

Lemma memreserve_entry_statement e :
  memreserve_entry (statement_of (to_dts_entry e)) = Ok e /\
  startswith (str "/memreserve/") (statement_of (to_dts_entry e)) = true /\
  endswith (str "{") (statement_of (to_dts_entry e)) = false.
Proof.
  destruct (to_dts_entry_statement e) as (a & s & Hwa & Hws & Hia & His & ->).
  split; [|split].
  - unfold memreserve_entry, strip.
    change (str "/memreserve/" ++ str " " ++ a ++ str " " ++ s ++ str ";")
      with ("/"%char :: (str "memreserve/" ++ str " " ++ a ++ str " " ++ s ++ str ";")).
    rewrite lstrip_head by reflexivity.
    change ("/"%char :: (str "memreserve/" ++ str " " ++ a ++ str " " ++ s ++ str ";"))
      with (str "/memreserve/" ++ str " " ++ a ++ str " " ++ s ++ str ";").
    destruct (is_word_last s Hws) as (s' & c & Hs & _ & Hc).
    replace (str "/memreserve/" ++ str " " ++ a ++ str " " ++ s ++ str ";")
      with ((str "/memreserve/" ++ str " " ++ a ++ str " " ++ s) ++ [";"%char])
      by (rewrite <- !app_assoc; reflexivity).
    rewrite rstrip_drop by reflexivity.
    assert (Hkeep : rstrip (str ";") (str "/memreserve/" ++ str " " ++ a ++ str " " ++ s)
                    = str "/memreserve/" ++ str " " ++ a ++ str " " ++ s).
    { rewrite Hs.
      replace (str "/memreserve/" ++ str " " ++ a ++ str " " ++ s' ++ [c])
        with ((str "/memreserve/" ++ str " " ++ a ++ str " ") ++ s' ++ [c])
        by (rewrite <- !app_assoc; reflexivity).
      apply rstrip_end, Hc. }
    rewrite Hkeep, (split_ws_three _ a s is_word_memreserve Hwa Hws).
    rewrite Hia, His. cbn [mbind result_bind]. destruct e. reflexivity.
  - reflexivity.
  - unfold endswith.
    replace (str "/memreserve/" ++ str " " ++ a ++ str " " ++ s ++ str ";")
      with ((str "/memreserve/" ++ str " " ++ a ++ str " " ++ s) ++ [";"%char])
      by (rewrite <- !app_assoc; reflexivity).
    rewrite rev_app_distr. reflexivity.
Qed.

(** The [/memreserve/] lines that [to_dts] writes, taken as statements,
    are read back by the first loop of [parse_dts] as the reservation
    entries they were written for: the same addresses and sizes, in the
    same order, whatever the numbers are. *)
Theorem to_dts_entries_read_back (es : list Entry) :
  parse_dts_entries (map (fun e => statement_of (to_dts_entry e)) es) [] = Ok es.
Proof.
  assert (Hgen : forall acc,
            parse_dts_entries (map (fun e => statement_of (to_dts_entry e)) es) acc
            = Ok (acc ++ es)).
  { induction es as [|e es IH]; intros acc.
    - cbn. rewrite app_nil_r. reflexivity.
    - cbn [map parse_dts_entries].
      destruct (memreserve_entry_statement e) as (Hentry & Hstart & Hend).
      rewrite Hend, Hstart, Hentry. cbn [mbind result_bind].
      rewrite IH, <- app_assoc. reflexivity. }
  apply Hgen.
Qed.

Example to_dts_entry_example :
  to_dts_entry (mkEntry 0x10000000 0) = str "/memreserve/ 0x10000000 0;" ++ [LF].
Proof. vm_compute. reflexivity. Qed.

(** [to_dts] on a tree without a root node: the head and the lines of the
    entries, where [to_dtb] returns None. *)
Lemma to_dts_rootless `{ItemDtsPy} fdt tabsize :
  root_node fdt = None ->
  to_dts fdt tabsize
  = Ok (to_dts_head (header fdt) ++ concat (map to_dts_entry (entries fdt))).
Proof. intros Hroot. unfold to_dts. rewrite Hroot. reflexivity. Qed.

Example to_dts_rootless_example :
  to_dts_head (header rootless_fdt)
  = str "/dts-v1/;" ++ [LF] ++ str "// version: 17" ++ [LF]
    ++ str "// last_comp_version: 0" ++ [LF]
    ++ str "// boot_cpuid_phys: 0x0" ++ [LF] ++ [LF].
Proof. vm_compute. reflexivity. Qed.

(** ** The rounds of the structure loop of [parse_dtb] *)

(** A structure block that starts with FDT_NOP: the tag, which the
    module imports, is not skipped but refused as unknown. *)
Example parse_dtb_nop_refused :
  parse_nodes_loop 8 (be_bytes 4 DTB_NOP ++ two_nodes_struct) 0
    (with_version Header_new (Some 17%Z)) 0 builder_init
  = Raise BaseError.
Proof. reflexivity. Qed.

(** A round at FDT_BEGIN_NODE.  The name is read after the tag; the next
    round starts at the multiple of 4 that leaves room for the name and
    its NUL and for no more than three bytes of padding; and the node is
    named [/] when the name is empty. *)
Theorem parse_dtb_begin_node `{ItemPy} `{MiscPy} (data : list byte) (offset : Z)
    (hdr : Header) (index : Z) (b : builder) (node_name : pystr) :
  (offset + index + 4 <= len data)%Z ->
  unpack_be 4 data (offset + index) = Ok DTB_BEGIN_NODE ->
  extract_string data (offset + (index + 4)) = Ok node_name ->
  exists next,
    parse_nodes_step data offset hdr index b
    = Ok (Continue next
            (builder_begin b (if bool_decide (node_name = [])
                              then str "/" else node_name))) /\
    (next mod 4 = 0)%Z /\
    (index + 4 + len node_name + 1 <= next <= index + 4 + len node_name + 4)%Z.
Proof.
  intros Hlen Htag Hname.
  exists (Z.land (index + 4 + len node_name + 4) (Z.lnot 3)).
  split; [|].
  - unfold parse_nodes_step.
    replace (len data <? offset + index + 4)%Z with false
      by (symmetry; apply Z.ltb_ge; lia).
    rewrite Htag. cbn [mbind result_bind].
    change (DTB_BEGIN_NODE =? DTB_BEGIN_NODE)%Z with true. cbn iota.
    rewrite Hname. cbn [mbind result_bind].
    destruct node_name; reflexivity.
  - rewrite land_lnot_3.
    pose proof (Z.div_mod (index + 4 + len node_name + 4) 4 ltac:(lia)) as Hdm.
    pose proof (Z.mod_pos_bound (index + 4 + len node_name + 4) 4 ltac:(lia)) as Hb.
    split; [rewrite Z.mul_comm; apply Z.mod_mul; lia|lia].
Qed.

(** The root of the sample blob: the tag at 88, the empty name, and the
    next tag at 96. *)
Lemma parse_dtb_begin_node_witness :
  exists next,
    parse_nodes_step sample_blob 0 (with_version Header_new (Some 17%Z)) 88
      builder_init
    = Ok (Continue next (builder_begin builder_init (str "/"))) /\
    (next mod 4 = 0)%Z /\
    (88 + 4 + 0 + 1 <= next <= 88 + 4 + 0 + 4)%Z.
Proof.
  exact (parse_dtb_begin_node sample_blob 0 (with_version Header_new (Some 17%Z))
           88 builder_init [] ltac:(vm_compute; discriminate) eq_refl eq_refl).
Defined.
